(** * Cross-validated transfer error

    A shallow embedding of [CrossValidatedTransferError._call]
    (mvpa/algorithms/cvtranserror.py) and the properties of its
    orchestration: which TransferError instance evaluates a fold, what is
    accumulated, what is returned, and what state is left behind on the
    normal and on the exceptional exits.

    The Python objects that [_call] shares and mutates (the TransferError
    instances, their classifiers, the state collection of the engine) live in
    an explicit store; every statement of [_call] is a step of a state and
    exception monad over that store, so that the store reached when an
    exception propagates is part of the result. *)

From stdpp Require Import base option list gmap strings.
From Stdlib Require Import ZArith Lia.

(** ** Exceptions and outcomes *)

(** The Python exceptions that [_call] can meet.  [CollaboratorError] stands
    for whatever a collaborator (TransferError, label map attachment)
    raises on its own. *)
Inductive Exn :=
| UnboundLocalError
| KeyError
| UnknownStateError
| IndexError
| AttributeError
| CollaboratorError (code : nat).

Inductive Outcome (A : Type) :=
| Ok (a : A)
| Raise (e : Exn).
Arguments Ok {A} a.
Arguments Raise {A} e.

#[global] Instance Exn_eq_dec : EqDecision Exn.
Proof. solve_decision. Defined.

(** ** The data the engine sees *)

(** The collaborators are opaque to the engine; only their interface is
    fixed here. *)
Class Domain := {
  Dataset : Type;            (* a dataset or a partition of one *)
  LabelsMap : Type;
  Res : Type;                (* the error value of one fold *)
  Err : Type;                (* one per-sample error contribution *)
  Value : Type;              (* what the combiner returns *)
  Summary : Type;            (* a confusion summary object *)
  TS : Type;                 (* internals of a TransferError *)
  CS : Type;                 (* internals of a classifier (its training) *)
  Harvest : Type;            (* what Harvestable has collected *)
  origids : Dataset -> list Z;
  (* [dataset.labels_map]; [None] when reading the attribute raises *)
  labels_map : Dataset -> option LabelsMap;
  (* [ds._dsattr['lastsplit']]; [None] when the key is missing *)
  dsattr_lastsplit : Dataset -> option bool;
}.

Section Model.
Context `{D : Domain}.

(** A split as the splitter yields it: [split[0]] is the training
    partition, [split[1]] the testing partition, either may be [None]. *)
Definition Split : Type := option Dataset * option Dataset.

(** A classifier object.  [testdataset] is [None] when the object has no
    such attribute ([hasattr] is false), [Some None] when the attribute
    holds Python's [None]. *)
Record Classifier := mkClassifier {
  testdataset : option (option Dataset);
  clf_model : CS;
}.

(** A TransferError object: its classifier, its state collection
    (which states are enabled, the stack of enablements saved by
    [_changeTemporarily], the values of the three states [_call] reads;
    a value is [None] while the state is unset) and its own internals. *)
Record TransferError := mkTransferError {
  clf : Classifier;
  te_enabled : list string;
  te_stored : list (list string);
  te_confusion : option Summary;
  te_training_confusion : option Summary;
  te_samples_error : option (list (Z * Err));
  te_internal : TS;
}.

(** What one evaluation [transerror(testdataset, trainingdataset)] leaves
    behind: the error value or the exception, the internals of the
    TransferError and of its classifier, and the values of its states.  An
    evaluation does not rebind the classifier's [testdataset] attribute and
    does not change which states are enabled. *)
Record TEOut := mkTEOut {
  out_result : Outcome Res;
  out_internal : TS;
  out_model : CS;
  out_confusion : option Summary;
  out_training_confusion : option Summary;
  out_samples_error : option (list (Z * Err));
}.

(** The behaviour of the collaborators. *)
Class Collaborators := {
  (* TransferError.__call__(testdataset, trainingdataset) *)
  terr_fx : TransferError -> option Dataset -> option Dataset -> TEOut;
  (* TransferError.untrain(): the internals it leaves; like an evaluation it
     rebinds no attribute and changes no enablement *)
  untrain_fx : TransferError -> TS * CS;
  (* clf._summaryClass() *)
  summaryClass : Classifier -> Summary;
  (* Summary.__iadd__ *)
  summary_iadd : Summary -> Summary -> Summary;
  (* summary.labels_map = m *)
  set_labels_map : Summary -> LabelsMap -> Outcome Summary;
  (* Harvestable._harvest(locals()): it sees the split, the instance that
     evaluated it, the result and the results collected so far *)
  harvest_fx : Harvest -> Split -> TransferError -> Res -> list Res -> Harvest;
}.
Context `{C : Collaborators}.

(** The engine as its constructor configures it.  [enabled] lists the names
    of the enabled state variables of the engine. *)
Record Engine := mkEngine {
  splitter : Dataset -> list Split;
  combiner : list Res -> Outcome Value;
  expose_testdataset : bool;
  enabled : list string;
}.

(** [states.isEnabled(name)] *)
Definition isEnabled (self : Engine) (name : string) : bool :=
  bool_decide (name ∈ enabled self).

(** The values of the engine's state variables; [None] while unset. *)
Record States := mkStates {
  st_results : option (list Res);
  st_splits : option (list Split);
  st_transerrors : option (list nat);
  st_confusion : option Summary;
  st_training_confusion : option Summary;
  st_samples_error : option (gmap Z (list Err));
}.

(** What happened, in order: the evaluations of TransferError instances and
    the invocations of the combiner. *)
Inductive Event :=
| EvEval (r : nat) (test train : option Dataset) (res : Outcome Res)
| EvCombine (rs : list Res).

(** The store.  TransferError objects are addressed by reference; a
    classifier is addressed through the TransferError that holds it (a deep
    copy holds a classifier of its own).  [self_transerror] is
    [self.__transerror], [self_states] the values in [self.states]. *)
Record World := mkWorld {
  heap : nat -> TransferError;
  next_ref : nat;
  self_transerror : nat;
  self_states : States;
  harvested : Harvest;
  trace : list Event;
}.

Definition with_heap (h : nat -> TransferError) (w : World) : World :=
  mkWorld h (next_ref w) (self_transerror w) (self_states w) (harvested w) (trace w).
Definition with_next_ref (n : nat) (w : World) : World :=
  mkWorld (heap w) n (self_transerror w) (self_states w) (harvested w) (trace w).
Definition with_self_transerror (r : nat) (w : World) : World :=
  mkWorld (heap w) (next_ref w) r (self_states w) (harvested w) (trace w).
Definition with_self_states (s : States) (w : World) : World :=
  mkWorld (heap w) (next_ref w) (self_transerror w) s (harvested w) (trace w).
Definition with_harvested (h : Harvest) (w : World) : World :=
  mkWorld (heap w) (next_ref w) (self_transerror w) (self_states w) h (trace w).
Definition with_trace (t : list Event) (w : World) : World :=
  mkWorld (heap w) (next_ref w) (self_transerror w) (self_states w) (harvested w) t.

(** [h[r] := te] *)
Definition store (r : nat) (te : TransferError) (h : nat -> TransferError)
  : nat -> TransferError :=
  fun r' => if decide (r' = r) then te else h r'.

(** ** The monad *)

Definition M (A : Type) : Type := World -> Outcome A * World.

Definition ret {A} (a : A) : M A := fun w => (Ok a, w).
Definition raise {A} (e : Exn) : M A := fun w => (Raise e, w).
Definition bind {A B} (m : M A) (k : A -> M B) : M B :=
  fun w => match m w with
           | (Ok a, w') => k a w'
           | (Raise e, w') => (Raise e, w')
           end.
Definition gets {A} (f : World -> A) : M A := fun w => (Ok (f w), w).
Definition modify (f : World -> World) : M unit := fun w => (Ok tt, f w).
(** [if c: body] *)
Definition when (c : bool) (body : M unit) : M unit :=
  if c then body else ret tt.
(** [try: body / except: pass] *)
Definition try_except_pass (body : M unit) : M unit :=
  fun w => match body w with
           | (_, w') => (Ok tt, w')
           end.

Notation "x <- m ;; k" := (bind m (fun x => k))
  (at level 100, m at next level, right associativity).
Notation "m ;;; k" := (bind m (fun _ => k))
  (at level 100, right associativity).

(** ** The state collections (mvpa.misc.state) *)

(** Modelled from the spec: assignment to a state variable
    (StateVariable, mvpa/misc/state.py).  The value is stored only when the
    state is enabled; otherwise the assignment is dropped and the state keeps
    what it held. *)
Definition assign {A} (self : Engine) (name : string) (old : option A) (v : A)
  : option A :=
  if isEnabled self name then Some v else old.

(** Modelled from the spec: reading the value of a state variable
    (StateVariable, mvpa/misc/state.py).  A state is populated only when
    enabled; reading one that holds no value raises. *)
Definition read_state {A} (v : option A) : M A :=
  match v with
  | Some a => ret a
  | None => raise UnknownStateError
  end.

(** Modelled from the spec: the enable operation of a state collection
    (mvpa/misc/state.py): the names not yet enabled are added. *)
Definition enable_states (names : list string) (en : list string) : list string :=
  en ++ List.filter (fun n => negb (bool_decide (n ∈ en))) names.

(** Modelled from the spec: [states._changeTemporarily(enable_states=names)]
    (mvpa/misc/state.py) records the current enablement and then enables
    [names]. *)
Definition _changeTemporarily (r : nat) (names : list string) : M unit :=
  modify (fun w =>
    let te := heap w r in
    with_heap (store r
      (mkTransferError (clf te) (enable_states names (te_enabled te))
         (te_enabled te :: te_stored te)
         (te_confusion te) (te_training_confusion te) (te_samples_error te)
         (te_internal te)) (heap w)) w).

(** Modelled from the spec: [states._resetEnabledTemporarily()]
    (mvpa/misc/state.py) restores the enablement recorded last; with
    nothing recorded the pop raises. *)
Definition _resetEnabledTemporarily (r : nat) : M unit :=
  fun w =>
    let te := heap w r in
    match te_stored te with
    | [] => (Raise IndexError, w)
    | en :: rest =>
        (Ok tt, with_heap (store r
           (mkTransferError (clf te) en rest
              (te_confusion te) (te_training_confusion te) (te_samples_error te)
              (te_internal te)) (heap w)) w)
    end.

(** ** The steps of [_call] *)

(** [self.__transerror.untrain()] *)
Definition untrain (r : nat) : M unit :=
  modify (fun w =>
    let te := heap w r in
    let '(ts, cs) := untrain_fx te in
    with_heap (store r
      (mkTransferError (mkClassifier (testdataset (clf te)) cs)
         (te_enabled te) (te_stored te)
         (te_confusion te) (te_training_confusion te) (te_samples_error te)
         ts) (heap w)) w).

(** [deepcopy(self.__transerror)]: a new object with a classifier of its
    own, equal in content to the original at the time of the copy. *)
Definition deepcopy (r : nat) : M nat :=
  fun w =>
    let r' := next_ref w in
    (Ok r', with_next_ref (S r') (with_heap (store r' (heap w r) (heap w)) w)).

(** [clf.testdataset = v], on the classifier held by the object [r]. *)
Definition set_testdataset (r : nat) (v : option Dataset) : M unit :=
  modify (fun w =>
    let te := heap w r in
    with_heap (store r
      (mkTransferError (mkClassifier (Some v) (clf_model (clf te)))
         (te_enabled te) (te_stored te)
         (te_confusion te) (te_training_confusion te) (te_samples_error te)
         (te_internal te)) (heap w)) w).

(** [result = transerror(split[1], split[0])] on the instance [r]. *)
Definition call_transerror (r : nat) (test train : option Dataset) : M Res :=
  fun w =>
    let te := heap w r in
    let out := terr_fx te test train in
    let w' :=
      with_trace (trace w ++ [EvEval r test train (out_result out)])
        (with_heap (store r
           (mkTransferError
              (mkClassifier (testdataset (clf te)) (out_model out))
              (te_enabled te) (te_stored te)
              (out_confusion out) (out_training_confusion out)
              (out_samples_error out) (out_internal out)) (heap w)) w) in
    (out_result out, w').

(** Lines 170-174: the marker of the first partition of the split that is
    not [None]; Python's [None] (no partition) counts as false. *)
Definition first_present (split : Split) : option Dataset :=
  match fst split with
  | Some ds => Some ds
  | None => snd split
  end.

Definition read_lastsplit (split : Split) : M bool :=
  match first_present split with
  | None => ret false
  | Some ds =>
      match dsattr_lastsplit ds with
      | Some b => ret b
      | None => raise KeyError
      end
  end.

(** Lines 167-183: which instance evaluates the split. *)
Definition select_transerror (self : Engine) (split : Split) : M nat :=
  if isEnabled self "transerrors" then
    lastsplit <- read_lastsplit split ;;
    if (lastsplit : bool) then gets self_transerror
    else (mother <- gets self_transerror ;; deepcopy mother)
  else gets self_transerror.

(** [self.states.splits.append(split)] *)
Definition append_split (split : Split) : M unit :=
  l <- (fun w => read_state (st_splits (self_states w)) w) ;;
  modify (fun w =>
    let st := self_states w in
    with_self_states
      (mkStates (st_results st) (Some (l ++ [split])) (st_transerrors st)
         (st_confusion st) (st_training_confusion st) (st_samples_error st)) w).

(** [self.states.transerrors.append(transerror)] *)
Definition append_transerror (r : nat) : M unit :=
  l <- (fun w => read_state (st_transerrors (self_states w)) w) ;;
  modify (fun w =>
    let st := self_states w in
    with_self_states
      (mkStates (st_results st) (st_splits st) (Some (l ++ [r]))
         (st_confusion st) (st_training_confusion st) (st_samples_error st)) w).

Definition put_samples_error (m : gmap Z (list Err)) : M unit :=
  modify (fun w =>
    let st := self_states w in
    with_self_states
      (mkStates (st_results st) (st_splits st) (st_transerrors st)
         (st_confusion st) (st_training_confusion st) (Some m)) w).

(** Lines 208-210, one item: [self.states.samples_error[k].append(v)]. *)
Definition append_sample_error (kv : Z * Err) : M unit :=
  m <- (fun w => read_state (st_samples_error (self_states w)) w) ;;
  match m !! fst kv with
  | None => raise KeyError
  | Some l => put_samples_error (<[fst kv := l ++ [snd kv]]> m)
  end.

Fixpoint for_each {A} (body : A -> M unit) (l : list A) : M unit :=
  match l with
  | [] => ret tt
  | x :: l' => body x ;;; for_each body l'
  end.

(** Lines 207-210. *)
Definition pull_samples_error (r : nat) : M unit :=
  items <- (fun w => read_state (te_samples_error (heap w r)) w) ;;
  for_each append_sample_error items.

(** Lines 213-216 for [state_var = 'confusion']. *)
Definition pull_confusion (r : nat) : M unit :=
  acc <- (fun w => read_state (st_confusion (self_states w)) w) ;;
  v <- (fun w => read_state (te_confusion (heap w r)) w) ;;
  modify (fun w =>
    let st := self_states w in
    with_self_states
      (mkStates (st_results st) (st_splits st) (st_transerrors st)
         (Some (summary_iadd acc v)) (st_training_confusion st)
         (st_samples_error st)) w).

(** Lines 213-216 for [state_var = 'training_confusion']. *)
Definition pull_training_confusion (r : nat) : M unit :=
  acc <- (fun w => read_state (st_training_confusion (self_states w)) w) ;;
  v <- (fun w => read_state (te_training_confusion (heap w r)) w) ;;
  modify (fun w =>
    let st := self_states w in
    with_self_states
      (mkStates (st_results st) (st_splits st) (st_transerrors st)
         (st_confusion st) (Some (summary_iadd acc v))
         (st_samples_error st)) w).

(** [self._harvest(locals())] *)
Definition _harvest (split : Split) (r : nat) (result : Res) (results : list Res)
  : M unit :=
  modify (fun w =>
    with_harvested (harvest_fx (harvested w) split (heap w r) result results) w).

(** The local variables of [_call] that the loop rebinds: [results] and
    [transerror] (unbound until the first split is processed). *)
Record Locals := mkLocals {
  results : list Res;
  transerror : option nat;
}.

(** Lines 164-188: up to the evaluation.  [clf_ref] addresses the object
    bound to the local [clf] before the loop. *)
Definition before_evaluation (self : Engine) (clf_ref : nat)
    (clf_hastestdataset : bool) (split : Split) : M nat :=
  when (isEnabled self "splits") (append_split split) ;;;
  te <- select_transerror self split ;;
  when (clf_hastestdataset && expose_testdataset self)
    (set_testdataset clf_ref (snd split)) ;;;
  ret te.

(** Lines 193-221: after the evaluation returned [result]. *)
Definition after_evaluation (self : Engine) (clf_ref : nat)
    (clf_hastestdataset : bool) (lc : Locals) (split : Split) (te : nat)
    (result : Res) : M Locals :=
  when (clf_hastestdataset && expose_testdataset self)
    (set_testdataset clf_ref None) ;;;
  _harvest split te result (results lc) ;;;
  when (isEnabled self "transerrors") (append_transerror te) ;;;
  when (isEnabled self "samples_error") (pull_samples_error te) ;;;
  when (isEnabled self "confusion") (pull_confusion te) ;;;
  when (isEnabled self "training_confusion") (pull_training_confusion te) ;;;
  ret (mkLocals (results lc ++ [result]) (Some te)).

(** The body of the loop over the splits (lines 162-221). *)
Definition process_split (self : Engine) (clf_ref : nat)
    (clf_hastestdataset : bool) (lc : Locals) (split : Split) : M Locals :=
  te <- before_evaluation self clf_ref clf_hastestdataset split ;;
  result <- call_transerror te (snd split) (fst split) ;;
  after_evaluation self clf_ref clf_hastestdataset lc split te result.

(** [for split in self.__splitter(dataset): ...] *)
Fixpoint for_splits (self : Engine) (clf_ref : nat) (clf_hastestdataset : bool)
    (lc : Locals) (l : list Split) : M Locals :=
  match l with
  | [] => ret lc
  | split :: l' =>
      lc' <- process_split self clf_ref clf_hastestdataset lc split ;;
      for_splits self clf_ref clf_hastestdataset lc' l'
  end.

(** Lines 135-138. *)
Definition terr_enable_of (self : Engine) : list string :=
  foldl (fun acc state_var =>
           if isEnabled self state_var then acc ++ [state_var] else acc)
    [] ["confusion"; "training_confusion"; "samples_error"].

(** Lines 127 and 144-147: charge the states with initial values. *)
Definition charge_states (self : Engine) (dataset : Dataset) (c : Classifier)
  : M unit :=
  modify (fun w =>
    let st := self_states w in
    with_self_states
      (mkStates (st_results st)
         (assign self "splits" (st_splits st) [])
         (assign self "transerrors" (st_transerrors st) [])
         (assign self "confusion" (st_confusion st) (summaryClass c))
         (assign self "training_confusion" (st_training_confusion st)
            (summaryClass c))
         (assign self "samples_error" (st_samples_error st)
            (list_to_map ((fun id => (id, [])) <$> origids dataset)))) w).

(** Line 230: [self.states.results = results]. *)
Definition store_results (self : Engine) (rs : list Res) : M unit :=
  modify (fun w =>
    let st := self_states w in
    with_self_states
      (mkStates (assign self "results" (st_results st) rs) (st_splits st)
         (st_transerrors st) (st_confusion st) (st_training_confusion st)
         (st_samples_error st)) w).

(** [states.confusion.labels_map = dataset.labels_map] *)
Definition attach_confusion (dataset : Dataset) : M unit :=
  acc <- (fun w => read_state (st_confusion (self_states w)) w) ;;
  match labels_map dataset with
  | None => raise AttributeError
  | Some lm =>
      match set_labels_map acc lm with
      | Raise e => raise e
      | Ok acc' =>
          modify (fun w =>
            let st := self_states w in
            with_self_states
              (mkStates (st_results st) (st_splits st) (st_transerrors st)
                 (Some acc') (st_training_confusion st)
                 (st_samples_error st)) w)
      end
  end.

(** [states.training_confusion.labels_map = dataset.labels_map] *)
Definition attach_training_confusion (dataset : Dataset) : M unit :=
  acc <- (fun w => read_state (st_training_confusion (self_states w)) w) ;;
  match labels_map dataset with
  | None => raise AttributeError
  | Some lm =>
      match set_labels_map acc lm with
      | Raise e => raise e
      | Ok acc' =>
          modify (fun w =>
            let st := self_states w in
            with_self_states
              (mkStates (st_results st) (st_splits st) (st_transerrors st)
                 (st_confusion st) (Some acc')
                 (st_samples_error st)) w)
      end
  end.

(** Lines 233-240. *)
Definition provide_labels_map (self : Engine) (dataset : Dataset) : M unit :=
  try_except_pass
    (when (isEnabled self "confusion") (attach_confusion dataset) ;;;
     when (isEnabled self "training_confusion")
       (attach_training_confusion dataset)).

(** [self.__combiner(results)] *)
Definition call_combiner (self : Engine) (rs : list Res) : M Value :=
  fun w => (combiner self rs, with_trace (trace w ++ [EvCombine rs]) w).

(** Lines 126-221: everything up to the end of the loop. *)
Definition run_splits (self : Engine) (dataset : Dataset) : M Locals :=
  mother <- gets self_transerror ;;
  c <- gets (fun w => clf (heap w mother)) ;;
  let terr_enable := terr_enable_of self in
  let clf_hastestdataset := bool_decide (is_Some (testdataset c)) in
  charge_states self dataset c ;;;
  when (negb (bool_decide (length terr_enable = 0)))
    (_changeTemporarily mother terr_enable) ;;;
  when (isEnabled self "transerrors") (untrain mother) ;;;
  for_splits self mother clf_hastestdataset (mkLocals [] None)
    (splitter self dataset).

(** Line 224: [self.__transerror = transerror]; the local is unbound when
    the loop body never ran. *)
Definition bind_last_used (lc : Locals) : M nat :=
  match transerror lc with
  | None => raise UnboundLocalError
  | Some te => modify (with_self_transerror te) ;;; ret te
  end.

(** Lines 223-242: from the end of the loop to the return. *)
Definition finish (self : Engine) (dataset : Dataset) (lc : Locals) : M Value :=
  te <- bind_last_used lc ;;
  when (negb (bool_decide (length (terr_enable_of self) = 0)))
    (_resetEnabledTemporarily te) ;;;
  store_results self (results lc) ;;;
  provide_labels_map self dataset ;;;
  call_combiner self (results lc).

(** [CrossValidatedTransferError._call(self, dataset)] *)
Definition _call (self : Engine) (dataset : Dataset) : M Value :=
  lc <- run_splits self dataset ;;
  finish self dataset lc.

End Model.

Arguments Split {D}.
Arguments Classifier {D}.
Arguments TransferError {D}.
Arguments TEOut {D}.
Arguments Collaborators {D}.
Arguments Engine {D}.
Arguments States {D}.
Arguments Event {D}.
Arguments World {D}.
Arguments Locals {D}.
Arguments M {D} A.

Notation "x <- m ;; k" := (bind m (fun x => k))
  (at level 100, m at next level, right associativity).
Notation "m ;;; k" := (bind m (fun _ => k))
  (at level 100, right associativity).

(** ** The vocabulary of the properties *)

Section Vocabulary.
Context {D : Domain} {C : Collaborators}.
Implicit Types (w : World) (self : Engine) (split : Split) (lc : Locals).

(** A step preserves [R] when [R] relates the store it starts from to the
    store it ends in, whatever the outcome. *)
Definition preserves (R : World -> World -> Prop) {A} (m : M A) : Prop :=
  forall w, R w (snd (m w)).

(** The enablement of a TransferError: what is enabled now and what
    [_changeTemporarily] has saved. *)
Definition enablement (te : TransferError) : list string * list (list string) :=
  (te_enabled te, te_stored te).

(** The [testdataset] attribute of the classifier held by [r]. *)
Definition slot (w : World) (r : nat) : option (option Dataset) :=
  testdataset (clf (heap w r)).

(** Steps that only touch what the engine itself owns (the values of its
    states, the harvest). *)
Definition engine_only (w w' : World) : Prop :=
  heap w' = heap w /\ next_ref w' = next_ref w /\
  self_transerror w' = self_transerror w /\ trace w' = trace w.

(** Steps that leave the values of the engine's states alone. *)
Definition same_states (w w' : World) : Prop :=
  self_states w' = self_states w.

(** The keys of the [samples_error] dictionary stay what they are. *)
Definition same_keys (w w' : World) : Prop :=
  dom <$> st_samples_error (self_states w') =
  dom <$> st_samples_error (self_states w).

(** No TransferError changes its enablement, none is created, and the
    engine keeps its TransferError. *)
Definition same_enablement (w w' : World) : Prop :=
  self_transerror w' = self_transerror w /\
  next_ref w' = next_ref w /\
  forall r, enablement (heap w' r) = enablement (heap w r).

(** No classifier has its [testdataset] attribute rebound. *)
Definition same_slots (w w' : World) : Prop :=
  forall r, slot w' r = slot w r.

(** Nothing is evaluated or combined. *)
Definition same_trace (w w' : World) : Prop := trace w' = trace w.

(** The flag read at lines 170-175 is true exactly for a split whose first
    present partition carries a true marker. *)
Definition marked_last (split : Split) : Prop :=
  exists ds, first_present split = Some ds /\ dsattr_lastsplit ds = Some true.

(** The instance [r] is a legitimate evaluator of [split]: the mother
    instance (with [transerrors] enabled, only for a split marked last), or
    an object created between [lo] and [hi] for a split that is not marked
    last while [transerrors] is enabled. *)
Definition evaluator_ok self (mother lo hi : nat) split (r : nat) : Prop :=
  (r = mother /\ (isEnabled self "transerrors" = true -> marked_last split)) \/
  ((lo <= r < hi)%nat /\ isEnabled self "transerrors" = true /\
   ~ marked_last split).

(** The evaluation events of a run of the loop: one per split, by the
    instance and with the result journalled in [evs]. *)
Definition eval_events (l : list Split) (evs : list (nat * Res)) : list Event :=
  zip_with (fun split x => EvEval (fst x) (snd split) (fst split) (Ok (snd x)))
    l evs.

(** [len(terr_enable)] is not zero: the engine has at least one of
    [confusion], [training_confusion], [samples_error] enabled. *)
Definition overrides (self : Engine) : bool :=
  negb (bool_decide (length (terr_enable_of self) = 0%nat)).

(** The store in which the loop starts (lines 126-158 done). *)
Definition loop_start self (dataset : Dataset) w : World :=
  snd ((charge_states self dataset (clf (heap w (self_transerror w))) ;;;
        when (overrides self)
          (_changeTemporarily (self_transerror w) (terr_enable_of self)) ;;;
        when (isEnabled self "transerrors") (untrain (self_transerror w))) w).

(** The engine keeps its TransferError, and that object its enablement. *)
Definition mother_kept (w w' : World) : Prop :=
  self_transerror w' = self_transerror w /\
  enablement (heap w' (self_transerror w)) =
  enablement (heap w (self_transerror w)).

(** The trace only grows. *)
Definition trace_grows (w w' : World) : Prop :=
  exists evs, trace w' = trace w ++ evs.

(** The error values, and what an evaluation or an untraining does to the
    internals, do not depend on which states of the TransferError are
    enabled nor on the values those states hold. *)
Definition insensitive : Prop :=
  (forall te te' test train,
      clf te = clf te' -> te_internal te = te_internal te' ->
      out_result (terr_fx te test train) = out_result (terr_fx te' test train) /\
      out_internal (terr_fx te test train) = out_internal (terr_fx te' test train) /\
      out_model (terr_fx te test train) = out_model (terr_fx te' test train)) /\
  (forall te te',
      clf te = clf te' -> te_internal te = te_internal te' ->
      untrain_fx te = untrain_fx te').

(** Two engines that may differ in every diagnostic but [transerrors]. *)
Definition same_but_diagnostics self self' : Prop :=
  splitter self = splitter self' /\
  combiner self = combiner self' /\
  expose_testdataset self = expose_testdataset self' /\
  isEnabled self "transerrors" = isEnabled self' "transerrors".

(** Two stores with the same objects, up to the states of the
    TransferErrors and of the engine. *)
Definition akin (w1 w2 : World) : Prop :=
  next_ref w1 = next_ref w2 /\
  self_transerror w1 = self_transerror w2 /\
  trace w1 = trace w2 /\
  forall r, clf (heap w1 r) = clf (heap w2 r) /\
            te_internal (heap w1 r) = te_internal (heap w2 r).

(** A step that changes nothing of what [akin] compares. *)
Definition core_same (w w' : World) : Prop :=
  next_ref w' = next_ref w /\
  self_transerror w' = self_transerror w /\
  trace w' = trace w /\
  forall r, clf (heap w' r) = clf (heap w r) /\
            te_internal (heap w' r) = te_internal (heap w r).

(** Two steps that go along: started in akin stores, if both return they
    return the same and end in akin stores. *)
Definition sim {A} (m1 m2 : M A) : Prop :=
  forall w1 w2 a1 w1' a2 w2',
    akin w1 w2 -> m1 w1 = (Ok a1, w1') -> m2 w2 = (Ok a2, w2') ->
    a1 = a2 /\ akin w1' w2'.

(** The engine with [expose_testdataset] set to [b]. *)
Definition with_expose (b : bool) self : Engine :=
  mkEngine (splitter self) (combiner self) b (enabled self).

(** The value that [f] reads off the engine's states is what it was. *)
Definition same_on {A} (f : States -> A) (w w' : World) : Prop :=
  f (self_states w') = f (self_states w).

(** No state that is disabled on the engine has changed its value. *)
Definition untouched self (w w' : World) : Prop :=
  (isEnabled self "results" = false -> same_on st_results w w') /\
  (isEnabled self "splits" = false -> same_on st_splits w w') /\
  (isEnabled self "transerrors" = false -> same_on st_transerrors w w') /\
  (isEnabled self "confusion" = false -> same_on st_confusion w w') /\
  (isEnabled self "training_confusion" = false ->
   same_on st_training_confusion w w') /\
  (isEnabled self "samples_error" = false -> same_on st_samples_error w w').

(** What Harvestable has collected is what it was. *)
Definition same_harvested (w w' : World) : Prop := harvested w' = harvested w.

(** No object is created and the engine keeps its TransferError. *)
Definition same_refs (w w' : World) : Prop :=
  next_ref w' = next_ref w /\ self_transerror w' = self_transerror w.

(** The claims' words, written on the split itself (the pair of the
    training and the testing partition, in the order the loop of line 171
    visits them) and not through [first_present]: the first partition of
    the split that is not absent carries a true 'last fold' marker. *)
Definition first_present_partition_is_marked (split : Split) : Prop :=
  match split with
  | (Some training, _) => dsattr_lastsplit training = Some true
  | (None, Some testing) => dsattr_lastsplit testing = Some true
  | (None, None) => False
  end.

(** The same as a boolean. *)
Definition is_marked_last (split : Split) : bool :=
  match split with
  | (Some training, _) =>
      match dsattr_lastsplit training with
      | Some true => true
      | _ => false
      end
  | (None, Some testing) =>
      match dsattr_lastsplit testing with
      | Some true => true
      | _ => false
      end
  | (None, None) => false
  end.

(** The instances that evaluate the splits [l] while [transerrors] is
    enabled, [n] being the first unused reference: the engine's own for a
    split marked last, a new object for any other. *)
Fixpoint evaluators (mother n : nat) (l : list Split) : list nat :=
  match l with
  | [] => []
  | s :: l' =>
      if is_marked_last s then mother :: evaluators mother n l'
      else n :: evaluators mother (S n) l'
  end.

(** How many of the splits [l] are not marked last. *)
Definition copies_needed (l : list Split) : nat :=
  length (List.filter (fun s => negb (is_marked_last s)) l).

(** The loop, split by split: [fold_by_fold self cr h f lc w l vs w'] when
    the splits [l] are processed to their end one after the other, from the
    store [w] to the store [w'], and [vs] lists, split by split, the value
    that [f] reads off the instance that evaluated the split (the one bound
    to the local [transerror]) in the store in which the processing of that
    split ends. *)
Inductive fold_by_fold self (cr : nat) (h : bool)
    (f : TransferError -> option Summary) :
    Locals -> World -> list Split -> list Summary -> World -> Prop :=
| fold_by_fold_nil lc w : fold_by_fold self cr h f lc w [] [] w
| fold_by_fold_cons lc w split l lc1 w1 te v vs w' :
    process_split self cr h lc split w = (Ok lc1, w1) ->
    transerror lc1 = Some te ->
    f (heap w1 te) = Some v ->
    fold_by_fold self cr h f lc1 w1 l vs w' ->
    fold_by_fold self cr h f lc w (split :: l) (v :: vs) w'.

End Vocabulary.

(** ** A small concrete world

    Datasets carry a tag; the classifier remembers the tag of the dataset it
    was trained on last; the error of a fold is the distance between that
    tag and the tag of the testing partition (a fixed chance level while
    untrained); evaluating without a testing partition, or against one
    with a negative tag, fails. *)
Module Toy.
Local Open Scope Z_scope.

Record dataset := mkDataset {
  ds_tag : Z;
  ds_origids : list Z;
  ds_labels_map : option nat;
  ds_lastsplit : option bool;
}.

#[global] Instance domain : Domain := {|
  Dataset := dataset;
  LabelsMap := nat;
  Res := Z;
  Err := Z;
  Value := Z;
  Summary := list Z * option nat;
  TS := nat;
  CS := option Z;
  Harvest := list Z;
  origids := ds_origids;
  labels_map := ds_labels_map;
  dsattr_lastsplit := ds_lastsplit;
|}.

Definition chance : Z := 50.

Definition trained_on (te : TransferError) (train : option dataset) : option Z :=
  match train with
  | Some d => Some (ds_tag d)
  | None => clf_model (clf te)
  end.

Definition error_of (model : option Z) (test : dataset) : Z :=
  match model with
  | Some t => Z.abs (t - ds_tag test)
  | None => chance
  end.

Definition has (name : string) (te : TransferError) : bool :=
  bool_decide (name ∈ te_enabled te).

Definition evaluate (te : TransferError) (test train : option dataset) : TEOut :=
  let model := trained_on te train in
  match test with
  | None =>
      mkTEOut (Raise (CollaboratorError 1%nat)) (S (te_internal te)) model
        (te_confusion te) (te_training_confusion te) (te_samples_error te)
  | Some t =>
      let e := error_of model t in
      mkTEOut (if bool_decide (ds_tag t < 0) then Raise (CollaboratorError 2%nat)
               else Ok e)
        (S (te_internal te)) model
        (if has "confusion" te then Some ([e], None) else te_confusion te)
        (if has "training_confusion" te
         then match train with
              | Some d => Some ([ds_tag d], None)
              | None => te_training_confusion te
              end
         else te_training_confusion te)
        (if has "samples_error" te
         then Some ((fun id => (id, e)) <$> ds_origids t)
         else te_samples_error te)
  end.

#[global] Instance collaborators : Collaborators := {|
  terr_fx := evaluate;
  untrain_fx := fun te => (te_internal te, None);
  summaryClass := fun _ => ([], None);
  summary_iadd := fun a b => (fst a ++ fst b, snd a);
  set_labels_map := fun a lm => Ok (fst a, Some lm);
  harvest_fx := fun h _ _ r _ => h ++ [r];
|}.

(** The combiner of the example: the sum of the per-fold errors. *)
Definition total (rs : list Z) : Outcome Z := Ok (foldr Z.add 0 rs).

Definition ds (tag : Z) (ids : list Z) (last : bool) : dataset :=
  mkDataset tag ids (Some 7%nat) (Some last).

Definition whole : dataset := ds 0 [1; 2; 3; 4] false.

(** Two folds; only the first trains, the second is marked last. *)
Definition two_folds (_ : dataset) : list Split :=
  [ (Some (ds 10 [1; 2] false), Some (ds 13 [3; 4] false));
    (None, Some (ds 14 [1; 2] true)) ].

(** A fold whose evaluation raises. *)
Definition failing_fold (_ : dataset) : list Split :=
  [ (Some (ds 10 [1; 2] true), Some (ds (-1) [3; 4] true)) ].

Definition no_folds (_ : dataset) : list Split := [].

Definition engine (sp : dataset -> list Split) (expose : bool)
    (en : list string) : Engine :=
  mkEngine sp total expose en.

(** A TransferError whose classifier has a [testdataset] attribute (or
    not), nothing enabled, untrained. *)
Definition fresh_te (slot : bool) : TransferError :=
  mkTransferError (mkClassifier (if slot then Some None else None) None)
    [] [] None None None 0%nat.

Definition world0 (slot : bool) : World :=
  mkWorld (fun _ => fresh_te slot) 1%nat 0%nat
    (mkStates None None None None None None) [] [].

(** One fold that only tests, marked last, as for a classifier the caller
    has trained beforehand. *)
Definition test_only (_ : dataset) : list Split :=
  [ (None, Some (ds 14 [1; 2] true)) ].

(** The store of a caller who has trained the classifier on a dataset
    tagged 10. *)
Definition pretrained : World :=
  mkWorld (fun _ => mkTransferError (mkClassifier None (Some 10))
                      [] [] None None None 0%nat)
    1%nat 0%nat (mkStates None None None None None None) [] [].

(** Two folds of which the splitter marks the first as the last one. *)
Definition marked_first (_ : dataset) : list Split :=
  [ (Some (ds 10 [1; 2] true), Some (ds 13 [3; 4] true));
    (Some (ds 11 [3; 4] false), Some (ds 14 [1; 2] false)) ].

(** One fold whose training partition carries no [lastsplit] marker. *)
Definition unmarked_fold (_ : dataset) : list Split :=
  [ (Some (mkDataset 10 [1; 2] (Some 7%nat) None), Some (ds 13 [3; 4] true)) ].

(** A dataset without a label map. *)
Definition unlabelled : dataset := mkDataset 0 [1; 2; 3; 4] None (Some false).

(** Collaborators whose summaries refuse a second label map. *)
Definition strict_collaborators : Collaborators := {|
  terr_fx := evaluate;
  untrain_fx := fun te => (te_internal te, None);
  summaryClass := fun _ => ([], None);
  summary_iadd := fun a b => (fst a ++ fst b, snd a);
  set_labels_map := fun a lm =>
    match snd a with
    | Some _ => Raise AttributeError
    | None => Ok (fst a, Some lm)
    end;
  harvest_fx := fun h _ _ r _ => h ++ [r];
|}.

(** A store in which the engine's [confusion] and [training_confusion]
    hold the given summaries. *)
Definition with_confusions (acc tacc : list Z * option nat) : World :=
  mkWorld (fun _ => fresh_te true) 1%nat 0%nat
    (mkStates None None None (Some acc) (Some tacc) None) [] [].

(** A store in which the engine's [samples_error] is the dictionary [m]
    and the TransferError has the per-sample errors [items]. *)
Definition with_dict (m : gmap Z (list Z)) (items : list (Z * Z)) : World :=
  mkWorld (fun _ => mkTransferError (mkClassifier None None)
                      [] [] None None (Some items) 0%nat)
    1%nat 0%nat (mkStates None None None None None (Some m)) [] [].

End Toy.
(** ** Reasoning about monadic steps *)

Section Steps.
Context {D : Domain} {C : Collaborators}.
Implicit Types (w : World) (self : Engine) (split : Split) (lc : Locals).

Lemma bind_Ok {A B} (m : M A) (k : A -> M B) w a w1 :
  m w = (Ok a, w1) -> (x <- m ;; k x) w = k a w1.
Proof. intros E. unfold bind. now rewrite E. Qed.

Lemma bind_Raise {A B} (m : M A) (k : A -> M B) w e w1 :
  m w = (Raise e, w1) -> (x <- m ;; k x) w = (Raise e, w1).
Proof. intros E. unfold bind. now rewrite E. Qed.

Lemma bind_Ok_inv {A B} (m : M A) (k : A -> M B) w b w' :
  (x <- m ;; k x) w = (Ok b, w') ->
  exists a w1, m w = (Ok a, w1) /\ k a w1 = (Ok b, w').
Proof.
  unfold bind. destruct (m w) as [[a|e] w1]; intros E.
  - eauto.
  - discriminate.
Qed.

Lemma bind_inv {A B} (m : M A) (k : A -> M B) w o w' :
  (x <- m ;; k x) w = (o, w') ->
  (exists a w1, m w = (Ok a, w1) /\ k a w1 = (o, w')) \/
  (exists e, m w = (Raise e, w') /\ o = Raise e).
Proof.
  unfold bind. destruct (m w) as [[a|e] w1]; intros E.
  - left. eauto.
  - right. inversion E. eauto.
Qed.

Section Preservation.
Context (R : World -> World -> Prop) `{!PreOrder R}.

Lemma preserves_ret {A} (a : A) : preserves R (ret a).
Proof. intros w. simpl. reflexivity. Qed.

Lemma preserves_raise {A} e : preserves R (@raise D A e).
Proof. intros w. simpl. reflexivity. Qed.

Lemma preserves_gets {A} (f : World -> A) : preserves R (gets f).
Proof. intros w. simpl. reflexivity. Qed.

Lemma preserves_bind {A B} (m : M A) (k : A -> M B) :
  preserves R m -> (forall a, preserves R (k a)) -> preserves R (x <- m ;; k x).
Proof.
  intros Hm Hk w. unfold bind. specialize (Hm w).
  destruct (m w) as [[a|e] w1]; simpl in *.
  - etransitivity; [exact Hm | apply Hk].
  - exact Hm.
Qed.

Lemma preserves_when (c : bool) (body : M unit) :
  preserves R body -> preserves R (when c body).
Proof. destruct c; simpl; auto using preserves_ret. Qed.

Lemma preserves_modify (f : World -> World) :
  (forall w, R w (f w)) -> preserves R (modify f).
Proof. intros H w. apply H. Qed.

Lemma preserves_read {A} (f : World -> option A) :
  preserves R (fun w => read_state (f w) w).
Proof. intros w. destruct (f w); simpl; reflexivity. Qed.

Lemma preserves_try (body : M unit) :
  preserves R body -> preserves R (try_except_pass body).
Proof.
  intros H w. specialize (H w). unfold try_except_pass.
  now destruct (body w).
Qed.

Lemma preserves_for_each {A} (body : A -> M unit) (l : list A) :
  (forall a, preserves R (body a)) -> preserves R (for_each body l).
Proof.
  intros H. induction l as [|a l IH]; simpl.
  - apply preserves_ret.
  - apply preserves_bind; auto.
Qed.

Lemma preserves_for_splits self cr h (l : list Split) :
  (forall lc split, preserves R (process_split self cr h lc split)) ->
  forall lc, preserves R (for_splits self cr h lc l).
Proof.
  intros H. induction l as [|s l IH]; intros lc; simpl.
  - apply preserves_ret.
  - apply preserves_bind; auto.
Qed.

End Preservation.

Lemma preserves_result (R : World -> World -> Prop) {A} (m : M A) w o w' :
  preserves R m -> m w = (o, w') -> R w w'.
Proof. intros H E. specialize (H w). now rewrite E in H. Qed.

End Steps.

(** ** What the steps leave alone *)

Section Frames.
Context {D : Domain} {C : Collaborators}.
Implicit Types (w : World) (self : Engine) (split : Split) (lc : Locals).

#[global] Instance engine_only_preorder : PreOrder engine_only.
Proof.
  split.
  - intros w. repeat split.
  - intros w1 w2 w3 (?&?&?&?) (?&?&?&?). repeat split; congruence.
Qed.

#[global] Instance same_states_preorder : PreOrder same_states.
Proof. split; unfold same_states; [intros w | intros w1 w2 w3]; congruence. Qed.

#[global] Instance same_keys_preorder : PreOrder same_keys.
Proof. split; unfold same_keys; [intros w | intros w1 w2 w3]; congruence. Qed.

#[global] Instance same_enablement_preorder : PreOrder same_enablement.
Proof.
  split.
  - intros w. repeat split; auto.
  - intros w1 w2 w3 (?&?&H1) (?&?&H2). repeat split; [congruence..|].
    intros r. rewrite H2. apply H1.
Qed.

#[global] Instance same_slots_preorder : PreOrder same_slots.
Proof.
  split; unfold same_slots; [intros w | intros w1 w2 w3 H1 H2 r]; auto.
  rewrite H2. apply H1.
Qed.

#[global] Instance same_trace_preorder : PreOrder same_trace.
Proof. split; unfold same_trace; [intros w | intros w1 w2 w3]; congruence. Qed.

Lemma preserves_weaken (R R' : World -> World -> Prop) {A} (m : M A) :
  (forall w w', R w w' -> R' w w') -> preserves R m -> preserves R' m.
Proof. intros H Hm w. apply H, Hm. Qed.

Lemma engine_only_enablement w w' : engine_only w w' -> same_enablement w w'.
Proof.
  intros (Hh&Hn&Hs&_). repeat split; [exact Hs|exact Hn|].
  intros r. now rewrite Hh.
Qed.

Lemma engine_only_slots w w' : engine_only w w' -> same_slots w w'.
Proof. intros (Hh&_) r. unfold slot. now rewrite Hh. Qed.

Lemma engine_only_trace w w' : engine_only w w' -> same_trace w w'.
Proof. now intros (_&_&_&Ht). Qed.

Lemma same_states_keys w w' : same_states w w' -> same_keys w w'.
Proof. unfold same_states, same_keys. now intros ->. Qed.

(** *** Steps on the engine's own states *)

Ltac engine_step :=
  repeat lazymatch goal with
  | |- preserves _ (bind _ _) => apply preserves_bind; [typeclasses eauto | | intros ?]
  | |- preserves _ (when _ _) => apply preserves_when; [typeclasses eauto |]
  | |- preserves _ (try_except_pass _) => apply preserves_try
  | |- preserves _ (for_each _ _) =>
      apply preserves_for_each; [typeclasses eauto | intros ?]
  | |- preserves _ (fun w => read_state _ w) =>
      apply preserves_read; typeclasses eauto
  | |- preserves _ (ret _) => apply preserves_ret; typeclasses eauto
  | |- preserves _ (raise _) => apply preserves_raise; typeclasses eauto
  | |- preserves _ (gets _) => apply preserves_gets; typeclasses eauto
  | |- preserves _ (modify _) =>
      apply preserves_modify; intros ?; repeat split
  end.

Lemma append_split_engine_only split : preserves engine_only (append_split split).
Proof. unfold append_split. engine_step. Qed.

Lemma append_transerror_engine_only r : preserves engine_only (append_transerror r).
Proof. unfold append_transerror. engine_step. Qed.

Lemma append_sample_error_engine_only kv :
  preserves engine_only (append_sample_error kv).
Proof.
  unfold append_sample_error. engine_step.
  destruct (_ !! _); unfold put_samples_error; engine_step.
Qed.

Lemma pull_samples_error_engine_only r :
  preserves engine_only (pull_samples_error r).
Proof.
  unfold pull_samples_error. engine_step.
  apply append_sample_error_engine_only.
Qed.

Lemma pull_confusion_engine_only r : preserves engine_only (pull_confusion r).
Proof. unfold pull_confusion. engine_step. Qed.

Lemma pull_training_confusion_engine_only r :
  preserves engine_only (pull_training_confusion r).
Proof. unfold pull_training_confusion. engine_step. Qed.

Lemma harvest_engine_only split r res rs :
  preserves engine_only (_harvest split r res rs).
Proof. unfold _harvest. engine_step. Qed.

Lemma store_results_engine_only self rs :
  preserves engine_only (store_results self rs).
Proof. unfold store_results. engine_step. Qed.

Lemma charge_states_engine_only self dataset c :
  preserves engine_only (charge_states self dataset c).
Proof. unfold charge_states. engine_step. Qed.

Lemma attach_confusion_engine_only dataset :
  preserves engine_only (attach_confusion dataset).
Proof.
  unfold attach_confusion. engine_step.
  destruct (labels_map dataset) as [lm|]; [|engine_step].
  destruct (set_labels_map _ lm); engine_step.
Qed.

Lemma attach_training_confusion_engine_only dataset :
  preserves engine_only (attach_training_confusion dataset).
Proof.
  unfold attach_training_confusion. engine_step.
  destruct (labels_map dataset) as [lm|]; [|engine_step].
  destruct (set_labels_map _ lm); engine_step.
Qed.

Lemma provide_labels_map_engine_only self dataset :
  preserves engine_only (provide_labels_map self dataset).
Proof.
  unfold provide_labels_map. engine_step.
  - apply attach_confusion_engine_only.
  - apply attach_training_confusion_engine_only.
Qed.

End Frames.

(** *** Steps on the TransferError objects *)

Section HeapSteps.
Context {D : Domain} {C : Collaborators}.
Implicit Types (w : World) (self : Engine) (split : Split) (lc : Locals).

Lemma store_eq r te h : store r te h r = te.
Proof. unfold store. now destruct (decide (r = r)). Qed.

Lemma store_ne r r' te h : r' <> r -> store r te h r' = h r'.
Proof. unfold store. intros H. now destruct (decide (r' = r)). Qed.

Ltac heap_step :=
  intros ?; simpl;
  unfold same_states, same_enablement, same_slots, same_trace, slot, enablement;
  simpl;
  try (split; [reflexivity|split; [reflexivity|]]);
  try (intros ?; unfold store; destruct (decide _); subst; reflexivity);
  try reflexivity.

(** [clf.testdataset = v] *)
Lemma set_testdataset_states r v : preserves same_states (set_testdataset r v).
Proof. heap_step. Qed.

Lemma set_testdataset_enablement r v :
  preserves same_enablement (set_testdataset r v).
Proof. heap_step. Qed.

Lemma set_testdataset_trace r v : preserves same_trace (set_testdataset r v).
Proof. heap_step. Qed.

Lemma set_testdataset_spec r v w :
  exists w', set_testdataset r v w = (Ok tt, w') /\
    slot w' r = Some v /\
    (forall r', r' <> r -> heap w' r' = heap w r') /\
    next_ref w' = next_ref w /\ self_transerror w' = self_transerror w /\
    trace w' = trace w /\ self_states w' = self_states w.
Proof.
  eexists. split; [reflexivity|]. unfold slot. simpl.
  rewrite store_eq. repeat split; auto.
  intros r' Hne. now rewrite store_ne.
Qed.

(** [transerror(split[1], split[0])] *)
Lemma call_transerror_states r test train :
  preserves same_states (call_transerror r test train).
Proof. heap_step. Qed.

Lemma call_transerror_enablement r test train :
  preserves same_enablement (call_transerror r test train).
Proof. heap_step. Qed.

Lemma call_transerror_slots r test train :
  preserves same_slots (call_transerror r test train).
Proof. heap_step. Qed.

Lemma call_transerror_spec r test train w o w' :
  call_transerror r test train w = (o, w') ->
  trace w' = trace w ++ [EvEval r test train o] /\
  (forall r', r' <> r -> heap w' r' = heap w r') /\
  next_ref w' = next_ref w /\ self_transerror w' = self_transerror w /\
  self_states w' = self_states w.
Proof.
  unfold call_transerror. intros E. inversion E; subst; clear E. simpl.
  repeat split; auto. intros r' Hne. now rewrite store_ne.
Qed.

(** [self.__transerror.untrain()] *)
Lemma untrain_states r : preserves same_states (untrain r).
Proof. intros w. unfold untrain. simpl. now destruct (untrain_fx _). Qed.

Lemma untrain_enablement r : preserves same_enablement (untrain r).
Proof.
  intros w. unfold untrain. simpl. destruct (untrain_fx _). simpl.
  repeat split. intros r'. unfold enablement, store. simpl.
  now destruct (decide (r' = r)); subst.
Qed.

Lemma untrain_slots r : preserves same_slots (untrain r).
Proof.
  intros w. unfold untrain. simpl. destruct (untrain_fx _). simpl.
  intros r'. unfold slot, store. simpl.
  now destruct (decide (r' = r)); subst.
Qed.

Lemma untrain_trace r : preserves same_trace (untrain r).
Proof. intros w. unfold untrain. simpl. now destruct (untrain_fx _). Qed.

Lemma untrain_refs r w :
  self_transerror (snd (untrain r w)) = self_transerror w /\
  next_ref (snd (untrain r w)) = next_ref w /\
  fst (untrain r w) = Ok tt.
Proof. unfold untrain. simpl. now destruct (untrain_fx _). Qed.

(** [_changeTemporarily] and [_resetEnabledTemporarily] *)
Lemma changeTemporarily_states r names :
  preserves same_states (_changeTemporarily r names).
Proof. heap_step. Qed.

Lemma changeTemporarily_slots r names :
  preserves same_slots (_changeTemporarily r names).
Proof. heap_step. Qed.

Lemma changeTemporarily_trace r names :
  preserves same_trace (_changeTemporarily r names).
Proof. heap_step. Qed.

Lemma resetEnabledTemporarily_states r :
  preserves same_states (_resetEnabledTemporarily r).
Proof.
  intros w. unfold _resetEnabledTemporarily. now destruct (te_stored _).
Qed.

Lemma resetEnabledTemporarily_trace r :
  preserves same_trace (_resetEnabledTemporarily r).
Proof.
  intros w. unfold _resetEnabledTemporarily. now destruct (te_stored _).
Qed.

(** Undoing a [_changeTemporarily]: with [en :: rest] saved, the reset
    returns and leaves [en] enabled and [rest] saved. *)
Lemma resetEnabledTemporarily_spec r w now_enabled en rest :
  enablement (heap w r) = (now_enabled, en :: rest) ->
  exists w', _resetEnabledTemporarily r w = (Ok tt, w') /\
    enablement (heap w' r) = (en, rest) /\
    self_transerror w' = self_transerror w /\
    self_states w' = self_states w /\ trace w' = trace w.
Proof.
  unfold enablement, _resetEnabledTemporarily. intros E.
  inversion E as [[E1 E2]]. rewrite E2.
  eexists. split; [reflexivity|]. simpl. rewrite store_eq. auto.
Qed.

(** [deepcopy(self.__transerror)] *)
Lemma deepcopy_states r : preserves same_states (deepcopy r).
Proof. heap_step. Qed.

Lemma deepcopy_trace r : preserves same_trace (deepcopy r).
Proof. heap_step. Qed.

Lemma read_lastsplit_inv split w b w' :
  read_lastsplit split w = (Ok b, w') ->
  w' = w /\ (b = true <-> marked_last split).
Proof.
  unfold read_lastsplit, marked_last.
  destruct (first_present split) as [ds|] eqn:E; simpl.
  - destruct (dsattr_lastsplit ds) as [b'|] eqn:E'; simpl; [|discriminate].
    intros H. inversion H; subst. split; [reflexivity|]. split.
    + intros ->. eauto.
    + intros (ds' & Hds & Hm). congruence.
  - intros H. inversion H; subst. split; [reflexivity|]. split.
    + discriminate.
    + intros (ds' & Hds & _). discriminate.
Qed.

(** Lines 167-183 on a store where the engine's TransferError exists.  The
    mother instance is selected as it is; otherwise a new object is
    allocated whose content is the mother's. *)
Lemma select_transerror_spec self split w te w1 :
  select_transerror self split w = (Ok te, w1) ->
  (te = self_transerror w /\ w1 = w /\
   (isEnabled self "transerrors" = true -> marked_last split)) \/
  (te = next_ref w /\ isEnabled self "transerrors" = true /\
   ~ marked_last split /\
   w1 = with_next_ref (S (next_ref w))
          (with_heap (store (next_ref w) (heap w (self_transerror w)) (heap w)) w)).
Proof.
  unfold select_transerror.
  destruct (isEnabled self "transerrors") eqn:En.
  - intros H. apply bind_Ok_inv in H as (b & w0 & Hb & H).
    apply read_lastsplit_inv in Hb as [-> Hb].
    destruct b.
    + inversion H; subst. left. repeat split; auto. intros _. now apply Hb.
    + right. unfold bind, gets, deepcopy in H. inversion H; subst.
      repeat split; auto. intros Hm. apply Hb in Hm. discriminate.
  - intros H. inversion H; subst. left. repeat split; auto. discriminate.
Qed.

Lemma select_transerror_states self split :
  preserves same_states (select_transerror self split).
Proof.
  intros w. unfold select_transerror, read_lastsplit, bind.
  destruct (isEnabled self "transerrors"); [|reflexivity].
  destruct (first_present split) as [ds|]; simpl.
  - destruct (dsattr_lastsplit ds) as [[]|]; reflexivity.
  - reflexivity.
Qed.

Lemma select_transerror_trace self split :
  preserves same_trace (select_transerror self split).
Proof.
  intros w. unfold select_transerror, read_lastsplit, bind.
  destruct (isEnabled self "transerrors"); [|reflexivity].
  destruct (first_present split) as [ds|]; simpl.
  - destruct (dsattr_lastsplit ds) as [[]|]; reflexivity.
  - reflexivity.
Qed.

End HeapSteps.

(** *** The keys of [samples_error] *)

Section Keys.
Context {D : Domain} {C : Collaborators}.
Implicit Types (w : World) (self : Engine) (split : Split) (lc : Locals).

Ltac keys_step :=
  intros ?; unfold same_keys, bind, read_state, modify, raise, ret; simpl;
  repeat (match goal with
          | |- context [match ?x with Some _ => _ | None => _ end] =>
              destruct x
          | |- context [match ?x with Ok _ => _ | Raise _ => _ end] =>
              destruct x
          end; simpl);
  reflexivity.

Lemma append_split_keys split : preserves same_keys (append_split split).
Proof. unfold append_split. keys_step. Qed.

Lemma append_transerror_keys r : preserves same_keys (append_transerror r).
Proof. unfold append_transerror. keys_step. Qed.

Lemma pull_confusion_keys r : preserves same_keys (pull_confusion r).
Proof. unfold pull_confusion. keys_step. Qed.

Lemma pull_training_confusion_keys r :
  preserves same_keys (pull_training_confusion r).
Proof. unfold pull_training_confusion. keys_step. Qed.

Lemma harvest_keys split r res rs : preserves same_keys (_harvest split r res rs).
Proof. unfold _harvest. keys_step. Qed.

Lemma store_results_keys self rs : preserves same_keys (store_results self rs).
Proof. unfold store_results. keys_step. Qed.

Lemma attach_confusion_keys dataset : preserves same_keys (attach_confusion dataset).
Proof. unfold attach_confusion. keys_step. Qed.

Lemma attach_training_confusion_keys dataset :
  preserves same_keys (attach_training_confusion dataset).
Proof. unfold attach_training_confusion. keys_step. Qed.

(** Line 210 appends to the sequence of a key that is there, or raises:
    no key appears and none disappears. *)
Lemma append_sample_error_keys kv : preserves same_keys (append_sample_error kv).
Proof.
  intros w. unfold append_sample_error, bind, read_state, same_keys.
  destruct (st_samples_error (self_states w)) as [m|] eqn:E; simpl.
  - destruct (m !! kv.1) as [l|] eqn:El; simpl.
    + f_equal. apply dom_insert_lookup_L. eauto.
    + now rewrite E.
  - now rewrite E.
Qed.

Lemma pull_samples_error_keys r : preserves same_keys (pull_samples_error r).
Proof.
  unfold pull_samples_error. apply preserves_bind; [typeclasses eauto| |].
  - apply preserves_read. typeclasses eauto.
  - intros items. apply preserves_for_each; [typeclasses eauto|].
    apply append_sample_error_keys.
Qed.

End Keys.

(** ** The loop over the splits *)

Create HintDb frames.

#[global] Hint Resolve
  append_split_engine_only append_transerror_engine_only
  pull_samples_error_engine_only pull_confusion_engine_only
  pull_training_confusion_engine_only harvest_engine_only
  store_results_engine_only charge_states_engine_only
  provide_labels_map_engine_only
  set_testdataset_states set_testdataset_enablement set_testdataset_trace
  call_transerror_states call_transerror_enablement call_transerror_slots
  untrain_states untrain_enablement untrain_slots untrain_trace
  changeTemporarily_states changeTemporarily_slots changeTemporarily_trace
  resetEnabledTemporarily_states resetEnabledTemporarily_trace
  deepcopy_states deepcopy_trace
  select_transerror_states select_transerror_trace
  append_split_keys append_transerror_keys pull_confusion_keys
  pull_training_confusion_keys harvest_keys store_results_keys
  attach_confusion_keys attach_training_confusion_keys
  pull_samples_error_keys : frames.

#[global] Hint Extern 5 (preserves same_enablement _) =>
  (eapply preserves_weaken; [apply @engine_only_enablement|]) : frames.
#[global] Hint Extern 5 (preserves same_slots _) =>
  (eapply preserves_weaken; [apply @engine_only_slots|]) : frames.
#[global] Hint Extern 5 (preserves same_trace _) =>
  (eapply preserves_weaken; [apply @engine_only_trace|]) : frames.
#[global] Hint Extern 5 (preserves same_keys _) =>
  (eapply preserves_weaken; [apply @same_states_keys|]) : frames.

(** Take a composed step apart and look its parts up among the frame
    lemmas. *)
Ltac frame :=
  repeat lazymatch goal with
  | |- preserves _ (bind _ _) => apply preserves_bind; [typeclasses eauto | | intros ?]
  | |- preserves _ (when _ _) => apply preserves_when; [typeclasses eauto |]
  | |- preserves _ (try_except_pass _) => apply preserves_try
  | |- preserves _ (ret _) => apply preserves_ret; typeclasses eauto
  | |- preserves _ (raise _) => apply preserves_raise; typeclasses eauto
  | |- preserves _ (gets _) => apply preserves_gets; typeclasses eauto
  | |- preserves _ _ => solve [eauto with frames]
  end.

Section Loop.
Context {D : Domain} {C : Collaborators}.
Implicit Types (w : World) (self : Engine) (split : Split) (lc : Locals).

Lemma before_evaluation_keys self cr h split :
  preserves same_keys (before_evaluation self cr h split).
Proof. unfold before_evaluation. frame. Qed.

Lemma before_evaluation_trace self cr h split :
  preserves same_trace (before_evaluation self cr h split).
Proof. unfold before_evaluation. frame. Qed.

Lemma after_evaluation_keys self cr h lc split te result :
  preserves same_keys (after_evaluation self cr h lc split te result).
Proof. unfold after_evaluation. frame. Qed.

Lemma after_evaluation_trace self cr h lc split te result :
  preserves same_trace (after_evaluation self cr h lc split te result).
Proof. unfold after_evaluation. frame. Qed.

Lemma after_evaluation_enablement self cr h lc split te result :
  preserves same_enablement (after_evaluation self cr h lc split te result).
Proof. unfold after_evaluation. frame. Qed.

Lemma process_split_keys self cr h lc split :
  preserves same_keys (process_split self cr h lc split).
Proof.
  unfold process_split. frame.
  - apply before_evaluation_keys.
  - apply after_evaluation_keys.
Qed.

Lemma for_splits_keys self cr h lc l :
  preserves same_keys (for_splits self cr h lc l).
Proof.
  apply preserves_for_splits; [typeclasses eauto|].
  intros. apply process_split_keys.
Qed.

Lemma provide_labels_map_keys self dataset :
  preserves same_keys (provide_labels_map self dataset).
Proof. unfold provide_labels_map. frame. Qed.

End Loop.

(** ** One split, from its selection to its result *)

Section OneSplit.
Context {D : Domain} {C : Collaborators}.
Implicit Types (w : World) (self : Engine) (split : Split) (lc : Locals).

Lemma before_evaluation_inv self cr h split w te w1 :
  before_evaluation self cr h split w = (Ok te, w1) ->
  exists w0 ws,
    engine_only w w0 /\
    select_transerror self split w0 = (Ok te, ws) /\
    when (h && expose_testdataset self) (set_testdataset cr (snd split)) ws
      = (Ok tt, w1).
Proof.
  unfold before_evaluation. intros H.
  apply bind_Ok_inv in H as ([] & w0 & H0 & H).
  apply bind_Ok_inv in H as (te' & ws & Hs & H).
  apply bind_Ok_inv in H as ([] & w1' & Ht & H).
  inversion H; subst. exists w0, ws. repeat split; auto.
  - eapply (preserves_result engine_only); [|exact H0]. frame.
  - eapply (preserves_result engine_only); [|exact H0]. frame.
  - eapply (preserves_result engine_only); [|exact H0]. frame.
  - eapply (preserves_result engine_only); [|exact H0]. frame.
Qed.

Lemma after_evaluation_Ok self cr h lc split te result w lc' w' :
  after_evaluation self cr h lc split te result w = (Ok lc', w') ->
  lc' = mkLocals (results lc ++ [result]) (Some te).
Proof.
  unfold after_evaluation. intros H.
  repeat (apply bind_Ok_inv in H as ([] & ? & _ & H)).
  now inversion H.
Qed.

(** What a split that is processed to its end has done. *)
Lemma process_split_Ok self cr h lc split w lc' w' :
  process_split self cr h lc split w = (Ok lc', w') ->
  exists te result,
    lc' = mkLocals (results lc ++ [result]) (Some te) /\
    trace w' = trace w ++ [EvEval te (snd split) (fst split) (Ok result)] /\
    self_transerror w' = self_transerror w /\
    enablement (heap w' te) = enablement (heap w (self_transerror w)) /\
    (forall r, r <> te -> enablement (heap w' r) = enablement (heap w r)) /\
    ((te = self_transerror w /\ next_ref w' = next_ref w /\
      (isEnabled self "transerrors" = true -> marked_last split)) \/
     (te = next_ref w /\ next_ref w' = S (next_ref w) /\
      isEnabled self "transerrors" = true /\ ~ marked_last split)).
Proof.
  unfold process_split. intros H.
  apply bind_Ok_inv in H as (te & w1 & Hb & H).
  apply bind_Ok_inv in H as (result & w2 & Hc & Ha).
  exists te, result.
  pose proof (after_evaluation_Ok _ _ _ _ _ _ _ _ _ _ Ha) as ->.
  pose proof (preserves_result _ _ _ _ _
                (after_evaluation_trace self cr h lc split te result) Ha) as Ta.
  pose proof (preserves_result _ _ _ _ _
                (after_evaluation_enablement self cr h lc split te result) Ha)
    as (Sa & Na & Ea).
  pose proof (preserves_result _ _ _ _ _
                (call_transerror_enablement te (snd split) (fst split)) Hc)
    as (Sc & Nc & Ec).
  apply call_transerror_spec in Hc as (Tc & _).
  pose proof (preserves_result _ _ _ _ _
                (before_evaluation_trace self cr h split) Hb) as Tb.
  apply before_evaluation_inv in Hb as (w0 & ws & (Hh0 & Hn0 & Hs0 & _) & Hsel & Hset).
  assert (same_enablement ws w1) as (Ss & Ns & Es).
  { eapply (preserves_result same_enablement); [|exact Hset]. frame. }
  unfold same_trace in *.
  split; [reflexivity|]. split; [congruence|].
  apply select_transerror_spec in Hsel
    as [(-> & -> & Hm) | (-> & En & Hm & ->)].
  - split; [congruence|]. split.
    { rewrite Ea, Ec, Es, Hh0. congruence. }
    split.
    { intros r _. rewrite Ea, Ec, Es, Hh0. reflexivity. }
    left. repeat split; auto; congruence.
  - simpl in *. split; [congruence|]. split.
    { rewrite Ea, Ec, Es. simpl. rewrite store_eq, Hh0, Hs0. reflexivity. }
    split.
    { intros r Hr. rewrite Ea, Ec, Es. simpl.
      rewrite store_ne by congruence. now rewrite Hh0. }
    right. repeat split; auto; congruence.
Qed.

Lemma for_splits_app self cr h l1 l2 lc w :
  for_splits self cr h lc (l1 ++ l2) w =
  match for_splits self cr h lc l1 w with
  | (Ok lc', w') => for_splits self cr h lc' l2 w'
  | (Raise e, w') => (Raise e, w')
  end.
Proof.
  revert lc w. induction l1 as [|s l1 IH]; intros lc w; simpl.
  - reflexivity.
  - unfold bind.
    destruct (process_split self cr h lc s w) as [[lc1|e] w1]; [|reflexivity].
    apply IH.
Qed.

End OneSplit.

(** ** The whole loop *)

Section WholeLoop.
Context {D : Domain} {C : Collaborators}.
Implicit Types (w : World) (self : Engine) (split : Split) (lc : Locals).

Lemma evaluator_ok_mono self mother lo hi lo' hi' split r :
  (lo' <= lo)%nat -> (hi <= hi')%nat ->
  evaluator_ok self mother lo hi split r ->
  evaluator_ok self mother lo' hi' split r.
Proof.
  intros Hlo Hhi [H | (Hr & H)]; [left; exact H | right].
  split; [lia | exact H].
Qed.

(** The loop that runs to its end has evaluated every split once, in order,
    and has collected the results in that order. *)
Lemma for_splits_journal self cr h l : forall lc w lc' w',
  for_splits self cr h lc l w = (Ok lc', w') ->
  exists evs : list (nat * Res),
    length evs = length l /\
    results lc' = results lc ++ evs.*2 /\
    transerror lc' = match last evs with
                     | Some x => Some (fst x)
                     | None => transerror lc
                     end /\
    trace w' = trace w ++ eval_events l evs /\
    self_transerror w' = self_transerror w /\
    (next_ref w <= next_ref w')%nat /\
    Forall2 (evaluator_ok self (self_transerror w) (next_ref w) (next_ref w'))
      l evs.*1.
Proof.
  induction l as [|s l IH]; intros lc w lc' w' H; simpl in H.
  - inversion H; subst. exists []. simpl.
    rewrite !app_nil_r. repeat split; auto.
  - apply bind_Ok_inv in H as (lc1 & w1 & Hp & H).
    apply process_split_Ok in Hp
      as (te & result & -> & Tr & Hs & _ & _ & Hsel).
    apply IH in H as (evs & Hlen & Hres & Hte & Htr & Hs' & Hn & Hall).
    simpl in *.
    assert (next_ref w <= next_ref w1)%nat as Hn1
      by (destruct Hsel as [(_ & -> & _) | (_ & -> & _)]; lia).
    exists ((te, result) :: evs). simpl. repeat split.
    + now rewrite Hlen.
    + rewrite Hres, <- app_assoc. reflexivity.
    + rewrite Hte. destruct evs as [|x evs]; [reflexivity|].
      change (last ((te, result) :: x :: evs)) with (last (x :: evs)).
      destruct (last (x :: evs)) eqn:El; [reflexivity|].
      apply last_None in El. discriminate.
    + rewrite Htr, Tr, <- app_assoc. reflexivity.
    + congruence.
    + lia.
    + constructor.
      * destruct Hsel as [(-> & _ & Hm) | (-> & Hn' & En & Hm)].
        -- left. split; auto.
        -- right. repeat split; auto; lia.
      * rewrite Hs in Hall.
        eapply Forall2_impl; [exact Hall|].
        intros split r. apply evaluator_ok_mono; lia.
Qed.

(** After a loop that ran to its end over at least one split, the instance
    used last carries the enablement the mother instance had when the loop
    began. *)
Lemma for_splits_enablement self cr h l : forall lc w lc' w',
  for_splits self cr h lc l w = (Ok lc', w') ->
  l <> [] ->
  self_transerror w' = self_transerror w /\
  enablement (heap w' (self_transerror w)) =
    enablement (heap w (self_transerror w)) /\
  exists te, transerror lc' = Some te /\
    enablement (heap w' te) = enablement (heap w (self_transerror w)).
Proof.
  induction l as [|s l IH]; intros lc w lc' w' H Hne; [congruence|].
  simpl in H. apply bind_Ok_inv in H as (lc1 & w1 & Hp & H).
  apply process_split_Ok in Hp
    as (te & result & -> & _ & Hs & Ete & Eother & _).
  assert (enablement (heap w1 (self_transerror w)) =
          enablement (heap w (self_transerror w))) as Em.
  { destruct (decide (self_transerror w = te)) as [<-|Hd]; [exact Ete|].
    now apply Eother. }
  destruct l as [|s' l].
  - simpl in H. inversion H; subst. repeat split; auto.
    exists te. split; [reflexivity | exact Ete].
  - apply IH in H as (Hs' & Em' & te' & Hte' & Ete'); [|discriminate].
    rewrite Hs in *. repeat split.
    + congruence.
    + congruence.
    + exists te'. split; [exact Hte' | congruence].
Qed.

End WholeLoop.

(** ** Before and after the loop *)

Section AroundTheLoop.
Context {D : Domain} {C : Collaborators}.
Implicit Types (w : World) (self : Engine) (split : Split) (lc : Locals).

Lemma overrides_iff self :
  overrides self = true <->
  isEnabled self "confusion" = true \/
  isEnabled self "training_confusion" = true \/
  isEnabled self "samples_error" = true.
Proof.
  unfold overrides, terr_enable_of. simpl.
  destruct (isEnabled self "confusion"), (isEnabled self "training_confusion"),
    (isEnabled self "samples_error"); simpl; split; intros H; auto;
    try discriminate; destruct H as [H | [H | H]]; discriminate.
Qed.

Lemma run_splits_eq self dataset w :
  run_splits self dataset w =
  for_splits self (self_transerror w)
    (bool_decide (is_Some (slot w (self_transerror w))))
    (mkLocals [] None) (splitter self dataset) (loop_start self dataset w).
Proof.
  unfold run_splits, loop_start, overrides, slot, bind, gets, charge_states.
  simpl.
  destruct (negb (bool_decide (length (terr_enable_of self) = 0%nat)));
    destruct (isEnabled self "transerrors"); reflexivity.
Qed.

Lemma loop_start_refs self dataset w :
  self_transerror (loop_start self dataset w) = self_transerror w /\
  next_ref (loop_start self dataset w) = next_ref w /\
  trace (loop_start self dataset w) = trace w.
Proof.
  unfold loop_start, bind, charge_states, overrides, untrain. simpl.
  destruct (negb (bool_decide (length (terr_enable_of self) = 0%nat)));
    destruct (isEnabled self "transerrors"); simpl;
    try destruct (untrain_fx _); auto.
Qed.

Lemma loop_start_slots self dataset w : same_slots w (loop_start self dataset w).
Proof.
  unfold loop_start.
  match goal with |- same_slots w (snd (?m w)) =>
    assert (preserves same_slots m) as H by frame; apply H end.
Qed.

(** The enablement of the engine's TransferError when the loop starts:
    overridden when the engine has one of the three diagnostics enabled,
    untouched otherwise. *)
Lemma loop_start_enablement self dataset w :
  enablement (heap (loop_start self dataset w) (self_transerror w)) =
  if overrides self
  then (enable_states (terr_enable_of self)
          (te_enabled (heap w (self_transerror w))),
        te_enabled (heap w (self_transerror w))
          :: te_stored (heap w (self_transerror w)))
  else enablement (heap w (self_transerror w)).
Proof.
  unfold loop_start, bind, charge_states, untrain, enablement. simpl.
  destruct (overrides self); destruct (isEnabled self "transerrors"); simpl;
    try destruct (untrain_fx _); simpl; rewrite ?store_eq; reflexivity.
Qed.

(** The [samples_error] dictionary when the loop starts. *)
Lemma loop_start_samples_error self dataset w :
  st_samples_error (self_states (loop_start self dataset w)) =
  assign self "samples_error" (st_samples_error (self_states w))
    (list_to_map ((fun id => (id, [])) <$> origids dataset)).
Proof.
  unfold loop_start, bind, charge_states, untrain. simpl.
  destruct (overrides self); destruct (isEnabled self "transerrors"); simpl;
    try destruct (untrain_fx _); reflexivity.
Qed.

Lemma bind_last_used_states lc : preserves same_states (bind_last_used lc).
Proof. intros w. unfold bind_last_used. now destruct (transerror lc). Qed.

Lemma call_combiner_states self rs : preserves same_states (call_combiner self rs).
Proof. intros w. reflexivity. Qed.

Lemma finish_keys self dataset lc : preserves same_keys (finish self dataset lc).
Proof.
  unfold finish. pose proof (bind_last_used_states lc).
  pose proof (call_combiner_states self (results lc)).
  pose proof (provide_labels_map_keys self dataset).
  frame.
Qed.

(** Lines 233-240 never raise. *)
Lemma provide_labels_map_Ok self dataset w :
  fst (provide_labels_map self dataset w) = Ok tt.
Proof.
  unfold provide_labels_map, try_except_pass.
  match goal with |- context [let (_, _) := ?x in _] => now destruct x end.
Qed.

(** Lines 230-242, after the rebinding and the restoration. *)
Lemma finish_tail self dataset rs w :
  exists w',
    (store_results self rs ;;; provide_labels_map self dataset ;;;
     call_combiner self rs) w = (combiner self rs, w') /\
    heap w' = heap w /\ next_ref w' = next_ref w /\
    self_transerror w' = self_transerror w /\
    trace w' = trace w ++ [EvCombine rs].
Proof.
  unfold bind. simpl.
  pose proof (provide_labels_map_Ok self dataset
    (snd (store_results self rs w))) as Hok.
  pose proof (provide_labels_map_engine_only self dataset
    (snd (store_results self rs w))) as (Hh & Hn & Hs & Ht).
  simpl in *.
  destruct (provide_labels_map self dataset _) as [o w1]. simpl in *.
  subst o. unfold call_combiner. eexists. split; [reflexivity|].
  simpl. rewrite Hh, Hn, Hs, Ht. auto.
Qed.

(** [finish] when nothing was overridden. *)
Lemma finish_plain self dataset lc w te :
  transerror lc = Some te -> overrides self = false ->
  exists w',
    finish self dataset lc w = (combiner self (results lc), w') /\
    heap w' = heap w /\ next_ref w' = next_ref w /\ self_transerror w' = te /\
    trace w' = trace w ++ [EvCombine (results lc)].
Proof.
  intros Hte Hov. unfold finish, bind_last_used. rewrite Hte.
  fold (overrides self). rewrite Hov.
  destruct (finish_tail self dataset (results lc) (with_self_transerror te w))
    as (w' & E & Hh & Hn & Hs & Ht).
  exists w'. split; [|auto].
  unfold bind in *. simpl in *. exact E.
Qed.

(** [finish] when the enablement was overridden and [en :: rest] is what
    the instance used last has saved. *)
Lemma finish_restoring self dataset lc w te now_enabled en rest :
  transerror lc = Some te -> overrides self = true ->
  enablement (heap w te) = (now_enabled, en :: rest) ->
  exists w',
    finish self dataset lc w = (combiner self (results lc), w') /\
    enablement (heap w' te) = (en, rest) /\
    (forall r, slot w' r = slot w r) /\
    next_ref w' = next_ref w /\ self_transerror w' = te /\
    trace w' = trace w ++ [EvCombine (results lc)].
Proof.
  intros Hte Hov En. unfold finish, bind_last_used. rewrite Hte.
  fold (overrides self). rewrite Hov.
  unfold enablement in En. inversion En as [[E1 E2]].
  set (w1 := with_heap (store te
           (mkTransferError (clf (heap w te)) en rest
              (te_confusion (heap w te)) (te_training_confusion (heap w te))
              (te_samples_error (heap w te)) (te_internal (heap w te)))
           (heap w)) (with_self_transerror te w)).
  destruct (finish_tail self dataset (results lc) w1)
    as (w' & E & Hh & Hn & Hs & Ht).
  exists w'. split.
  - unfold bind in *. simpl in *. unfold _resetEnabledTemporarily. simpl.
    rewrite E2. exact E.
  - unfold slot. rewrite Hh, Hn, Hs, Ht. subst w1. simpl. rewrite store_eq.
    repeat split; auto. intros r. unfold store.
    now destruct (decide (r = te)); subst.
Qed.

End AroundTheLoop.

(** ** The run as a whole *)

Section Run.
Context {D : Domain} {C : Collaborators}.
Implicit Types (w : World) (self : Engine) (split : Split) (lc : Locals).

(** A run whose loop ran to its end over at least one split: [_call]
    reaches the combiner and yields its outcome; the engine retains the
    instance used last, with the enablement its TransferError had before
    the run. *)
Lemma call_after_loop self dataset w lc w1 :
  run_splits self dataset w = (Ok lc, w1) ->
  splitter self dataset <> [] ->
  exists te w',
    transerror lc = Some te /\
    _call self dataset w = (combiner self (results lc), w') /\
    self_transerror w' = te /\
    enablement (heap w' te) = enablement (heap w (self_transerror w)) /\
    (forall r, slot w' r = slot w1 r) /\
    next_ref w' = next_ref w1 /\
    trace w' = trace w1 ++ [EvCombine (results lc)].
Proof.
  intros Hrun Hne. unfold _call. rewrite (bind_Ok _ _ _ _ _ Hrun).
  rewrite run_splits_eq in Hrun.
  apply for_splits_enablement in Hrun as (_ & _ & te & Hte & En); [|exact Hne].
  destruct (loop_start_refs self dataset w) as (Hs0 & _ & _).
  rewrite Hs0, loop_start_enablement in En.
  exists te. destruct (overrides self) eqn:Hov.
  - destruct (finish_restoring self dataset lc w1 te _ _ _ Hte Hov En)
      as (w' & E & En' & Hh & Hn & Hs & Ht).
    exists w'. repeat split; auto.
  - destruct (finish_plain self dataset lc w1 te Hte Hov)
      as (w' & E & Hh & Hn & Hs & Ht).
    exists w'. repeat split; auto.
    + now rewrite Hh.
    + intros r. unfold slot. now rewrite Hh.
Qed.

(** A run over no split at all stops at line 224. *)
Lemma call_no_split self dataset w :
  splitter self dataset = [] ->
  _call self dataset w = (Raise UnboundLocalError, loop_start self dataset w).
Proof.
  intros Hnil. unfold _call, bind. rewrite run_splits_eq, Hnil. reflexivity.
Qed.

(** When the loop raises, [_call] ends there. *)
Lemma call_loop_raises self dataset w e w1 :
  run_splits self dataset w = (Raise e, w1) ->
  _call self dataset w = (Raise e, w1).
Proof. intros H. unfold _call. now rewrite (bind_Raise _ _ _ _ _ H). Qed.

End Run.

(** ** What an exception leaves behind *)

Section Exceptional.
Context {D : Domain} {C : Collaborators}.
Implicit Types (w : World) (self : Engine) (split : Split) (lc : Locals).

#[global] Instance mother_kept_preorder : PreOrder mother_kept.
Proof.
  split.
  - intros w. split; reflexivity.
  - intros w1 w2 w3 [S1 E1] [S2 E2]. split; [congruence|].
    rewrite S1 in E2. congruence.
Qed.

Lemma same_enablement_mother w w' : same_enablement w w' -> mother_kept w w'.
Proof. intros (Hs & _ & He). split; [exact Hs | apply He]. Qed.

Lemma select_transerror_mother self split :
  preserves mother_kept (select_transerror self split).
Proof.
  intros w. unfold select_transerror, read_lastsplit, bind.
  destruct (isEnabled self "transerrors"); [|split; reflexivity].
  destruct (first_present split) as [ds|]; simpl.
  - destruct (dsattr_lastsplit ds) as [[]|]; simpl; split; try reflexivity.
    simpl. unfold store.
    now destruct (decide (self_transerror w = next_ref w)).
  - split; [reflexivity|]. simpl. unfold store.
    now destruct (decide (self_transerror w = next_ref w)).
Qed.

Lemma process_split_mother self cr h lc split :
  preserves mother_kept (process_split self cr h lc split).
Proof.
  pose proof (select_transerror_mother self split).
  assert (forall A (m : M A), preserves same_enablement m ->
                              preserves mother_kept m) as Hw
    by (intros A m; apply preserves_weaken, same_enablement_mother).
  unfold process_split, before_evaluation.
  repeat lazymatch goal with
  | |- preserves _ (bind _ _) => apply preserves_bind; [typeclasses eauto | | intros ?]
  | |- preserves _ (ret _) => apply preserves_ret; typeclasses eauto
  | |- preserves mother_kept (select_transerror _ _) => assumption
  | |- preserves mother_kept _ => apply Hw
  end.
  - frame.
  - frame.
  - frame.
  - apply after_evaluation_enablement.
Qed.

Lemma for_splits_mother self cr h lc l :
  preserves mother_kept (for_splits self cr h lc l).
Proof.
  apply preserves_for_splits; [typeclasses eauto|].
  intros. apply process_split_mother.
Qed.

#[global] Instance trace_grows_preorder : PreOrder trace_grows.
Proof.
  split.
  - intros w. exists []. now rewrite app_nil_r.
  - intros w1 w2 w3 [e1 E1] [e2 E2]. exists (e1 ++ e2).
    now rewrite E2, E1, app_assoc.
Qed.

Lemma same_trace_grows w w' : same_trace w w' -> trace_grows w w'.
Proof. intros H. exists []. now rewrite app_nil_r. Qed.

Lemma call_transerror_grows r test train :
  preserves trace_grows (call_transerror r test train).
Proof. intros w. eexists. reflexivity. Qed.

Lemma process_split_grows self cr h lc split :
  preserves trace_grows (process_split self cr h lc split).
Proof.
  pose proof (call_transerror_grows).
  assert (forall A (m : M A), preserves same_trace m ->
                              preserves trace_grows m) as Hw
    by (intros A m; apply preserves_weaken, same_trace_grows).
  unfold process_split.
  repeat lazymatch goal with
  | |- preserves _ (bind _ _) => apply preserves_bind; [typeclasses eauto | | intros ?]
  | |- preserves trace_grows (call_transerror _ _ _) => auto
  | |- preserves trace_grows _ => apply Hw
  end.
  - apply before_evaluation_trace.
  - apply after_evaluation_trace.
Qed.

Lemma for_splits_grows self cr h lc l :
  preserves trace_grows (for_splits self cr h lc l).
Proof.
  apply preserves_for_splits; [typeclasses eauto|].
  intros. apply process_split_grows.
Qed.

(** How a split can end: its evaluation returned; or it raised before its
    evaluation; or its evaluation raised, and then the exception is the
    outcome of the split and, when the test partition was exposed, the
    classifier bound to [clf] still holds it. *)
Lemma process_split_cases self cr h lc split w o w' :
  process_split self cr h lc split w = (o, w') ->
  (exists te result,
      trace w' = trace w ++ [EvEval te (snd split) (fst split) (Ok result)]) \/
  (trace w' = trace w /\ exists e, o = Raise e) \/
  (exists te e,
      trace w' = trace w ++ [EvEval te (snd split) (fst split) (Raise e)] /\
      o = Raise e /\
      (h && expose_testdataset self = true -> slot w' cr = Some (snd split))).
Proof.
  unfold process_split. intros H.
  apply bind_inv in H as [(te & w1 & Hb & H) | (e & Hb & ->)].
  - pose proof (preserves_result _ _ _ _ _
                  (before_evaluation_trace self cr h split) Hb) as Tb.
    apply bind_inv in H as [(result & w2 & Hc & Ha) | (e & Hc & ->)].
    + left. exists te, result.
      pose proof (preserves_result _ _ _ _ _
                    (after_evaluation_trace self cr h lc split te result) Ha)
        as Ta.
      apply call_transerror_spec in Hc as (Tc & _).
      unfold same_trace in *. congruence.
    + right. right. exists te, e.
      pose proof (preserves_result _ _ _ _ _
                    (call_transerror_slots te (snd split) (fst split)) Hc) as Sc.
      apply call_transerror_spec in Hc as (Tc & _).
      unfold same_trace in *. split; [congruence|]. split; [reflexivity|].
      intros Hx. rewrite Sc.
      apply before_evaluation_inv in Hb as (w0 & ws & _ & _ & Hset).
      rewrite Hx in Hset. simpl in Hset.
      destruct (set_testdataset_spec cr (snd split) ws) as (w1' & E & Hslot & _).
      rewrite E in Hset. inversion Hset; subst. exact Hslot.
  - right. left. split; [|eauto].
    exact (preserves_result _ _ _ _ _
             (before_evaluation_trace self cr h split) Hb).
Qed.

Lemma cons_eq_snoc {A} (x : A) tl evs y :
  x :: tl = evs ++ [y] ->
  (tl = [] /\ evs = [] /\ x = y) \/
  (exists evs', evs = x :: evs' /\ tl = evs' ++ [y]).
Proof.
  destruct evs as [|z evs]; simpl; intros H; inversion H; subst.
  - left. auto.
  - right. eauto.
Qed.

(** If the last thing the loop did was an evaluation that raised, the loop
    ended with that exception, the exposed test partition still bound. *)
Lemma for_splits_raising_evaluation self cr h l : forall lc w o w',
  for_splits self cr h lc l w = (o, w') ->
  forall evs r test train e,
    trace w' = trace w ++ evs ++ [EvEval r test train (Raise e)] ->
    o = Raise e /\
    (h && expose_testdataset self = true -> slot w' cr = Some test).
Proof.
  induction l as [|s l IH]; intros lc w o w' H evs r test train e Ht.
  - simpl in H. inversion H; subst.
    rewrite <- (app_nil_r (trace w')) in Ht at 1.
    apply app_inv_head in Ht. destruct evs; discriminate.
  - simpl in H. apply bind_inv in H as [(lc1 & w1 & Hp & H) | (e1 & Hp & ->)].
    + pose proof (preserves_result _ _ _ _ _
                    (for_splits_grows self cr h lc1 l) H) as [tl Htl].
      apply process_split_Ok in Hp as (te & result & _ & Tr & _).
      rewrite Htl, Tr, <- app_assoc in Ht.
      apply app_inv_head in Ht. simpl in Ht.
      apply cons_eq_snoc in Ht as [(_ & _ & Hx) | (evs' & _ & ->)];
        [discriminate|].
      eapply (IH _ _ _ _ H evs'). exact Htl.
    + apply process_split_cases in Hp
        as [(te & result & Tr) | [(Tr & _) | (te & e2 & Tr & He & Hslot)]].
      * rewrite Tr in Ht. apply app_inv_head in Ht.
        apply cons_eq_snoc in Ht as [(_ & _ & Hx) | (evs' & _ & Hx)];
          [discriminate | now destruct evs'].
      * rewrite <- (app_nil_r (trace w)) in Tr. rewrite Tr in Ht.
        apply app_inv_head in Ht. destruct evs; discriminate.
      * rewrite Tr in Ht. apply app_inv_head in Ht.
        apply cons_eq_snoc in Ht as [(_ & _ & Hx) | (evs' & _ & Hx)];
          [|now destruct evs'].
        inversion Hx; subst. inversion He; subst. split; auto.
Qed.

End Exceptional.

(** ** Two engines that differ in their diagnostics *)

Section Toggles.
Context {D : Domain} {C : Collaborators}.
Implicit Types (w : World) (self : Engine) (split : Split) (lc : Locals).

#[global] Instance core_same_preorder : PreOrder core_same.
Proof.
  split.
  - intros w. repeat split.
  - intros w1 w2 w3 (?&?&?&Ha) (?&?&?&Hb). repeat split; try congruence.
    + destruct (Ha r), (Hb r). congruence.
    + destruct (Ha r), (Hb r). congruence.
Qed.

Lemma engine_only_core w w' : engine_only w w' -> core_same w w'.
Proof. intros (Hh&?&?&?). repeat split; auto; now rewrite Hh. Qed.

Lemma akin_core w1 w2 w1' w2' :
  akin w1 w2 -> core_same w1 w1' -> core_same w2 w2' -> akin w1' w2'.
Proof.
  intros (?&?&?&Ha) (?&?&?&Hb) (?&?&?&Hc). repeat split; try congruence.
  - destruct (Ha r), (Hb r), (Hc r). congruence.
  - destruct (Ha r), (Hb r), (Hc r). congruence.
Qed.

Lemma changeTemporarily_core r names :
  preserves core_same (_changeTemporarily r names).
Proof.
  intros w. simpl. repeat split; simpl; unfold store;
    now destruct (decide (r0 = r)) as [->|].
Qed.

Lemma resetEnabledTemporarily_core r :
  preserves core_same (_resetEnabledTemporarily r).
Proof.
  intros w. unfold _resetEnabledTemporarily.
  destruct (te_stored (heap w r)); simpl; repeat split; simpl; unfold store;
    now destruct (decide (r0 = r)) as [->|].
Qed.

Lemma bind_last_used_akin lc w1 w2 te1 w1' te2 w2' :
  akin w1 w2 ->
  bind_last_used lc w1 = (Ok te1, w1') ->
  bind_last_used lc w2 = (Ok te2, w2') ->
  te1 = te2 /\ akin w1' w2'.
Proof.
  unfold bind_last_used. destruct (transerror lc) as [te|]; [|discriminate].
  intros (Hn&Hs&Ht&Hh) E1 E2. inversion E1; inversion E2; subst.
  repeat split; auto; apply Hh.
Qed.

Lemma sim_ret {A} (a : A) : sim (ret a) (ret a).
Proof. intros w1 w2 a1 w1' a2 w2' H E1 E2. inversion E1; inversion E2; subst. auto. Qed.

Lemma sim_bind {A B} (m1 m2 : M A) (k1 k2 : A -> M B) :
  sim m1 m2 -> (forall a, sim (k1 a) (k2 a)) ->
  sim (x <- m1 ;; k1 x) (x <- m2 ;; k2 x).
Proof.
  intros Hm Hk w1 w2 b1 w1' b2 w2' H E1 E2.
  apply bind_Ok_inv in E1 as (a1 & v1 & E1 & K1).
  apply bind_Ok_inv in E2 as (a2 & v2 & E2 & K2).
  destruct (Hm _ _ _ _ _ _ H E1 E2) as [<- H'].
  exact (Hk _ _ _ _ _ _ _ H' K1 K2).
Qed.

Lemma sim_quiet (m1 m2 : M unit) :
  preserves core_same m1 -> preserves core_same m2 -> sim m1 m2.
Proof.
  intros H1 H2 w1 w2 [] w1' [] w2' H E1 E2. split; [reflexivity|].
  eapply akin_core; [exact H | |].
  - exact (preserves_result _ _ _ _ _ H1 E1).
  - exact (preserves_result _ _ _ _ _ H2 E2).
Qed.

Lemma sim_gets {A} (f : World -> A) :
  (forall w1 w2, akin w1 w2 -> f w1 = f w2) -> sim (gets f) (gets f).
Proof.
  intros Hf w1 w2 a1 w1' a2 w2' H E1 E2.
  inversion E1; inversion E2; subst. auto.
Qed.

Lemma sim_when (b : bool) (m1 m2 : M unit) :
  sim m1 m2 -> sim (when b m1) (when b m2).
Proof. destruct b; simpl; auto using sim_ret. Qed.

Lemma sim_set_testdataset r v : sim (set_testdataset r v) (set_testdataset r v).
Proof.
  intros w1 w2 [] w1' [] w2' (Hn&Hs&Ht&Hh) E1 E2.
  inversion E1; inversion E2; subst; clear E1 E2.
  split; [reflexivity|]. repeat split; simpl; auto; unfold store;
    destruct (decide (r0 = r)) as [->|]; simpl; try apply Hh.
  f_equal. destruct (Hh r) as [Hc _]. now rewrite Hc.
Qed.

Lemma sim_deepcopy r : sim (deepcopy r) (deepcopy r).
Proof.
  intros w1 w2 a1 w1' a2 w2' (Hn&Hs&Ht&Hh) E1 E2.
  inversion E1; inversion E2; subst; clear E1 E2.
  split; [exact Hn|]. repeat split; simpl; auto; unfold store; rewrite Hn;
    destruct (decide (r0 = next_ref w2)); apply Hh.
Qed.

Lemma sim_select_transerror self self' split :
  isEnabled self "transerrors" = isEnabled self' "transerrors" ->
  sim (select_transerror self split) (select_transerror self' split).
Proof.
  intros Hen. unfold select_transerror. rewrite <- Hen.
  assert (sim (gets self_transerror) (gets self_transerror)) as Hg
    by (apply sim_gets; now intros w1 w2 (_&?&_)).
  destruct (isEnabled self "transerrors"); [|exact Hg].
  apply sim_bind.
  - intros w1 w2 b1 w1' b2 w2' H E1 E2.
    apply read_lastsplit_inv in E1 as [-> H1].
    apply read_lastsplit_inv in E2 as [-> H2].
    split; [|exact H]. destruct b1, b2; auto.
    + symmetry. apply H2, H1. reflexivity.
    + apply H1, H2. reflexivity.
  - intros []; [exact Hg|].
    apply sim_bind; [exact Hg|]. intros r. apply sim_deepcopy.
Qed.

Section Insensitive.
Hypothesis Hins : insensitive.

Lemma sim_call_transerror r test train :
  sim (call_transerror r test train) (call_transerror r test train).
Proof.
  intros w1 w2 a1 w1' a2 w2' (Hn&Hs&Ht&Hh) E1 E2.
  destruct (Hh r) as [Hc Hi].
  destruct Hins as [He _].
  destruct (He _ _ test train Hc Hi) as (Hres & Hint & Hmod).
  unfold call_transerror in E1, E2.
  inversion E1 as [[R1 W1]]; inversion E2 as [[R2 W2]]; clear E1 E2.
  split; [congruence|].
  repeat split; simpl; auto.
  - now rewrite Ht, Hres.
  - unfold store. destruct (decide (r0 = r)); simpl; [|apply Hh].
    now rewrite Hc, Hmod.
  - unfold store. destruct (decide (r0 = r)); simpl; [|apply Hh].
    exact Hint.
Qed.

Lemma sim_untrain r : sim (untrain r) (untrain r).
Proof.
  intros w1 w2 [] w1' [] w2' (Hn&Hs&Ht&Hh) E1 E2.
  destruct (Hh r) as [Hc Hi].
  destruct Hins as [_ Hu]. specialize (Hu _ _ Hc Hi).
  unfold untrain, modify in E1, E2. rewrite Hu in E1.
  destruct (untrain_fx (heap w2 r)) as [ts cs].
  inversion E1; inversion E2; subst; clear E1 E2.
  split; [reflexivity|]. repeat split; simpl; auto; unfold store;
    destruct (decide (r0 = r)); simpl; try apply Hh; try reflexivity.
  now rewrite Hc.
Qed.

End Insensitive.

End Toggles.

#[global] Hint Resolve changeTemporarily_core resetEnabledTemporarily_core : frames.
#[global] Hint Extern 5 (preserves core_same _) =>
  (eapply preserves_weaken; [apply @engine_only_core|]) : frames.

Section TogglesRun.
Context {D : Domain} {C : Collaborators}.
Implicit Types (w : World) (split : Split) (lc : Locals).
Hypothesis Hins : insensitive.
Variables self self' : Engine.
Hypothesis Hsame : same_but_diagnostics self self'.

Ltac quiet := apply sim_quiet; frame.

Lemma sim_before_evaluation cr h split :
  sim (before_evaluation self cr h split) (before_evaluation self' cr h split).
Proof.
  destruct Hsame as (_ & _ & Hx & Ht).
  unfold before_evaluation. rewrite Hx.
  apply sim_bind; [quiet | intros _].
  apply sim_bind; [now apply sim_select_transerror | intros te].
  apply sim_bind; [apply sim_when, sim_set_testdataset | intros _].
  apply sim_ret.
Qed.

Lemma sim_after_evaluation cr h lc split te result :
  sim (after_evaluation self cr h lc split te result)
      (after_evaluation self' cr h lc split te result).
Proof.
  destruct Hsame as (_ & _ & Hx & Ht).
  unfold after_evaluation. rewrite Hx.
  apply sim_bind; [apply sim_when, sim_set_testdataset | intros _].
  repeat (apply sim_bind; [quiet | intros _]).
  apply sim_ret.
Qed.

Lemma sim_process_split cr h lc split :
  sim (process_split self cr h lc split) (process_split self' cr h lc split).
Proof.
  unfold process_split.
  apply sim_bind; [apply sim_before_evaluation | intros te].
  apply sim_bind; [now apply sim_call_transerror | intros result].
  apply sim_after_evaluation.
Qed.

Lemma sim_for_splits cr h l : forall lc,
  sim (for_splits self cr h lc l) (for_splits self' cr h lc l).
Proof.
  induction l as [|s l IH]; intros lc; simpl.
  - apply sim_ret.
  - apply sim_bind; [apply sim_process_split | exact IH].
Qed.

Lemma sim_run_splits dataset :
  sim (run_splits self dataset) (run_splits self' dataset).
Proof.
  destruct Hsame as (Hsp & _ & _ & Ht).
  unfold run_splits. rewrite Hsp, Ht.
  apply sim_bind; [apply sim_gets; now intros w1 w2 (_&?&_) | intros mother].
  apply sim_bind; [apply sim_gets; intros w1 w2 (_&_&_&Hh); apply Hh | intros c].
  apply sim_bind; [quiet | intros _].
  apply sim_bind; [quiet | intros _].
  apply sim_bind; [now apply sim_when, sim_untrain | intros _].
  apply sim_for_splits.
Qed.

Lemma sim_finish dataset lc :
  sim (finish self dataset lc) (finish self' dataset lc).
Proof.
  destruct Hsame as (_ & Hc & _ & _).
  unfold finish.
  apply sim_bind;
    [intros w1 w2 a1 w1' a2 w2'; apply bind_last_used_akin | intros te].
  repeat (apply sim_bind; [quiet | intros _]).
  intros w1 w2 a1 w1' a2 w2' (Hn&Hs&Ht&Hh) E1 E2.
  unfold call_combiner in E1, E2. rewrite <- Hc in E2.
  inversion E1; inversion E2; subst. split; [congruence|].
  repeat split; simpl; auto; try apply Hh. now rewrite Ht.
Qed.

Lemma sim_call dataset : sim (_call self dataset) (_call self' dataset).
Proof.
  unfold _call. apply sim_bind; [apply sim_run_splits | intros lc].
  apply sim_finish.
Qed.

End TogglesRun.

(** ** The properties of [_call] *)

Section Claims.
Context {D : Domain} {C : Collaborators}.
Implicit Types (w : World) (self : Engine) (split : Split) (lc : Locals).

(** C1 (amended).  The temporary enablement of [confusion],
    [training_confusion] and [samples_error] on the child TransferError is
    undone when the run gets past its loop: whenever [_call] returns, the
    TransferError the engine retains has the enablement (enabled states and
    saved enablements) that the engine's TransferError had before the run.
    There is no guaranteed release: when a step of the loop raises, [_call]
    propagates the exception with the engine's TransferError still
    overridden. *)
Theorem C1_enablement_restored_on_return self dataset w o w' :
  _call self dataset w = (o, w') ->
  (forall v, o = Ok v ->
     enablement (heap w' (self_transerror w')) =
     enablement (heap w (self_transerror w))) /\
  (forall e w1, run_splits self dataset w = (Raise e, w1) ->
     o = Raise e /\ w' = w1 /\
     self_transerror w' = self_transerror w /\
     enablement (heap w' (self_transerror w')) =
     if overrides self
     then (enable_states (terr_enable_of self)
             (te_enabled (heap w (self_transerror w))),
           te_enabled (heap w (self_transerror w))
             :: te_stored (heap w (self_transerror w)))
     else enablement (heap w (self_transerror w))).
Proof.
  intros Hcall. split.
  - intros v ->.
    pose proof Hcall as H. unfold _call in H.
    apply bind_Ok_inv in H as (lc & w1 & Hrun & _).
    destruct (decide (splitter self dataset = [])) as [Hnil|Hne].
    { rewrite (call_no_split _ _ _ Hnil) in Hcall. discriminate. }
    destruct (call_after_loop _ _ _ _ _ Hrun Hne)
      as (te & w'' & _ & E & Hs & En & _).
    rewrite Hcall in E. inversion E; subst w''. now rewrite Hs.
  - intros e w1 Hrun.
    rewrite (call_loop_raises _ _ _ _ _ Hrun) in Hcall.
    inversion Hcall; subst. split; [reflexivity|]. split; [reflexivity|].
    rewrite run_splits_eq in Hrun.
    pose proof (preserves_result _ _ _ _ _
                  (for_splits_mother self _ _ _ _) Hrun) as [Hs He].
    destruct (loop_start_refs self dataset w) as (Hs0 & _).
    rewrite Hs0 in Hs, He. split; [exact Hs|].
    rewrite Hs, He. apply loop_start_enablement.
Qed.

(** C3.  With no split at all, line 224 reads the local [transerror], which
    the loop never bound: [_call] raises [UnboundLocalError] and the
    combiner is not invoked. *)
Theorem C3_no_folds_raises_before_combiner self dataset w :
  splitter self dataset = [] ->
  fst (_call self dataset w) = Raise UnboundLocalError /\
  trace (snd (_call self dataset w)) = trace w.
Proof.
  intros Hnil. rewrite (call_no_split _ _ _ Hnil). simpl.
  split; [reflexivity|]. apply loop_start_refs.
Qed.

(** C8.  Lines 233-240 never raise, whatever the label map and the
    attachment do; after a loop that ran to its end over at least one split,
    the outcome of [_call] is the outcome of the combiner on the results of
    the loop. *)
Theorem C8_labels_map_failures_are_swallowed self dataset w lc w1 :
  run_splits self dataset w = (Ok lc, w1) ->
  splitter self dataset <> [] ->
  (forall w2, fst (provide_labels_map self dataset w2) = Ok tt) /\
  fst (_call self dataset w) = combiner self (results lc).
Proof.
  intros Hrun Hne. split.
  - intros w2. apply provide_labels_map_Ok.
  - destruct (call_after_loop _ _ _ _ _ Hrun Hne) as (te & w' & _ & E & _).
    now rewrite E.
Qed.

Lemma for_each_append_lookup (k : Z) (items : list (Z * Err)) :
  forall w (m : gmap Z (list Err)),
    st_samples_error (self_states w) = Some m ->
    k ∉ items.*1 ->
    exists m' : gmap Z (list Err),
      st_samples_error
        (self_states (snd (for_each append_sample_error items w))) = Some m' /\
      m' !! k = m !! k.
Proof.
  induction items as [|[k0 v] items IH]; intros w m Hm Hk; simpl.
  - eauto.
  - apply not_elem_of_cons in Hk as [Hne Hk]. simpl in Hne.
    unfold bind, append_sample_error at 1. unfold bind, read_state.
    rewrite Hm. simpl.
    destruct (m !! k0) as [l|] eqn:El; simpl.
    + edestruct (IH (with_self_states
                       (mkStates (st_results (self_states w))
                          (st_splits (self_states w))
                          (st_transerrors (self_states w))
                          (st_confusion (self_states w))
                          (st_training_confusion (self_states w))
                          (Some (<[k0:=l ++ [v]]> m))) w))
        as (m' & Hm' & Hl); [reflexivity | exact Hk |].
      exists m'. split; [exact Hm'|]. rewrite Hl.
      now apply lookup_insert_ne.
    + eauto.
Qed.

(** C6.  With [samples_error] enabled, when [_call] ends (on any exit) the
    keys of the engine's [samples_error] are exactly the identifiers of the
    dataset; and pulling the per-sample errors of a fold leaves the sequence
    of every identifier that the fold does not mention as it was. *)
Theorem C6_samples_error_keys self dataset w :
  isEnabled self "samples_error" = true ->
  (exists m : gmap Z (list Err),
      st_samples_error (self_states (snd (_call self dataset w))) = Some m /\
      dom m = list_to_set (origids dataset)) /\
  (forall r w0 (m : gmap Z (list Err)) items k,
      st_samples_error (self_states w0) = Some m ->
      te_samples_error (heap w0 r) = Some items ->
      k ∉ items.*1 ->
      exists m' : gmap Z (list Err),
        st_samples_error (self_states (snd (pull_samples_error r w0)))
          = Some m' /\
        m' !! k = m !! k).
Proof.
  intros Hen. split.
  - assert (same_keys (loop_start self dataset w) (snd (_call self dataset w)))
      as Hk.
    { unfold _call, bind. rewrite run_splits_eq.
      pose proof (for_splits_keys self (self_transerror w)
        (bool_decide (is_Some (slot w (self_transerror w))))
        (mkLocals [] None) (splitter self dataset) (loop_start self dataset w))
        as H1.
      destruct (for_splits _ _ _ _ _ _) as [[lc|e] w1]; simpl in *; [|exact H1].
      etransitivity; [exact H1|]. apply finish_keys. }
    unfold same_keys in Hk.
    rewrite loop_start_samples_error in Hk. unfold assign in Hk.
    rewrite Hen in Hk. simpl in Hk.
    destruct (st_samples_error (self_states (snd (_call self dataset w))))
      as [m|]; [|discriminate].
    exists m. split; [reflexivity|]. inversion Hk as [Hd]. rewrite Hd.
    rewrite dom_list_to_map_L. f_equal.
    rewrite <- list_fmap_compose. apply list_fmap_id.
  - intros r w0 m items k Hm Hitems Hk.
    unfold pull_samples_error, bind, read_state. rewrite Hitems. simpl.
    now apply for_each_append_lookup.
Qed.

Lemma for_splits_without_slot self cr l : forall lc w,
  for_splits (with_expose true self) cr false lc l w =
  for_splits (with_expose false self) cr false lc l w.
Proof.
  induction l as [|s l IH]; intros lc w; simpl; [reflexivity|].
  unfold bind.
  change (process_split (with_expose true self) cr false lc s w)
    with (process_split (with_expose false self) cr false lc s w).
  destruct (process_split _ _ _ _ _ _) as [[lc1|e] w1]; [apply IH|reflexivity].
Qed.

(** C7.  When the classifier of the engine's TransferError has no
    [testdataset] attribute, the run with [expose_testdataset] enabled is the
    run with it disabled: the same outcome (value or exception) and the same
    store (accumulators, TransferErrors and their classifiers). *)
Theorem C7_expose_without_slot_is_inert self dataset w :
  slot w (self_transerror w) = None ->
  _call (with_expose true self) dataset w =
  _call (with_expose false self) dataset w.
Proof.
  intros Hslot. unfold _call, bind. rewrite !run_splits_eq, Hslot.
  change (bool_decide (is_Some (@None (option Dataset)))) with false.
  change (loop_start (with_expose true self) dataset w)
    with (loop_start (with_expose false self) dataset w).
  change (splitter (with_expose true self) dataset)
    with (splitter (with_expose false self) dataset).
  rewrite for_splits_without_slot.
  destruct (for_splits _ _ _ _ _ _) as [[lc|e] w1]; reflexivity.
Qed.

End Claims.

Section MoreClaims.
Context {D : Domain} {C : Collaborators}.
Implicit Types (w : World) (self : Engine) (split : Split) (lc : Locals).


(** The marker the code reads at lines 170-175 is the marker of the first
    present partition, in the claims' words. *)
Lemma marked_last_spec split :
  marked_last split <-> first_present_partition_is_marked split.
Proof.
  unfold marked_last, first_present.
  destruct split as [[training|] [testing|]]; simpl; split.
  all: try (intros (ds & Hd & Hm); inversion Hd; subst; exact Hm).
  all: try (intros Hm; eexists; split; [reflexivity | exact Hm]).
  all: try (intros (ds & Hd & _); discriminate).
  all: intros [].
Qed.


Lemma eval_events_all_Ok (l : list Split) (evs : list (nat * Res)) r test train e :
  EvEval r test train (Raise e) ∉ eval_events l evs.
Proof.
  intros Hin. apply elem_of_zip_with in Hin as (s & x & Heq & _).
  discriminate.
Qed.

(** A run that returns has evaluated every split once, in order, and then
    invoked the combiner once, on the results in that order. *)
Lemma call_Ok_journal self dataset w v w' :
  _call self dataset w = (Ok v, w') ->
  exists evs : list (nat * Res),
    length evs = length (splitter self dataset) /\
    trace w' = trace w ++ eval_events (splitter self dataset) evs
                 ++ [EvCombine evs.*2] /\
    combiner self evs.*2 = Ok v /\
    last evs.*1 = Some (self_transerror w') /\
    Forall2 (evaluator_ok self (self_transerror w) (next_ref w) (next_ref w'))
      (splitter self dataset) evs.*1.
Proof.
  intros Hcall. pose proof Hcall as H. unfold _call in H.
  apply bind_Ok_inv in H as (lc & w1 & Hrun & _).
  destruct (decide (splitter self dataset = [])) as [Hnil|Hne].
  { rewrite (call_no_split _ _ _ Hnil) in Hcall. discriminate. }
  destruct (call_after_loop _ _ _ _ _ Hrun Hne)
    as (te & w'' & Hte & E & Hs & _ & _ & Hn & Ht).
  rewrite Hcall in E. inversion E as [[Hv Hw]]. subst w''.
  rewrite run_splits_eq in Hrun.
  apply for_splits_journal in Hrun
    as (evs & Hlen & Hres & Hlast & Htr & _ & _ & Hall).
  destruct (loop_start_refs self dataset w) as (Hs0 & Hn0 & Ht0).
  rewrite Hs0, Hn0, <- Hn in Hall. rewrite Ht0 in Htr. simpl in Hres.
  exists evs. rewrite <- Hres. repeat split; auto.
  - rewrite Ht, Htr, <- app_assoc. reflexivity.
  - rewrite fmap_last, Hs. rewrite Hte in Hlast.
    destruct (last evs); simpl in *; congruence.
Qed.

(** C5 (amended).  After a run that returns (it has processed at least one
    split), the instance the engine retains is the one that evaluated the
    final split.  With [transerrors] disabled it is the original instance,
    which evaluated every split.  With [transerrors] enabled it is the
    engine's original instance when the first present partition of the final
    split carries a true 'lastsplit' marker, and otherwise an object created
    during the run, which is not the original one. *)
Theorem C5_retained_instance self dataset w v w' :
  _call self dataset w = (Ok v, w') ->
  exists evs : list (nat * Res),
    length evs = length (splitter self dataset) /\
    evs <> [] /\
    trace w' = trace w ++ eval_events (splitter self dataset) evs
                 ++ [EvCombine evs.*2] /\
    last evs.*1 = Some (self_transerror w') /\
    (isEnabled self "transerrors" = false ->
       self_transerror w' = self_transerror w /\
       Forall (fun r => r = self_transerror w) evs.*1) /\
    (isEnabled self "transerrors" = true ->
       forall split, last (splitter self dataset) = Some split ->
         (first_present_partition_is_marked split ->
            self_transerror w' = self_transerror w) /\
         (~ first_present_partition_is_marked split ->
            (next_ref w <= self_transerror w' < next_ref w')%nat /\
            ((self_transerror w < next_ref w)%nat ->
             self_transerror w' <> self_transerror w))).
Proof.
  intros Hcall.
  destruct (call_Ok_journal _ _ _ _ _ Hcall)
    as (evs & Hlen & Htr & _ & Hlast & Hall).
  exists evs. repeat split; auto.
  - intros ->. discriminate.
  - assert (Forall (fun r => r = self_transerror w) evs.*1) as HF.
    { clear -Hall H. induction Hall as [|s r l k Hsr _ IH]; constructor; auto.
      destruct Hsr as [[-> _] | (_ & En & _)]; congruence. }
    rewrite Forall_forall in HF. apply HF.
    apply last_Some_elem_of. exact Hlast.
  - assert (Forall (fun r => r = self_transerror w) evs.*1) as HF.
    { clear -Hall H. induction Hall as [|s r l k Hsr _ IH]; constructor; auto.
      destruct Hsr as [[-> _] | (_ & En & _)]; congruence. }
    exact HF.
  - intros Hm. apply marked_last_spec in Hm.
    apply Forall2_last in Hall. rewrite H0, Hlast in Hall.
    inversion Hall as [? ? Hev|]; subst.
    destruct Hev as [[-> _] | (_ & _ & Hnot)]; [reflexivity | now destruct Hnot].
  - apply Forall2_last in Hall. rewrite H0, Hlast in Hall.
    inversion Hall as [? ? Hev|]; subst.
    destruct Hev as [[_ Hm] | (Hr & _ & _)]; [|lia].
    destruct H1. apply marked_last_spec. auto.
  - apply Forall2_last in Hall. rewrite H0, Hlast in Hall.
    inversion Hall as [? ? Hev|]; subst.
    destruct Hev as [[_ Hm] | (Hr & _ & _)]; [|lia].
    destruct H1. apply marked_last_spec. auto.
  - intros Hwf Heq.
    apply Forall2_last in Hall. rewrite H0, Hlast in Hall.
    inversion Hall as [? ? Hev|]; subst.
    destruct Hev as [[_ Hm] | (Hr & _ & _)]; [|lia].
    destruct H1. apply marked_last_spec. auto.
Qed.

(** C2 (amended).  The value [_call] returns is the value of the combiner,
    invoked once, after all evaluations, on the results of the evaluations
    of the splits, one per split and in the order of the splitter, whichever
    diagnostics are enabled.  An engine that differs in any diagnostic but
    [transerrors] returns, when it returns, the same value, provided the
    TransferError's evaluation does not depend on its own diagnostics. *)
Theorem C2_summary_is_combiner_of_results self dataset w v w' :
  _call self dataset w = (Ok v, w') ->
  (exists evs : list (nat * Res),
      length evs = length (splitter self dataset) /\
      trace w' = trace w ++ eval_events (splitter self dataset) evs
                   ++ [EvCombine evs.*2] /\
      combiner self evs.*2 = Ok v) /\
  (forall self',
      insensitive -> same_but_diagnostics self self' ->
      forall v2 w2, _call self' dataset w = (Ok v2, w2) -> v2 = v).
Proof.
  intros Hcall. split.
  - destruct (call_Ok_journal _ _ _ _ _ Hcall)
      as (evs & Hlen & Htr & Hc & _).
    exists evs. auto.
  - intros self' Hins Hsame v2 w2 Hcall'.
    assert (akin w w) as Hw by (repeat split).
    destruct (sim_call Hins self self' Hsame dataset _ _ _ _ _ _ Hw Hcall Hcall')
      as [Hv _].
    now symmetry.
Qed.

End MoreClaims.

Section Exposure.
Context {D : Domain} {C : Collaborators}.
Implicit Types (w : World) (self : Engine) (split : Split) (lc : Locals).

(** Lines 193-221 with the test partition exposed: the classifier bound to
    [clf] has its attribute reset to [None], no other classifier is
    touched. *)
Lemma after_evaluation_unbinds self cr lc split te result w o w' :
  expose_testdataset self = true ->
  after_evaluation self cr true lc split te result w = (o, w') ->
  slot w' cr = Some None /\ forall r, r <> cr -> slot w' r = slot w r.
Proof.
  intros Hx. unfold after_evaluation. rewrite Hx. simpl.
  destruct (set_testdataset_spec cr None w) as (w1 & E & Hslot & Hother & _).
  rewrite (bind_Ok _ _ _ _ _ E). intros H.
  match type of H with ?m w1 = _ =>
    assert (preserves same_slots m) as Hp by frame end.
  pose proof (preserves_result _ _ _ _ _ Hp H) as Hs.
  split.
  - now rewrite Hs.
  - intros r Hr. rewrite Hs. unfold slot. now rewrite Hother.
Qed.

(** C9 (amended).  With [expose_testdataset] and [transerrors] enabled and a
    classifier that has a [testdataset] attribute, on a split that is not
    marked last: the split is evaluated by a new copy, whose classifier is
    the copy of the original's classifier taken before the test partition
    was attached; the test partition is attached to the classifier of the
    engine's original TransferError and stays there during the evaluation;
    afterwards it is that classifier whose attribute is reset to [None].  The
    classifier that evaluates never receives the exposed partition. *)
Theorem C9_exposure_goes_to_the_original self lc split w te w1 :
  isEnabled self "transerrors" = true ->
  expose_testdataset self = true ->
  (self_transerror w < next_ref w)%nat ->
  ~ marked_last split ->
  before_evaluation self (self_transerror w) true split w = (Ok te, w1) ->
  te = next_ref w /\ te <> self_transerror w /\
  clf (heap w1 te) = clf (heap w (self_transerror w)) /\
  slot w1 (self_transerror w) = Some (snd split) /\
  (forall o w2,
      call_transerror te (snd split) (fst split) w1 = (o, w2) ->
      trace w2 = trace w1 ++ [EvEval te (snd split) (fst split) o] /\
      slot w2 te = slot w (self_transerror w) /\
      slot w2 (self_transerror w) = Some (snd split) /\
      forall result o3 w3,
        after_evaluation self (self_transerror w) true lc split te result w2
          = (o3, w3) ->
        slot w3 (self_transerror w) = Some None /\
        slot w3 te = slot w (self_transerror w)).
Proof.
  intros En Hx Hwf Hnot Hb.
  apply before_evaluation_inv in Hb as (w0 & ws & (Hh & Hn & Hs & _) & Hsel & Hset).
  apply select_transerror_spec in Hsel
    as [(_ & _ & Hm) | (-> & _ & _ & ->)]; [now destruct Hnot; auto|].
  rewrite Hx in Hset. simpl in Hset.
  destruct (set_testdataset_spec (self_transerror w) (snd split)
              (with_next_ref (S (next_ref w0))
                 (with_heap (store (next_ref w0) (heap w0 (self_transerror w0))
                               (heap w0)) w0)))
    as (w1' & E & Hslot & Hother & _).
  rewrite E in Hset. inversion Hset; subst w1'. clear Hset E.
  assert (next_ref w0 <> self_transerror w) as Hne by lia.
  assert (heap w1 (next_ref w0) = heap w (self_transerror w)) as Hcopy.
  { rewrite Hother by exact Hne. simpl. now rewrite store_eq, Hh, Hs. }
  split; [exact Hn|]. split; [exact Hne|]. split; [now rewrite Hcopy|].
  split; [exact Hslot|].
  intros o w2 Hc.
  pose proof (preserves_result _ _ _ _ _
                (call_transerror_slots _ _ _) Hc) as Sc.
  apply call_transerror_spec in Hc as (Tc & _).
  split; [exact Tc|].
  assert (slot w2 (next_ref w0) = slot w (self_transerror w)) as S2.
  { rewrite Sc. unfold slot. now rewrite Hcopy. }
  split; [exact S2|]. split; [now rewrite Sc|].
  intros result o3 w3 Ha.
  apply after_evaluation_unbinds in Ha as [Hnone Hrest]; [|exact Hx].
  split; [exact Hnone|]. now rewrite Hrest.
Qed.

Lemma finish_trace self dataset lc w o w' :
  finish self dataset lc w = (o, w') ->
  trace w' = trace w \/ trace w' = trace w ++ [EvCombine (results lc)].
Proof.
  unfold finish. intros H.
  apply bind_inv in H as [(te & w1 & Hb & H) | (e & Hb & ->)].
  - assert (trace w1 = trace w) as T1.
    { revert Hb. unfold bind_last_used. destruct (transerror lc); [|discriminate].
      intros Hb. now inversion Hb. }
    apply bind_inv in H as [([] & w2 & Hr & H) | (e & Hr & ->)].
    + assert (same_trace w1 w2) as T2.
      { eapply (preserves_result same_trace); [|exact Hr]. frame. }
      destruct (finish_tail self dataset (results lc) w2) as (w3 & E & _ & _ & _ & T3).
      rewrite E in H. inversion H; subst. right.
      unfold same_trace in T2. congruence.
    + left. assert (same_trace w1 w') as T2.
      { eapply (preserves_result same_trace); [|exact Hr]. frame. }
      unfold same_trace in T2. congruence.
  - left. revert Hb. unfold bind_last_used. destruct (transerror lc).
    + discriminate.
    + intros Hb. now inversion Hb.
Qed.

(** C10.  With [expose_testdataset] enabled and a classifier that has a
    [testdataset] attribute: when the last thing a run did was an evaluation
    that raised, [_call] propagates that exception, and the classifier's
    attribute is still bound to the test partition of that evaluation; line
    195 was not reached. *)
Theorem C10_slot_stays_bound_when_evaluation_raises self dataset w o w'
    evs r test train e :
  expose_testdataset self = true ->
  is_Some (slot w (self_transerror w)) ->
  _call self dataset w = (o, w') ->
  trace w' = trace w ++ evs ++ [EvEval r test train (Raise e)] ->
  o = Raise e /\ slot w' (self_transerror w) = Some test.
Proof.
  intros Hx Hslot Hcall Ht.
  unfold _call in Hcall.
  destruct (loop_start_refs self dataset w) as (_ & _ & Ht0).
  apply bind_inv in Hcall as [(lc & w1 & Hrun & Hf) | (e1 & Hrun & ->)].
  - exfalso. rewrite run_splits_eq in Hrun.
    apply for_splits_journal in Hrun as (evs0 & _ & Hres & _ & Htr & _).
    rewrite Ht0 in Htr.
    apply finish_trace in Hf as [Hf | Hf]; rewrite Hf, Htr in Ht.
    + apply app_inv_head in Ht.
      apply (eval_events_all_Ok (splitter self dataset) evs0 r test train e).
      rewrite Ht. apply elem_of_app. right. apply list_elem_of_singleton.
      reflexivity.
    + rewrite <- app_assoc in Ht. apply app_inv_head in Ht.
      apply app_inj_tail in Ht as [_ Ht]. discriminate.
  - rewrite run_splits_eq in Hrun.
    rewrite <- Ht0 in Ht.
    destruct (for_splits_raising_evaluation _ _ _ _ _ _ _ _ Hrun _ _ _ _ _ Ht)
      as [Ho Hs].
    split; [inversion Ho; reflexivity|]. apply Hs. rewrite Hx.
    rewrite bool_decide_eq_true_2 by exact Hslot. reflexivity.
Qed.

End Exposure.

(** ** The properties on the small concrete world *)

Section Concrete.
Import Toy.
Local Open Scope Z_scope.

Lemma outcome_eq {A B} (p : A * B) (a : A) : fst p = a -> p = (a, snd p).
Proof. destruct p. simpl. intros ->. reflexivity. Qed.

Lemma two_folds_first_not_last :
  ~ marked_last (Some (ds 10 [1; 2] false), Some (ds 13 [3; 4] false)).
Proof. intros (d & Hd & Hm). inversion Hd; subst. discriminate. Qed.

Lemma toy_insensitive : insensitive.
Proof.
  split.
  - intros te te' test train Hc Hi. simpl.
    unfold evaluate, trained_on. rewrite Hc, Hi.
    destruct test; simpl; auto.
  - intros te te' Hc Hi. simpl. now rewrite Hi.
Qed.

(** C1 at work: [confusion] enabled, two folds, the run returns and the
    TransferError is back to nothing enabled, nothing saved. *)
Lemma C1_witness :
  enablement
    (heap (snd (_call (engine two_folds false ["confusion"]) whole (world0 true)))
       (self_transerror
          (snd (_call (engine two_folds false ["confusion"]) whole (world0 true)))))
  = ([], []).
Proof.
  destruct (C1_enablement_restored_on_return
              (engine two_folds false ["confusion"]) whole (world0 true)
              (Ok 7)
              (snd (_call (engine two_folds false ["confusion"]) whole
                      (world0 true)))) as [H _].
  - apply outcome_eq. vm_compute. reflexivity.
  - exact (H 7 eq_refl).
Defined.

(** C1 as stated fails: the evaluation of the only fold raises, [_call]
    propagates the exception, and the TransferError is left with
    [confusion] enabled, which it was not before the run. *)
Lemma C1_counterexample :
  fst (_call (engine failing_fold false ["confusion"]) whole (world0 true))
    = Raise (CollaboratorError 2) /\
  te_enabled (heap (world0 true) 0%nat) = [] /\
  te_enabled
    (heap (snd (_call (engine failing_fold false ["confusion"]) whole
                  (world0 true))) 0%nat) = ["confusion"] /\
  enablement
    (heap (snd (_call (engine failing_fold false ["confusion"]) whole
                  (world0 true)))
       (self_transerror
          (snd (_call (engine failing_fold false ["confusion"]) whole
                  (world0 true)))))
  <> enablement (heap (world0 true) (self_transerror (world0 true))).
Proof. vm_compute. repeat split; discriminate. Qed.

(** C2 at work: the run without diagnostics returns 7, the sum of the two
    fold errors 3 and 4, after two evaluations and one invocation of the
    combiner; so does the run with [results], [splits], [confusion] and
    [samples_error] enabled. *)
Lemma C2_witness :
  (exists evs : list (nat * Z),
      length evs = 2%nat /\
      trace (snd (_call (engine two_folds false []) whole (world0 true))) =
        [] ++ eval_events (two_folds whole) evs ++ [EvCombine evs.*2] /\
      total evs.*2 = Ok 7) /\
  fst (_call (engine two_folds false
                ["results"; "splits"; "confusion"; "samples_error"])
         whole (world0 true)) = Ok 7.
Proof.
  destruct (C2_summary_is_combiner_of_results
              (engine two_folds false []) whole (world0 true) 7
              (snd (_call (engine two_folds false []) whole (world0 true))))
    as [H1 H2].
  - apply outcome_eq. vm_compute. reflexivity.
  - split; [exact H1|].
    destruct (_call (engine two_folds false
                       ["results"; "splits"; "confusion"; "samples_error"])
                whole (world0 true)) as [[v2|e2] w2] eqn:E.
    + simpl. f_equal.
      apply (H2 (engine two_folds false
                   ["results"; "splits"; "confusion"; "samples_error"])
                toy_insensitive ltac:(repeat split) v2 w2 E).
    + vm_compute in E. discriminate.
Defined.

(** C2 as stated fails.  A classifier trained beforehand and one fold that
    only tests: without [transerrors] the fold is evaluated by the trained
    classifier (error 4); with [transerrors] line 158 untrains it first
    (error 50, the chance level).  Also with two folds of which only the
    first trains: without [transerrors] the second is evaluated by the
    classifier the first fold trained (errors 3 and 4); with [transerrors]
    the first fold trains a copy and the second, marked last, is evaluated by
    the untrained original (errors 3 and 50). *)
Lemma C2_counterexample :
  fst (_call (engine test_only false []) whole pretrained) = Ok 4 /\
  fst (_call (engine test_only false ["transerrors"]) whole pretrained)
    = Ok 50 /\
  fst (_call (engine two_folds false []) whole (world0 true)) = Ok 7 /\
  fst (_call (engine two_folds false ["transerrors"]) whole (world0 true))
    = Ok 53 /\
  fst (_call (engine two_folds false []) whole (world0 true)) <>
  fst (_call (engine two_folds false ["transerrors"]) whole (world0 true)).
Proof. vm_compute. repeat split; discriminate. Qed.

(** C3 at work: no fold, [UnboundLocalError], the combiner not invoked. *)
Lemma C3_witness :
  fst (_call (engine no_folds false []) whole (world0 true))
    = Raise UnboundLocalError /\
  trace (snd (_call (engine no_folds false []) whole (world0 true))) = [].
Proof.
  apply (C3_no_folds_raises_before_combiner
           (engine no_folds false []) whole (world0 true)).
  reflexivity.
Defined.


(** C5 at work: with [transerrors] enabled and the final fold marked last,
    the engine retains its original instance 0. *)
Lemma C5_witness :
  self_transerror
    (snd (_call (engine two_folds false ["transerrors"]) whole (world0 true)))
  = self_transerror (world0 true).
Proof.
  destruct (C5_retained_instance
              (engine two_folds false ["transerrors"]) whole (world0 true) 53
              (snd (_call (engine two_folds false ["transerrors"]) whole
                      (world0 true))))
    as (evs & _ & _ & _ & _ & _ & H).
  - apply outcome_eq. vm_compute. reflexivity.
  - destruct (H eq_refl (None, Some (ds 14 [1; 2] true)) eq_refl) as [Hm _].
    apply Hm. reflexivity.
Defined.

(** C5 as stated fails.  The splitter marks the first of two folds as the
    last one; with [transerrors] enabled that fold is evaluated by the
    engine's object 0 and the final fold by the copy 1, and line 224 retains
    the copy 1: the retained instance is not the one that evaluated the
    fold marked last. *)
Lemma C5_counterexample :
  fst (_call (engine marked_first false ["transerrors"]) whole (world0 true))
    = Ok 6 /\
  trace (snd (_call (engine marked_first false ["transerrors"]) whole
                (world0 true)))
    = [EvEval 0%nat (Some (ds 13 [3; 4] true)) (Some (ds 10 [1; 2] true))
         (Ok 3);
       EvEval 1%nat (Some (ds 14 [1; 2] false)) (Some (ds 11 [3; 4] false))
         (Ok 3);
       EvCombine [3; 3]] /\
  first_present_partition_is_marked
    (Some (ds 10 [1; 2] true), Some (ds 13 [3; 4] true)) /\
  ~ first_present_partition_is_marked
      (Some (ds 11 [3; 4] false), Some (ds 14 [1; 2] false)) /\
  self_transerror
    (snd (_call (engine marked_first false ["transerrors"]) whole
            (world0 true))) = 1%nat /\
  self_transerror
    (snd (_call (engine marked_first false ["transerrors"]) whole
            (world0 true))) <> 0%nat.
Proof. vm_compute. repeat split; discriminate. Qed.

(** C6 at work: with [samples_error] enabled, the keys after the run are
    the four identifiers of the dataset. *)
Lemma C6_witness :
  exists m : gmap Z (list Z),
    st_samples_error
      (self_states
         (snd (_call (engine two_folds false ["samples_error"]) whole
                 (world0 true)))) = Some m /\
    dom m = list_to_set [1; 2; 3; 4].
Proof.
  destruct (C6_samples_error_keys
              (engine two_folds false ["samples_error"]) whole (world0 true)
              eq_refl) as [H _].
  exact H.
Defined.

(** C7 at work: a classifier without the attribute. *)
Lemma C7_witness :
  _call (with_expose true (engine two_folds false ["results"])) whole
    (world0 false) =
  _call (with_expose false (engine two_folds false ["results"])) whole
    (world0 false).
Proof.
  apply (C7_expose_without_slot_is_inert
           (engine two_folds false ["results"]) whole (world0 false)).
  reflexivity.
Defined.

(** C8 at work: the dataset has no label map, reading it raises inside the
    [try], and the run still returns the sum of the fold errors. *)
Lemma C8_witness :
  fst (_call (engine two_folds false ["confusion"])
         (mkDataset 0 [1; 2; 3; 4] None (Some false)) (world0 true)) = Ok 7.
Proof.
  destruct (C8_labels_map_failures_are_swallowed
              (engine two_folds false ["confusion"])
              (mkDataset 0 [1; 2; 3; 4] None (Some false)) (world0 true)
              (mkLocals (D:=domain) [3; 4] (Some 0%nat))
              (snd (run_splits (engine two_folds false ["confusion"])
                      (mkDataset 0 [1; 2; 3; 4] None (Some false))
                      (world0 true)))) as [_ H].
  - apply outcome_eq. vm_compute. reflexivity.
  - discriminate.
  - exact H.
Defined.

(** C9 at work: the first fold is evaluated by the copy 1; the test
    partition is attached to the classifier of the original 0, the
    classifier of the copy holds what the original held before. *)
Lemma C9_witness :
  slot (snd (before_evaluation (engine two_folds true ["transerrors"]) 0%nat
               true (Some (ds 10 [1; 2] false), Some (ds 13 [3; 4] false))
               (world0 true))) 0%nat
    = Some (Some (ds 13 [3; 4] false)) /\
  clf (heap (snd (before_evaluation (engine two_folds true ["transerrors"])
                    0%nat true
                    (Some (ds 10 [1; 2] false), Some (ds 13 [3; 4] false))
                    (world0 true))) 1%nat)
    = clf (heap (world0 true) 0%nat).
Proof.
  destruct (C9_exposure_goes_to_the_original
              (engine two_folds true ["transerrors"]) (mkLocals [] None)
              (Some (ds 10 [1; 2] false), Some (ds 13 [3; 4] false))
              (world0 true) 1%nat
              (snd (before_evaluation (engine two_folds true ["transerrors"])
                      0%nat true
                      (Some (ds 10 [1; 2] false), Some (ds 13 [3; 4] false))
                      (world0 true))))
    as (_ & _ & Hclf & Hslot & _).
  - reflexivity.
  - reflexivity.
  - simpl. lia.
  - exact two_folds_first_not_last.
  - apply outcome_eq. reflexivity.
  - split; [exact Hslot | exact Hclf].
Defined.

(** C9 as stated fails: the classifier has no [testdataset] attribute;
    [expose_testdataset] and [transerrors] are enabled, the first fold is not
    marked last, and nothing is attached to the classifier of the original,
    neither before the evaluation of that fold nor by the end of the run. *)
Lemma C9_counterexample :
  isEnabled (engine two_folds true ["transerrors"]) "transerrors" = true /\
  expose_testdataset (engine two_folds true ["transerrors"]) = true /\
  slot (snd (before_evaluation (engine two_folds true ["transerrors"]) 0%nat
               (bool_decide (is_Some (slot (world0 false) 0%nat)))
               (Some (ds 10 [1; 2] false), Some (ds 13 [3; 4] false))
               (loop_start (engine two_folds true ["transerrors"]) whole
                  (world0 false)))) 0%nat
    <> Some (Some (ds 13 [3; 4] false)) /\
  slot (snd (_call (engine two_folds true ["transerrors"]) whole
               (world0 false))) 0%nat = None.
Proof. vm_compute. repeat split; discriminate. Qed.

(** C10 at work: the evaluation of the only fold raises; the exception
    propagates and the classifier still holds that fold's test partition. *)
Lemma C10_witness :
  fst (_call (engine failing_fold true []) whole (world0 true))
    = Raise (CollaboratorError 2) /\
  slot (snd (_call (engine failing_fold true []) whole (world0 true))) 0%nat
    = Some (Some (ds (-1) [3; 4] true)).
Proof.
  apply (C10_slot_stays_bound_when_evaluation_raises
           (engine failing_fold true []) whole (world0 true) _ _ []
           0%nat (Some (ds (-1) [3; 4] true)) (Some (ds 10 [1; 2] true))
           (CollaboratorError 2)).
  - reflexivity.
  - eexists. reflexivity.
  - apply surjective_pairing.
  - vm_compute. reflexivity.
Defined.

End Concrete.

(** ** The values of the engine's states, step by step *)

Section Fields.
Context {D : Domain} {C : Collaborators}.
Implicit Types (w : World) (self : Engine) (split : Split) (lc : Locals).

#[global] Instance same_on_preorder {A} (f : States -> A) : PreOrder (same_on f).
Proof. split; unfold same_on; [intros w | intros w1 w2 w3]; congruence. Qed.

#[global] Instance same_harvested_preorder : PreOrder same_harvested.
Proof. split; unfold same_harvested; [intros w | intros w1 w2 w3]; congruence. Qed.

#[global] Instance same_refs_preorder : PreOrder same_refs.
Proof.
  split; unfold same_refs; [intros w | intros w1 w2 w3 [] []]; split; congruence.
Qed.

#[global] Instance untouched_preorder self : PreOrder (untouched self).
Proof.
  split.
  - intros w. unfold untouched, same_on. tauto.
  - intros w1 w2 w3 (A1&A2&A3&A4&A5&A6) (B1&B2&B3&B4&B5&B6).
    unfold untouched, same_on in *.
    repeat split; intros E;
      [rewrite (B1 E); auto | rewrite (B2 E); auto | rewrite (B3 E); auto
      | rewrite (B4 E); auto | rewrite (B5 E); auto | rewrite (B6 E); auto].
Qed.

Lemma same_states_on {A} (f : States -> A) w w' :
  same_states w w' -> same_on f w w'.
Proof. unfold same_states, same_on. now intros ->. Qed.

Lemma harvest_states split r res rs : preserves same_states (_harvest split r res rs).
Proof. intros w. reflexivity. Qed.

Section OneField.
Context {A : Type} (f : States -> A).

(** Each step that writes a state leaves alone what does not depend on that
    state. *)
Lemma append_split_same_on split :
  (forall st x, f (mkStates (st_results st) x (st_transerrors st)
                     (st_confusion st) (st_training_confusion st)
                     (st_samples_error st)) = f st) ->
  preserves (same_on f) (append_split split).
Proof.
  intros Hf w. unfold append_split, bind, read_state, same_on.
  destruct (st_splits (self_states w)); simpl; [apply Hf | reflexivity].
Qed.

Lemma append_transerror_same_on r :
  (forall st x, f (mkStates (st_results st) (st_splits st) x
                     (st_confusion st) (st_training_confusion st)
                     (st_samples_error st)) = f st) ->
  preserves (same_on f) (append_transerror r).
Proof.
  intros Hf w. unfold append_transerror, bind, read_state, same_on.
  destruct (st_transerrors (self_states w)); simpl; [apply Hf | reflexivity].
Qed.

Lemma append_sample_error_same_on kv :
  (forall st x, f (mkStates (st_results st) (st_splits st) (st_transerrors st)
                     (st_confusion st) (st_training_confusion st) x) = f st) ->
  preserves (same_on f) (append_sample_error kv).
Proof.
  intros Hf w. unfold append_sample_error, bind, read_state, same_on.
  destruct (st_samples_error (self_states w)) as [m|]; simpl; [|reflexivity].
  destruct (m !! kv.1); simpl; [apply Hf | reflexivity].
Qed.

Lemma pull_samples_error_same_on r :
  (forall st x, f (mkStates (st_results st) (st_splits st) (st_transerrors st)
                     (st_confusion st) (st_training_confusion st) x) = f st) ->
  preserves (same_on f) (pull_samples_error r).
Proof.
  intros Hf. unfold pull_samples_error.
  apply preserves_bind; [typeclasses eauto | |].
  - apply preserves_read. typeclasses eauto.
  - intros items. apply preserves_for_each; [typeclasses eauto|].
    intros kv. now apply append_sample_error_same_on.
Qed.

Lemma pull_confusion_same_on r :
  (forall st x, f (mkStates (st_results st) (st_splits st) (st_transerrors st)
                     x (st_training_confusion st) (st_samples_error st))
                = f st) ->
  preserves (same_on f) (pull_confusion r).
Proof.
  intros Hf w. unfold pull_confusion, bind, read_state, same_on.
  destruct (st_confusion (self_states w)); simpl; [|reflexivity].
  destruct (te_confusion (heap w r)); simpl; [apply Hf | reflexivity].
Qed.

Lemma pull_training_confusion_same_on r :
  (forall st x, f (mkStates (st_results st) (st_splits st) (st_transerrors st)
                     (st_confusion st) x (st_samples_error st)) = f st) ->
  preserves (same_on f) (pull_training_confusion r).
Proof.
  intros Hf w. unfold pull_training_confusion, bind, read_state, same_on.
  destruct (st_training_confusion (self_states w)); simpl; [|reflexivity].
  destruct (te_training_confusion (heap w r)); simpl; [apply Hf | reflexivity].
Qed.

Lemma attach_confusion_same_on dataset :
  (forall st x, f (mkStates (st_results st) (st_splits st) (st_transerrors st)
                     x (st_training_confusion st) (st_samples_error st))
                = f st) ->
  preserves (same_on f) (attach_confusion dataset).
Proof.
  intros Hf w. unfold attach_confusion, bind, read_state, same_on.
  destruct (st_confusion (self_states w)) as [acc|]; simpl; [|reflexivity].
  destruct (labels_map dataset) as [lm|]; simpl; [|reflexivity].
  destruct (set_labels_map acc lm); simpl; [apply Hf | reflexivity].
Qed.

Lemma attach_training_confusion_same_on dataset :
  (forall st x, f (mkStates (st_results st) (st_splits st) (st_transerrors st)
                     (st_confusion st) x (st_samples_error st)) = f st) ->
  preserves (same_on f) (attach_training_confusion dataset).
Proof.
  intros Hf w. unfold attach_training_confusion, bind, read_state, same_on.
  destruct (st_training_confusion (self_states w)) as [acc|]; simpl;
    [|reflexivity].
  destruct (labels_map dataset) as [lm|]; simpl; [|reflexivity].
  destruct (set_labels_map acc lm); simpl; [apply Hf | reflexivity].
Qed.

End OneField.

Lemma untouched_of {B} (m : M B) self :
  (isEnabled self "results" = false -> preserves (same_on st_results) m) ->
  (isEnabled self "splits" = false -> preserves (same_on st_splits) m) ->
  (isEnabled self "transerrors" = false ->
   preserves (same_on st_transerrors) m) ->
  (isEnabled self "confusion" = false -> preserves (same_on st_confusion) m) ->
  (isEnabled self "training_confusion" = false ->
   preserves (same_on st_training_confusion) m) ->
  (isEnabled self "samples_error" = false ->
   preserves (same_on st_samples_error) m) ->
  preserves (untouched self) m.
Proof.
  intros H1 H2 H3 H4 H5 H6 w. unfold untouched.
  repeat split; intros E;
    [apply H1 | apply H2 | apply H3 | apply H4 | apply H5 | apply H6]; exact E.
Qed.

End Fields.

Create HintDb fields.

#[global] Hint Extern 1 (preserves (same_on _) (append_split _)) =>
  (apply append_split_same_on; intros; reflexivity) : fields.
#[global] Hint Extern 1 (preserves (same_on _) (append_transerror _)) =>
  (apply append_transerror_same_on; intros; reflexivity) : fields.
#[global] Hint Extern 1 (preserves (same_on _) (pull_samples_error _)) =>
  (apply pull_samples_error_same_on; intros; reflexivity) : fields.
#[global] Hint Extern 1 (preserves (same_on _) (pull_confusion _)) =>
  (apply pull_confusion_same_on; intros; reflexivity) : fields.
#[global] Hint Extern 1 (preserves (same_on _) (pull_training_confusion _)) =>
  (apply pull_training_confusion_same_on; intros; reflexivity) : fields.
#[global] Hint Extern 1 (preserves (same_on _) (attach_confusion _)) =>
  (apply attach_confusion_same_on; intros; reflexivity) : fields.
#[global] Hint Extern 1 (preserves (same_on _) (attach_training_confusion _)) =>
  (apply attach_training_confusion_same_on; intros; reflexivity) : fields.
#[global] Hint Extern 5 (preserves (same_on _) _) =>
  (eapply preserves_weaken; [apply @same_states_on|];
   first [apply harvest_states | apply bind_last_used_states
         | apply call_combiner_states | solve [eauto with frames]]) : fields.

(** Take a composed step apart and look up, for each part, that it leaves
    the value at hand alone.  [E], when given, says that a state is
    disabled: the parts guarded by that state are then not run. *)
Ltac fields_with E :=
  repeat match goal with
         | |- context [when false ?b] =>
             change (when false b) with (@ret _ unit tt)
         end;
  repeat lazymatch goal with
  | |- preserves _ (bind _ _) => apply preserves_bind; [typeclasses eauto | | intros ?]
  | |- preserves ?R (when false ?b) =>
      change (preserves R (@ret _ unit tt)); apply preserves_ret;
      typeclasses eauto
  | |- preserves _ (when _ _) => apply preserves_when; [typeclasses eauto |]
  | |- preserves _ (try_except_pass _) => apply preserves_try
  | |- preserves _ (ret _) => apply preserves_ret; typeclasses eauto
  | |- preserves _ (raise _) => apply preserves_raise; typeclasses eauto
  | |- preserves _ (gets _) => apply preserves_gets; typeclasses eauto
  | |- preserves (same_on _) (charge_states _ _ _) =>
      intros ?; unfold same_on, charge_states, assign; simpl;
      rewrite ?E; reflexivity
  | |- preserves (same_on _) (store_results _ _) =>
      intros ?; unfold same_on, store_results, assign; simpl;
      rewrite ?E; reflexivity
  | |- preserves _ _ => solve [eauto with fields]
  end.

Ltac fields := fields_with I.

(** ** What the run leaves in the engine's states *)

Section StatesOfTheRun.
Context {D : Domain} {C : Collaborators}.
Implicit Types (w : World) (self : Engine) (split : Split) (lc : Locals).

Lemma process_split_untouched self cr h lc split :
  preserves (untouched self) (process_split self cr h lc split).
Proof.
  apply untouched_of; intros E;
    unfold process_split, before_evaluation, after_evaluation;
    try rewrite E; fields_with E.
Qed.

Lemma run_splits_untouched self dataset :
  preserves (untouched self) (run_splits self dataset).
Proof.
  apply untouched_of; intros E; unfold run_splits; try rewrite E;
    (repeat (apply preserves_bind; [typeclasses eauto | | intros ?]);
     [fields_with E .. |
      apply preserves_for_splits; [typeclasses eauto|];
      intros lc split;
      apply (preserves_weaken (untouched self));
      [intros w w' Hu; apply Hu; exact E | apply process_split_untouched]]).
Qed.

Lemma finish_untouched self dataset lc :
  preserves (untouched self) (finish self dataset lc).
Proof.
  apply untouched_of; intros E; unfold finish, provide_labels_map;
    try rewrite E; fields_with E.
Qed.

(** X1.  [_call] never writes a state that is disabled: on every exit, each
    of [results], [splits], [transerrors], [confusion],
    [training_confusion], [samples_error] that is disabled holds the value
    it held before the run. *)
Theorem X1_disabled_states_are_left_alone self dataset w :
  untouched self w (snd (_call self dataset w)).
Proof.
  assert (preserves (untouched self) (_call self dataset)) as H.
  { unfold _call. apply preserves_bind; [typeclasses eauto | |].
    - apply run_splits_untouched.
    - intros lc. apply finish_untouched. }
  apply H.
Qed.

End StatesOfTheRun.

(** ** How a run can fail *)

Section Failing.
Context {D : Domain} {C : Collaborators}.
Implicit Types (w : World) (self : Engine) (split : Split) (lc : Locals).

(** A loop that raises stopped at one split: the splits before it were
    evaluated, each once and in order, and of the split it stopped at there
    is at most its evaluation. *)
Lemma for_splits_raise_journal self cr h l : forall lc w e w',
  for_splits self cr h lc l w = (Raise e, w') ->
  exists pre split post (evs : list (nat * Res)) tail,
    l = pre ++ split :: post /\
    length evs = length pre /\
    trace w' = trace w ++ eval_events pre evs ++ tail /\
    (tail = [] \/
     exists te res, tail = [EvEval te (snd split) (fst split) res]).
Proof.
  induction l as [|s l IH]; intros lc w e w' H; simpl in H; [discriminate|].
  apply bind_inv in H as [(lc1 & w1 & Hp & H) | (e1 & Hp & He)].
  - apply IH in H as (pre & split & post & evs & tail & -> & Hlen & Ht & Htail).
    apply process_split_Ok in Hp as (te & result & _ & Tr & _).
    exists (s :: pre), split, post, ((te, result) :: evs), tail.
    repeat split; simpl; auto.
    rewrite Ht, Tr, <- app_assoc. reflexivity.
  - exists [], s, l, [].
    apply process_split_cases in Hp
      as [(te & result & Tr) | [(Tr & _) | (te & e2 & Tr & _)]].
    + exists [EvEval te (snd s) (fst s) (Ok result)]. repeat split; eauto.
    + exists []. repeat split; auto. simpl. now rewrite app_nil_r.
    + exists [EvEval te (snd s) (fst s) (Raise e2)]. repeat split; eauto.
Qed.

(** X2.  The ways [_call] can raise.  Either the splitter yielded nothing
    and line 224 raises [UnboundLocalError]; or every split was evaluated,
    the combiner was invoked on all the results and it is the combiner that
    raised; or the loop stopped at one split: the splits before it were
    evaluated once each, in order, of the split it stopped at there is at
    most its evaluation, no later split was evaluated and the combiner was
    not invoked. *)
Theorem X2_how_a_run_fails self dataset w e w' :
  _call self dataset w = (Raise e, w') ->
  (splitter self dataset = [] /\ e = UnboundLocalError /\ trace w' = trace w) \/
  (exists evs : list (nat * Res),
      length evs = length (splitter self dataset) /\
      trace w' = trace w ++ eval_events (splitter self dataset) evs
                   ++ [EvCombine evs.*2] /\
      combiner self evs.*2 = Raise e) \/
  (exists pre split post (evs : list (nat * Res)) tail,
      splitter self dataset = pre ++ split :: post /\
      length evs = length pre /\
      trace w' = trace w ++ eval_events pre evs ++ tail /\
      (tail = [] \/
       exists te res, tail = [EvEval te (snd split) (fst split) res])).
Proof.
  intros Hcall.
  destruct (loop_start_refs self dataset w) as (_ & _ & Ht0).
  destruct (run_splits self dataset w) as [[lc|e1] w1] eqn:Hrun.
  - destruct (decide (splitter self dataset = [])) as [Hnil|Hne].
    + left. rewrite (call_no_split _ _ _ Hnil) in Hcall.
      inversion Hcall; subst. auto.
    + right. left.
      destruct (call_after_loop _ _ _ _ _ Hrun Hne)
        as (te & w'' & _ & E & _ & _ & _ & _ & Ht).
      rewrite Hcall in E. inversion E as [[Hc Hw]]. subst w''.
      rewrite run_splits_eq in Hrun.
      apply for_splits_journal in Hrun
        as (evs & Hlen & Hres & _ & Htr & _).
      simpl in Hres. rewrite Ht0 in Htr.
      exists evs. rewrite <- Hres. repeat split; auto.
      rewrite Ht, Htr, <- app_assoc. reflexivity.
  - right. right.
    rewrite (call_loop_raises _ _ _ _ _ Hrun) in Hcall.
    inversion Hcall; subst.
    rewrite run_splits_eq in Hrun.
    apply for_splits_raise_journal in Hrun
      as (pre & split & post & evs & tail & Hl & Hlen & Ht & Htail).
    rewrite Ht0 in Ht.
    exists pre, split, post, evs, tail. auto.
Qed.

End Failing.

(** ** The [results], [splits] and [transerrors] states *)

Section Sequences.
Context {D : Domain} {C : Collaborators}.
Implicit Types (w : World) (self : Engine) (split : Split) (lc : Locals).

Lemma bind_assoc {A B E} (m : M A) (k : A -> M B) (k' : B -> M E) w :
  (y <- (x <- m ;; k x) ;; k' y) w = (x <- m ;; y <- k x ;; k' y) w.
Proof. unfold bind. destruct (m w) as [[a|e] w1]; reflexivity. Qed.

Lemma eval_events_no_combine (l : list Split) (evs : list (nat * Res)) rs :
  EvCombine rs ∉ eval_events l evs.
Proof.
  intros Hin. apply elem_of_zip_with in Hin as (s & x & Heq & _).
  discriminate.
Qed.

(** Lines 230-242 on the [results] state. *)
Lemma finish_tail_results self dataset rs w :
  st_results
    (self_states
       (snd ((store_results self rs ;;; provide_labels_map self dataset ;;;
              call_combiner self rs) w)))
  = assign self "results" (st_results (self_states w)) rs.
Proof.
  unfold bind. simpl.
  pose proof (provide_labels_map_Ok self dataset
    (snd (store_results self rs w))) as Hok.
  assert (preserves (same_on st_results) (provide_labels_map self dataset))
    as Hp by (unfold provide_labels_map; fields).
  specialize (Hp (snd (store_results self rs w))). simpl in *.
  destruct (provide_labels_map self dataset _) as [o w1]. simpl in *.
  subst o. simpl. exact Hp.
Qed.

(** X3.  When a run has reached the combiner (its last event is the
    invocation of the combiner on [rs]): the outcome of [_call] is the
    outcome of the combiner on [rs], [rs] holds one result per split, and
    with [results] enabled the [results] state holds [rs], also when the
    combiner raises, because line 230 comes before line 242. *)
Theorem X3_results_state_is_the_combiner_argument self dataset w o w' evs rs :
  _call self dataset w = (o, w') ->
  trace w' = trace w ++ evs ++ [EvCombine rs] ->
  o = combiner self rs /\
  length rs = length (splitter self dataset) /\
  (isEnabled self "results" = true ->
   st_results (self_states w') = Some rs).
Proof.
  intros Hcall Ht.
  destruct (loop_start_refs self dataset w) as (_ & _ & Ht0).
  destruct (run_splits self dataset w) as [[lc|e1] w1] eqn:Hrun.
  - destruct (decide (splitter self dataset = [])) as [Hnil|Hne].
    { exfalso. rewrite (call_no_split _ _ _ Hnil) in Hcall.
      inversion Hcall; subst. rewrite Ht0 in Ht.
      rewrite <- (app_nil_r (trace w)) in Ht at 1.
      apply app_inv_head in Ht. now destruct evs. }
    destruct (call_after_loop _ _ _ _ _ Hrun Hne)
      as (te & w'' & Hte & E & _ & _ & _ & _ & Ht').
    rewrite Hcall in E. inversion E as [[Ho Hw]]. subst w''.
    pose proof Hrun as Hj. rewrite run_splits_eq in Hj.
    apply for_splits_journal in Hj as (evs0 & Hlen & Hres & _ & Htr & _).
    simpl in Hres. rewrite Ht0 in Htr.
    assert (rs = results lc) as ->.
    { rewrite Ht', Htr, <- app_assoc in Ht. apply app_inv_head in Ht.
      apply app_inj_tail in Ht as [_ Ht]. now inversion Ht. }
    split; [reflexivity|]. split.
    { now rewrite Hres, length_fmap. }
    intros En.
    assert (same_on st_results w w1) as Hloop.
    { eapply (preserves_result (same_on st_results)); [|exact Hrun].
      unfold run_splits.
      repeat (apply preserves_bind; [typeclasses eauto | | intros ?]);
        [fields .. |].
      apply preserves_for_splits; [typeclasses eauto|]. intros ? ?.
      unfold process_split, before_evaluation, after_evaluation. fields. }
    unfold _call in Hcall. rewrite (bind_Ok _ _ _ _ _ Hrun) in Hcall.
    unfold finish in Hcall.
    apply bind_inv in Hcall as [(te' & wa & Ha & Hcall) | (e2 & Ha & Hx)].
    2:{ exfalso. unfold bind_last_used in Ha. rewrite Hte in Ha.
        discriminate. }
    apply bind_inv in Hcall as [([] & wb & Hb & Hcall) | (e2 & Hb & Hx)].
    + pose proof (finish_tail_results self dataset (results lc) wb) as Hr.
      rewrite Hcall in Hr. simpl in Hr. rewrite Hr.
      unfold assign. rewrite En. reflexivity.
    + exfalso. subst.
      assert (same_trace wa w') as T2
        by (eapply (preserves_result same_trace); [|exact Hb]; frame).
      assert (trace wa = trace w1) as T1.
      { unfold bind_last_used in Ha. rewrite Hte in Ha.
        now inversion Ha. }
      unfold same_trace in T2. rewrite T2, T1 in Ht'.
      rewrite <- (app_nil_r (trace w1)) in Ht' at 1.
      apply app_inv_head in Ht'. discriminate.
  - exfalso.
    rewrite (call_loop_raises _ _ _ _ _ Hrun) in Hcall.
    inversion Hcall; subst.
    rewrite run_splits_eq in Hrun.
    apply for_splits_raise_journal in Hrun
      as (pre & split & post & evs0 & tail & _ & _ & Ht1 & Htail).
    rewrite Ht0, Ht in Ht1. apply app_inv_head in Ht1.
    assert (EvCombine rs ∈ eval_events pre evs0 ++ tail) as Hin.
    { rewrite <- Ht1. apply elem_of_app. right.
      apply list_elem_of_singleton. reflexivity. }
    apply elem_of_app in Hin as [Hin | Hin].
    + now apply eval_events_no_combine in Hin.
    + destruct Htail as [-> | (te & res & ->)].
      * now apply elem_of_nil in Hin.
      * apply list_elem_of_singleton in Hin. discriminate.
Qed.

End Sequences.

Section SplitsAndTranserrors.
Context {D : Domain} {C : Collaborators}.
Implicit Types (w : World) (self : Engine) (split : Split) (lc : Locals).

Lemma loop_start_states self dataset w :
  self_states (loop_start self dataset w) =
  mkStates (st_results (self_states w))
    (assign self "splits" (st_splits (self_states w)) [])
    (assign self "transerrors" (st_transerrors (self_states w)) [])
    (assign self "confusion" (st_confusion (self_states w))
       (summaryClass (clf (heap w (self_transerror w)))))
    (assign self "training_confusion" (st_training_confusion (self_states w))
       (summaryClass (clf (heap w (self_transerror w)))))
    (assign self "samples_error" (st_samples_error (self_states w))
       (list_to_map ((fun id => (id, [])) <$> origids dataset))).
Proof.
  unfold loop_start, bind, charge_states, untrain. simpl.
  destruct (overrides self); destruct (isEnabled self "transerrors"); simpl;
    try destruct (untrain_fx _); reflexivity.
Qed.

(** Line 165 is the first thing a split does: whatever becomes of the
    split, it has been appended. *)
Lemma process_split_splits self cr h lc split w o w' l0 :
  process_split self cr h lc split w = (o, w') ->
  isEnabled self "splits" = true ->
  st_splits (self_states w) = Some l0 ->
  st_splits (self_states w') = Some (l0 ++ [split]).
Proof.
  intros H En Hs. unfold process_split, before_evaluation in H.
  rewrite En in H. change (when true (append_split split))
    with (append_split split) in H.
  rewrite bind_assoc in H.
  assert (exists w0, append_split split w = (Ok tt, w0) /\
                     st_splits (self_states w0) = Some (l0 ++ [split]))
    as (w0 & E0 & Hs0).
  { unfold append_split, bind, read_state. rewrite Hs. simpl.
    eexists. split; reflexivity. }
  rewrite (bind_Ok _ _ _ _ _ E0) in H.
  match type of H with ?m w0 = _ =>
    assert (preserves (same_on st_splits) m) as Hp
      by (unfold after_evaluation; fields) end.
  pose proof (preserves_result _ _ _ _ _ Hp H) as Hk.
  unfold same_on in Hk. congruence.
Qed.

Lemma for_splits_splits self cr h l : forall lc w o w' l0,
  for_splits self cr h lc l w = (o, w') ->
  isEnabled self "splits" = true ->
  st_splits (self_states w) = Some l0 ->
  exists k, (k <= length l)%nat /\
    st_splits (self_states w') = Some (l0 ++ take k l) /\
    (forall lc', o = Ok lc' -> k = length l).
Proof.
  induction l as [|s l IH]; intros lc w o w' l0 H En Hs; simpl in H.
  - inversion H; subst. exists 0%nat. simpl. rewrite app_nil_r. auto.
  - apply bind_inv in H as [(lc1 & w1 & Hp & H) | (e & Hp & ->)].
    + pose proof (process_split_splits _ _ _ _ _ _ _ _ _ Hp En Hs) as Hs1.
      destruct (IH _ _ _ _ _ H En Hs1) as (k & Hk & Hst & Hfull).
      exists (S k). simpl. split; [lia|]. split.
      * rewrite Hst, <- app_assoc. reflexivity.
      * intros lc' Ho. f_equal. eauto.
    + pose proof (process_split_splits _ _ _ _ _ _ _ _ _ Hp En Hs) as Hs1.
      exists 1%nat. simpl. split; [lia|]. split.
      * rewrite take_0. exact Hs1.
      * discriminate.
Qed.

(** A loop that raises, with [splits] enabled: the split it stopped at is
    the last one recorded. *)
Lemma for_splits_raise_splits self cr h l : forall lc w e w' l0,
  for_splits self cr h lc l w = (Raise e, w') ->
  isEnabled self "splits" = true ->
  st_splits (self_states w) = Some l0 ->
  exists pre split post (evs : list (nat * Res)) tail,
    l = pre ++ split :: post /\
    length evs = length pre /\
    trace w' = trace w ++ eval_events pre evs ++ tail /\
    (tail = [] \/
     exists te res, tail = [EvEval te (snd split) (fst split) res]) /\
    st_splits (self_states w') = Some (l0 ++ pre ++ [split]).
Proof.
  induction l as [|s l IH]; intros lc w e w' l0 H En Hs; simpl in H;
    [discriminate|].
  apply bind_inv in H as [(lc1 & w1 & Hp & H) | (e1 & Hp & He)].
  - pose proof (process_split_splits _ _ _ _ _ _ _ _ _ Hp En Hs) as Hs1.
    destruct (IH _ _ _ _ _ H En Hs1)
      as (pre & split & post & evs & tail & -> & Hlen & Ht & Htail & Hst).
    apply process_split_Ok in Hp as (te & result & _ & Tr & _).
    exists (s :: pre), split, post, ((te, result) :: evs), tail.
    repeat split; simpl; auto.
    + rewrite Ht, Tr, <- app_assoc. reflexivity.
    + rewrite Hst, <- app_assoc. reflexivity.
  - pose proof (process_split_splits _ _ _ _ _ _ _ _ _ Hp En Hs) as Hs1.
    exists [], s, l, [].
    apply process_split_cases in Hp
      as [(te & result & Tr) | [(Tr & _) | (te & e2 & Tr & _)]].
    + exists [EvEval te (snd s) (fst s) (Ok result)]. repeat split; eauto.
    + exists []. repeat split; auto. simpl. now rewrite app_nil_r.
    + exists [EvEval te (snd s) (fst s) (Raise e2)]. repeat split; eauto.
Qed.

(** X4.  With [splits] enabled, on every exit the [splits] state holds the
    splits the loop has started on, in the order of the splitter and
    without what the state held before.  When [_call] returns, or raises
    after the loop (no split at all, or the combiner raised), that is the
    whole sequence of the splitter; when the loop stopped at a split (the
    trace holds the evaluations of the splits before it and at most an
    evaluation of that split), it is the splits before it followed by that
    split itself. *)
Theorem X4_splits_state_is_a_prefix self dataset w o w' :
  _call self dataset w = (o, w') ->
  isEnabled self "splits" = true ->
  (forall v, o = Ok v ->
     st_splits (self_states w') = Some (splitter self dataset)) /\
  (forall e, o = Raise e ->
     (st_splits (self_states w') = Some (splitter self dataset) /\
      (splitter self dataset = [] \/
       exists evs : list (nat * Res),
         length evs = length (splitter self dataset) /\
         trace w' = trace w ++ eval_events (splitter self dataset) evs
                      ++ [EvCombine evs.*2])) \/
     (exists pre split post (evs : list (nat * Res)) tail,
         splitter self dataset = pre ++ split :: post /\
         length evs = length pre /\
         trace w' = trace w ++ eval_events pre evs ++ tail /\
         (tail = [] \/
          exists te res, tail = [EvEval te (snd split) (fst split) res]) /\
         st_splits (self_states w') = Some (pre ++ [split]))).
Proof.
  intros Hcall En.
  assert (st_splits (self_states (loop_start self dataset w)) = Some []) as Hs0.
  { rewrite loop_start_states. simpl. unfold assign. now rewrite En. }
  destruct (loop_start_refs self dataset w) as (_ & _ & Ht0).
  assert (forall lc w1, run_splits self dataset w = (Ok lc, w1) ->
            st_splits (self_states w') = Some (splitter self dataset))
    as Hafter.
  { intros lc w1 Hrun. pose proof Hcall as Hc.
    unfold _call in Hc. rewrite (bind_Ok _ _ _ _ _ Hrun) in Hc.
    rewrite run_splits_eq in Hrun.
    destruct (for_splits_splits _ _ _ _ _ _ _ _ _ Hrun En Hs0)
      as (k & _ & Hst & Hfull).
    rewrite (Hfull lc eq_refl), firstn_all in Hst. simpl in Hst.
    assert (preserves (same_on st_splits) (finish self dataset lc)) as Hp
      by (unfold finish, provide_labels_map; fields).
    pose proof (preserves_result _ _ _ _ _ Hp Hc) as Hk.
    unfold same_on in Hk. congruence. }
  destruct (run_splits self dataset w) as [[lc|e1] w1] eqn:Hrun.
  - split; [intros v _; eauto|].
    intros e ->. left. split; [eauto|].
    destruct (decide (splitter self dataset = [])) as [Hnil|Hne];
      [left; exact Hnil | right].
    destruct (call_after_loop _ _ _ _ _ Hrun Hne)
      as (te & w'' & _ & E & _ & _ & _ & _ & Ht).
    rewrite Hcall in E. inversion E as [[Hc Hw]]. subst w''.
    rewrite run_splits_eq in Hrun.
    apply for_splits_journal in Hrun as (evs & Hlen & Hres & _ & Htr & _).
    simpl in Hres. rewrite Ht0 in Htr.
    exists evs. rewrite <- Hres. split; [exact Hlen|].
    rewrite Ht, Htr, <- app_assoc. reflexivity.
  - rewrite (call_loop_raises _ _ _ _ _ Hrun) in Hcall.
    inversion Hcall; subst. split; [discriminate|].
    intros e Heq. inversion Heq; subst e1. right.
    rewrite run_splits_eq in Hrun.
    destruct (for_splits_raise_splits _ _ _ _ _ _ _ _ _ Hrun En Hs0)
      as (pre & split & post & evs & tail & Hl & Hlen & Htr & Htail & Hst).
    rewrite Ht0 in Htr.
    exists pre, split, post, evs, tail. auto.
Qed.

Lemma is_marked_last_iff split :
  is_marked_last split = true <-> marked_last split.
Proof.
  rewrite marked_last_spec.
  destruct split as [[training|] [testing|]]; simpl;
    try destruct (dsattr_lastsplit training) as [[]|];
    try destruct (dsattr_lastsplit testing) as [[]|];
    split; intros H; try discriminate; try reflexivity; try congruence;
    now destruct H.
Qed.

(** Line 203: a split processed to its end has appended its evaluator. *)
Lemma process_split_transerrors self cr h lc split w lc' w' l0 :
  process_split self cr h lc split w = (Ok lc', w') ->
  isEnabled self "transerrors" = true ->
  st_transerrors (self_states w) = Some l0 ->
  exists te, transerror lc' = Some te /\
    st_transerrors (self_states w') = Some (l0 ++ [te]).
Proof.
  intros H En Hs. unfold process_split in H.
  apply bind_Ok_inv in H as (te & w1 & Hb & H).
  apply bind_Ok_inv in H as (result & w2 & Hc & Ha).
  exists te. split.
  { apply after_evaluation_Ok in Ha. now subst. }
  assert (same_on st_transerrors w w1) as S1.
  { eapply (preserves_result (same_on st_transerrors)); [|exact Hb].
    unfold before_evaluation. fields. }
  assert (same_on st_transerrors w1 w2) as S2.
  { eapply (preserves_result (same_on st_transerrors)); [|exact Hc]. fields. }
  unfold after_evaluation in Ha. rewrite En in Ha.
  apply bind_Ok_inv in Ha as ([] & wa & Ea & Ha).
  apply bind_Ok_inv in Ha as ([] & wb & Eb & Ha).
  apply bind_Ok_inv in Ha as ([] & wc & Ec & Ha).
  assert (same_on st_transerrors w2 wa) as Sa
    by (eapply (preserves_result (same_on st_transerrors)); [|exact Ea]; fields).
  assert (same_on st_transerrors wa wb) as Sb
    by (eapply (preserves_result (same_on st_transerrors)); [|exact Eb]; fields).
  assert (st_transerrors (self_states wb) = Some l0) as Hb0
    by (unfold same_on in *; congruence).
  assert (st_transerrors (self_states wc) = Some (l0 ++ [te])) as Hc0.
  { revert Ec. simpl. unfold append_transerror, bind, read_state.
    rewrite Hb0. simpl. intros Ec. now inversion Ec. }
  match type of Ha with ?m wc = _ =>
    assert (preserves (same_on st_transerrors) m) as Hp by fields end.
  pose proof (preserves_result _ _ _ _ _ Hp Ha) as Hk.
  unfold same_on in Hk. congruence.
Qed.

Lemma for_splits_transerrors self cr h l : forall lc w lc' w' l0,
  for_splits self cr h lc l w = (Ok lc', w') ->
  isEnabled self "transerrors" = true ->
  st_transerrors (self_states w) = Some l0 ->
  st_transerrors (self_states w') =
    Some (l0 ++ evaluators (self_transerror w) (next_ref w) l) /\
  next_ref w' = (next_ref w + copies_needed l)%nat.
Proof.
  induction l as [|s l IH]; intros lc w lc' w' l0 H En Hs; simpl in H.
  - inversion H; subst. simpl. rewrite app_nil_r.
    unfold copies_needed. simpl. split; [exact Hs | lia].
  - apply bind_Ok_inv in H as (lc1 & w1 & Hp & H).
    destruct (process_split_transerrors _ _ _ _ _ _ _ _ _ Hp En Hs)
      as (te & Hte & Hs1).
    apply process_split_Ok in Hp
      as (te' & result & -> & _ & Hself & _ & _ & Hsel).
    simpl in Hte. inversion Hte; subst te'.
    destruct (IH _ _ _ _ _ H En Hs1) as (Hst & Hn).
    rewrite Hself in Hst. unfold copies_needed in *. simpl.
    destruct Hsel as [(-> & Hn1 & Hm) | (-> & Hn1 & _ & Hm)].
    + apply Hm, is_marked_last_iff in En. rewrite En. simpl.
      rewrite Hn1 in Hst, Hn. split; [|exact Hn].
      rewrite Hst, <- app_assoc. reflexivity.
    + assert (is_marked_last s = false) as Em.
      { destruct (is_marked_last s) eqn:Em; [|reflexivity].
        apply is_marked_last_iff in Em. now destruct Hm. }
      rewrite Em. simpl. rewrite Hn1 in Hst, Hn. split; [|lia].
      rewrite Hst, <- app_assoc. reflexivity.
Qed.

(** The evaluation events of a loop that ran to its end name the
    instances [evaluators] computes. *)
Lemma for_splits_evaluators self cr h l : forall lc w lc' w',
  for_splits self cr h lc l w = (Ok lc', w') ->
  isEnabled self "transerrors" = true ->
  exists evs : list (nat * Res),
    length evs = length l /\
    results lc' = results lc ++ evs.*2 /\
    trace w' = trace w ++ eval_events l evs /\
    evs.*1 = evaluators (self_transerror w) (next_ref w) l.
Proof.
  induction l as [|s l IH]; intros lc w lc' w' H En; simpl in H.
  - inversion H; subst. exists []. simpl. rewrite !app_nil_r. auto.
  - apply bind_Ok_inv in H as (lc1 & w1 & Hp & H).
    apply process_split_Ok in Hp
      as (te & result & -> & Tr & Hself & _ & _ & Hsel).
    destruct (IH _ _ _ _ H En) as (evs & Hlen & Hres & Htr & Hev).
    exists ((te, result) :: evs). simpl in *.
    split; [now rewrite Hlen|].
    split; [rewrite Hres, <- app_assoc; reflexivity|].
    split; [rewrite Htr, Tr, <- app_assoc; reflexivity|].
    change (te :: evs.*1 =
            evaluators (self_transerror w) (next_ref w) (s :: l)).
    rewrite Hev, Hself. simpl.
    destruct Hsel as [(-> & Hn1 & Hm) | (-> & Hn1 & _ & Hm)].
    + apply Hm, is_marked_last_iff in En. rewrite En, Hn1. reflexivity.
    + assert (is_marked_last s = false) as Em.
      { destruct (is_marked_last s) eqn:Em; [|reflexivity].
        apply is_marked_last_iff in Em. now destruct Hm. }
      rewrite Em, Hn1. reflexivity.
Qed.

Lemma is_marked_last_spec split :
  is_marked_last split = true <-> first_present_partition_is_marked split.
Proof. now rewrite is_marked_last_iff, marked_last_spec. Qed.

(** The engine's own instance for a split marked last; for any other a
    reference from [n] on, below [n] plus the number of such splits. *)
Lemma evaluators_shape mother l : forall n,
  Forall2 (fun split r =>
             if is_marked_last split then r = mother
             else (n <= r < n + copies_needed l)%nat)
    l (evaluators mother n l).
Proof.
  induction l as [|s l IH]; intros n; simpl; [constructor|].
  unfold copies_needed. simpl.
  destruct (is_marked_last s) eqn:Em; simpl; constructor.
  - now rewrite Em.
  - apply IH.
  - rewrite Em. lia.
  - eapply Forall2_impl; [apply (IH (S n))|].
    intros split r. unfold copies_needed.
    destruct (is_marked_last split); [auto | lia].
Qed.

Lemma evaluators_ge mother l : forall n r,
  r ∈ evaluators mother n l -> r = mother \/ (n <= r)%nat.
Proof.
  induction l as [|s l IH]; intros n r Hin; simpl in Hin.
  - now apply elem_of_nil in Hin.
  - destruct (is_marked_last s); apply elem_of_cons in Hin as [-> | Hin].
    + now left.
    + eauto.
    + right. lia.
    + destruct (IH _ _ Hin) as [-> | Hle]; [now left | right; lia].
Qed.

(** Two splits are evaluated by the same instance only when it is the
    engine's own. *)
Lemma evaluators_distinct mother l : forall n i j r,
  (mother < n)%nat -> (i < j)%nat ->
  evaluators mother n l !! i = Some r ->
  evaluators mother n l !! j = Some r ->
  r = mother.
Proof.
  induction l as [|s l IH]; intros n i j r Hwf Hij Hi Hj; simpl in *.
  - discriminate.
  - destruct j as [|j]; [lia|].
    destruct (is_marked_last s); simpl in *.
    + destruct i as [|i]; simpl in *; [congruence|].
      eapply (IH n i j); eauto; lia.
    + destruct i as [|i]; simpl in *.
      * inversion Hi; subst.
        apply list_elem_of_lookup_2, evaluators_ge in Hj as [-> | Hle];
          [reflexivity | lia].
      * eapply (IH (S n) i j); eauto; lia.
Qed.

(** X5.  With [transerrors] enabled, after a run that returns the
    [transerrors] state lists, in the order of the splits, the very
    instances that the evaluation events of the run name: the engine's own
    TransferError for each split whose first present partition carries a
    true 'lastsplit' marker and, for every other split, an object that did
    not exist before the run, numbered from the first unused reference on.
    Exactly one object was created per split not marked last; no such
    object is the engine's own, and none evaluated two splits. *)
Theorem X5_transerrors_state_lists_the_evaluators self dataset w v w' :
  (self_transerror w < next_ref w)%nat ->
  _call self dataset w = (Ok v, w') ->
  isEnabled self "transerrors" = true ->
  exists evs : list (nat * Res),
    length evs = length (splitter self dataset) /\
    trace w' = trace w ++ eval_events (splitter self dataset) evs
                 ++ [EvCombine evs.*2] /\
    st_transerrors (self_states w') = Some evs.*1 /\
    evs.*1 = evaluators (self_transerror w) (next_ref w)
               (splitter self dataset) /\
    next_ref w' = (next_ref w + copies_needed (splitter self dataset))%nat /\
    Forall2 (fun split r =>
               (first_present_partition_is_marked split ->
                r = self_transerror w) /\
               (~ first_present_partition_is_marked split ->
                r <> self_transerror w /\
                (next_ref w <= r < next_ref w')%nat))
      (splitter self dataset) evs.*1 /\
    (forall i j r, (i < j)%nat ->
       evs.*1 !! i = Some r -> evs.*1 !! j = Some r ->
       r = self_transerror w).
Proof.
  intros Hwf Hcall En.
  pose proof Hcall as H. unfold _call in H.
  apply bind_Ok_inv in H as (lc & w1 & Hrun & Hfin).
  destruct (decide (splitter self dataset = [])) as [Hnil|Hne].
  { rewrite (call_no_split _ _ _ Hnil) in Hcall. discriminate. }
  destruct (call_after_loop _ _ _ _ _ Hrun Hne)
    as (te & w'' & _ & E & _ & _ & _ & Hn & Ht).
  rewrite Hcall in E. inversion E as [[Hv Hw]]. subst w''.
  rewrite run_splits_eq in Hrun.
  assert (st_transerrors (self_states (loop_start self dataset w)) = Some [])
    as Hs0.
  { rewrite loop_start_states. simpl. unfold assign. now rewrite En. }
  destruct (for_splits_transerrors _ _ _ _ _ _ _ _ _ Hrun En Hs0) as (Hst & Hn1).
  destruct (for_splits_evaluators _ _ _ _ _ _ _ _ Hrun En)
    as (evs & Hlen & Hres & Htr & Hev).
  destruct (loop_start_refs self dataset w) as (Hself0 & Hn0 & Ht0).
  rewrite Hself0, Hn0 in Hst, Hev. rewrite Hn0 in Hn1. rewrite Ht0 in Htr.
  simpl in Hst, Hres.
  assert (next_ref w' =
          (next_ref w + copies_needed (splitter self dataset))%nat) as Hn'
    by congruence.
  exists evs. split; [exact Hlen|].
  split; [rewrite Ht, Htr, Hres, <- app_assoc; reflexivity|].
  split.
  { assert (preserves (same_on st_transerrors) (finish self dataset lc)) as Hp
      by (unfold finish, provide_labels_map; fields).
    pose proof (preserves_result _ _ _ _ _ Hp Hfin) as Hk.
    unfold same_on in Hk. rewrite Hk, Hst, Hev. reflexivity. }
  split; [exact Hev|]. split; [exact Hn'|]. split.
  - rewrite Hev, Hn'.
    eapply Forall2_impl;
      [apply (evaluators_shape (self_transerror w) (splitter self dataset)
                (next_ref w))|].
    intros split r Hr. simpl in Hr.
    destruct (is_marked_last split) eqn:Em.
    + split; [auto|]. intros Hnot. destruct Hnot.
      now apply is_marked_last_spec.
    + split; [|intros _; split; lia].
      intros Hm. apply is_marked_last_spec in Hm. congruence.
  - intros i j r Hij Hi Hj. rewrite Hev in Hi, Hj.
    eapply evaluators_distinct; eauto.
Qed.

End SplitsAndTranserrors.

(** ** Copies, untraining and the marker *)

Lemma same_enablement_refs {D : Domain} (w w' : World) :
  same_enablement w w' -> same_refs w w'.
Proof. intros (?&?&?). split; assumption. Qed.

#[global] Hint Extern 5 (preserves same_refs _) =>
  (eapply preserves_weaken; [apply @same_enablement_refs|]) : frames.

Section CopiesAndMarker.
Context {D : Domain} {C : Collaborators}.
Implicit Types (w : World) (self : Engine) (split : Split) (lc : Locals).

Lemma changeTemporarily_refs r names :
  preserves same_refs (_changeTemporarily r names).
Proof. intros w. split; reflexivity. Qed.

Lemma process_split_refs self cr h lc split :
  isEnabled self "transerrors" = false ->
  preserves same_refs (process_split self cr h lc split).
Proof.
  intros E. unfold process_split, before_evaluation, select_transerror.
  rewrite E.
  pose proof (after_evaluation_enablement self cr h lc split) as Ha.
  frame.
Qed.

(** X6.  With [transerrors] disabled [_call] makes no copy and does not
    untrain: on every exit no object has been created and the engine still
    holds the TransferError it was given; and the loop starts with that
    TransferError as the caller left it (its classifier, its internals, the
    values of its states), only its enablement overridden. *)
Theorem X6_without_transerrors_no_copy_no_untraining self dataset w :
  isEnabled self "transerrors" = false ->
  next_ref (snd (_call self dataset w)) = next_ref w /\
  self_transerror (snd (_call self dataset w)) = self_transerror w /\
  clf (heap (loop_start self dataset w) (self_transerror w))
    = clf (heap w (self_transerror w)) /\
  te_internal (heap (loop_start self dataset w) (self_transerror w))
    = te_internal (heap w (self_transerror w)) /\
  te_confusion (heap (loop_start self dataset w) (self_transerror w))
    = te_confusion (heap w (self_transerror w)) /\
  te_training_confusion (heap (loop_start self dataset w) (self_transerror w))
    = te_training_confusion (heap w (self_transerror w)) /\
  te_samples_error (heap (loop_start self dataset w) (self_transerror w))
    = te_samples_error (heap w (self_transerror w)).
Proof.
  intros E.
  assert (next_ref (snd (_call self dataset w)) = next_ref w /\
          self_transerror (snd (_call self dataset w)) = self_transerror w)
    as [Hn Hs].
  { destruct (loop_start_refs self dataset w) as (Hs0 & Hn0 & _).
    destruct (run_splits self dataset w) as [[lc|e] w1] eqn:Hrun.
    - destruct (decide (splitter self dataset = [])) as [Hnil|Hne].
      { rewrite (call_no_split _ _ _ Hnil). simpl. auto. }
      destruct (call_after_loop _ _ _ _ _ Hrun Hne)
        as (te & w' & Hte & Ecall & Hs & _ & _ & Hn & _).
      rewrite Ecall. simpl. rewrite run_splits_eq in Hrun.
      pose proof (preserves_result _ _ _ _ _
        (preserves_for_splits same_refs self _ _ _
           (fun lc split => process_split_refs self _ _ lc split E) _) Hrun)
        as [Hn1 _].
      apply for_splits_journal in Hrun
        as (evs & _ & _ & Hlast & _ & _ & _ & Hall).
      simpl in Hlast. rewrite Hte in Hlast.
      split; [congruence|]. rewrite Hs.
      destruct (last evs) as [x|] eqn:El; [|discriminate].
      inversion Hlast; subst te.
      apply Forall2_last in Hall. rewrite fmap_last, El in Hall. simpl in Hall.
      inversion Hall as [s r Hev|]; subst.
      destruct Hev as [[-> _] | (_ & En & _)]; congruence.
    - rewrite (call_loop_raises _ _ _ _ _ Hrun). simpl.
      rewrite run_splits_eq in Hrun.
      pose proof (preserves_result _ _ _ _ _
        (preserves_for_splits same_refs self _ _ _
           (fun lc split => process_split_refs self _ _ lc split E) _) Hrun)
        as [Hn1 Hs1].
      split; congruence. }
  split; [exact Hn|]. split; [exact Hs|].
  unfold loop_start, bind, charge_states. rewrite E. simpl.
  destruct (overrides self); simpl; rewrite ?store_eq; repeat split.
Qed.

(** X7.  With [transerrors] enabled the marker of the first present
    partition is read for every split: when the first split's first present
    partition carries no 'lastsplit' entry, [_call] raises [KeyError] before
    anything is evaluated or copied. *)
Theorem X7_missing_marker_raises_KeyError self dataset w split rest ds :
  splitter self dataset = split :: rest ->
  isEnabled self "transerrors" = true ->
  first_present split = Some ds ->
  dsattr_lastsplit ds = None ->
  fst (_call self dataset w) = Raise KeyError /\
  trace (snd (_call self dataset w)) = trace w /\
  next_ref (snd (_call self dataset w)) = next_ref w.
Proof.
  intros Hsp En Hfp Hm.
  destruct (loop_start_refs self dataset w) as (_ & Hn0 & Ht0).
  set (w0 := loop_start self dataset w) in *.
  assert (exists w1, when (isEnabled self "splits") (append_split split) w0
                     = (Ok tt, w1) /\ engine_only w0 w1) as (w1 & E1 & He).
  { destruct (isEnabled self "splits") eqn:Es; simpl.
    - assert (st_splits (self_states w0) = Some []) as Hs0.
      { subst w0. rewrite loop_start_states. simpl. unfold assign.
        now rewrite Es. }
      unfold append_split, bind, read_state. rewrite Hs0. simpl.
      eexists. split; [reflexivity|]. repeat split.
    - exists w0. split; [reflexivity|]. reflexivity. }
  assert (select_transerror self split w1 = (Raise KeyError, w1)) as E2.
  { unfold select_transerror, read_lastsplit, bind.
    rewrite En, Hfp, Hm. reflexivity. }
  assert (forall cr h lc,
             process_split self cr h lc split w0 = (Raise KeyError, w1)) as E3.
  { intros cr h lc. unfold process_split, before_evaluation.
    rewrite bind_assoc, (bind_Ok _ _ _ _ _ E1).
    rewrite bind_assoc, (bind_Raise _ _ _ _ _ E2). reflexivity. }
  assert (run_splits self dataset w = (Raise KeyError, w1)) as E4.
  { rewrite run_splits_eq, Hsp. simpl. fold w0.
    now rewrite (bind_Raise _ _ _ _ _ (E3 _ _ _)). }
  rewrite (call_loop_raises _ _ _ _ _ E4). simpl.
  destruct He as (_ & Hn & _ & Ht).
  repeat split; congruence.
Qed.

End CopiesAndMarker.

(** ** Per-sample errors *)

Section SamplesError.
Context {D : Domain} {C : Collaborators}.
Implicit Types (w : World) (self : Engine) (split : Split) (lc : Locals).

Lemma for_each_append_missing (items : list (Z * Err)) :
  forall w (m : gmap Z (list Err)),
    st_samples_error (self_states w) = Some m ->
    (exists k, k ∈ items.*1 /\ m !! k = None) ->
    fst (for_each append_sample_error items w) = Raise KeyError.
Proof.
  induction items as [|[k0 v] items IH]; intros w m Hm (k & Hin & Hk).
  - now apply elem_of_nil in Hin.
  - simpl. unfold bind, append_sample_error at 1. unfold bind, read_state.
    rewrite Hm. simpl.
    destruct (m !! k0) as [l|] eqn:El; simpl; [|reflexivity].
    eapply IH; [reflexivity|]. exists k. split.
    + simpl in Hin. apply elem_of_cons in Hin as [-> | Hin]; [congruence|].
      exact Hin.
    + rewrite lookup_insert_ne; [exact Hk | congruence].
Qed.

(** X8.  Lines 207-210 raise [KeyError] as soon as the TransferError
    reports a per-sample error for an identifier that is not a key of the
    engine's [samples_error], that is, not one of the dataset's origids. *)
Theorem X8_foreign_sample_id_raises_KeyError r w (m : gmap Z (list Err))
    items k :
  st_samples_error (self_states w) = Some m ->
  te_samples_error (heap w r) = Some items ->
  k ∈ items.*1 ->
  m !! k = None ->
  fst (pull_samples_error r w) = Raise KeyError.
Proof.
  intros Hm Hitems Hin Hk.
  unfold pull_samples_error, bind, read_state. rewrite Hitems. simpl.
  eapply for_each_append_missing; eauto.
Qed.

Lemma for_each_append_all (items : list (Z * Err)) :
  forall w (m : gmap Z (list Err)),
    st_samples_error (self_states w) = Some m ->
    NoDup items.*1 ->
    (forall k, k ∈ items.*1 -> is_Some (m !! k)) ->
    exists m' : gmap Z (list Err),
      fst (for_each append_sample_error items w) = Ok tt /\
      st_samples_error
        (self_states (snd (for_each append_sample_error items w))) = Some m' /\
      forall k v, (k, v) ∈ items ->
                  m' !! k = (fun l => l ++ [v]) <$> m !! k.
Proof.
  induction items as [|[k0 v0] items IH]; intros w m Hm Hnd Hall.
  - exists m. simpl. repeat split; auto. intros k v Hin.
    now apply elem_of_nil in Hin.
  - simpl in Hnd. apply NoDup_cons in Hnd as [Hk0 Hnd].
    destruct (Hall k0) as [l0 Hl0]; [simpl; apply list_elem_of_here|].
    set (w1 := with_self_states
                 (mkStates (st_results (self_states w))
                    (st_splits (self_states w))
                    (st_transerrors (self_states w))
                    (st_confusion (self_states w))
                    (st_training_confusion (self_states w))
                    (Some (<[k0:=l0 ++ [v0]]> m))) w).
    assert (append_sample_error (k0, v0) w = (Ok tt, w1)) as E1.
    { unfold append_sample_error, bind, read_state. rewrite Hm. simpl.
      rewrite Hl0. reflexivity. }
    destruct (IH w1 (<[k0:=l0 ++ [v0]]> m)) as (m' & Hok & Hm' & Hl);
      [reflexivity | exact Hnd | |].
    { intros k Hin. destruct (decide (k = k0)) as [->|Hne].
      - rewrite lookup_insert_eq. eauto.
      - rewrite lookup_insert_ne by congruence. apply Hall.
        simpl. now apply list_elem_of_further. }
    destruct (for_each_append_lookup k0 items w1 (<[k0:=l0 ++ [v0]]> m))
      as (m'' & Hm'' & Hl''); [reflexivity | exact Hk0 |].
    rewrite Hm' in Hm''. inversion Hm''; subst m''.
    exists m'. simpl. rewrite (bind_Ok _ _ _ _ _ E1).
    split; [exact Hok|]. split; [exact Hm'|].
    intros k v Hin. apply elem_of_cons in Hin as [Heq | Hin].
    + inversion Heq; subst. rewrite Hl'', lookup_insert_eq, Hl0. reflexivity.
    + rewrite (Hl _ _ Hin).
      assert (k <> k0) as Hne.
      { intros ->. apply Hk0. apply list_elem_of_fmap. exists (k0, v). auto. }
      rewrite lookup_insert_ne by congruence. reflexivity.
Qed.

(** X9.  Lines 207-210 on a fold whose per-sample errors mention only
    identifiers of the dataset (each once, as the items of a dictionary):
    they end normally and the sequence of each mentioned identifier has
    gained that fold's value at its end. *)
Theorem X9_sample_errors_are_appended r w (m : gmap Z (list Err)) items :
  st_samples_error (self_states w) = Some m ->
  te_samples_error (heap w r) = Some items ->
  NoDup items.*1 ->
  (forall k, k ∈ items.*1 -> is_Some (m !! k)) ->
  exists m' : gmap Z (list Err),
    fst (pull_samples_error r w) = Ok tt /\
    st_samples_error (self_states (snd (pull_samples_error r w))) = Some m' /\
    forall k v, (k, v) ∈ items -> m' !! k = (fun l => l ++ [v]) <$> m !! k.
Proof.
  intros Hm Hitems Hnd Hall.
  unfold pull_samples_error, bind, read_state. rewrite Hitems. simpl.
  now apply for_each_append_all.
Qed.

End SamplesError.

(** ** The confusion summaries *)

Section Confusion.
Context {D : Domain} {C : Collaborators}.
Implicit Types (w : World) (self : Engine) (split : Split) (lc : Locals).

Ltac step_same_on f H :=
  match type of H with
  | ?m ?w = (_, ?w') =>
      let S := fresh "S" in
      assert (same_on f w w') as S
        by (eapply (preserves_result (same_on f)); [|exact H]; fields)
  end.

Ltac step_engine_only H :=
  match type of H with
  | ?m ?w = (_, ?w') =>
      let S := fresh "G" in
      assert (engine_only w w') as S
        by (eapply (preserves_result engine_only); [|exact H]; frame)
  end.

(** Lines 213-216 for [confusion] on a split processed to its end. *)
Lemma process_split_confusion self cr h lc split w lc' w' acc :
  process_split self cr h lc split w = (Ok lc', w') ->
  isEnabled self "confusion" = true ->
  st_confusion (self_states w) = Some acc ->
  exists te v, transerror lc' = Some te /\
    te_confusion (heap w' te) = Some v /\
    st_confusion (self_states w') = Some (summary_iadd acc v).
Proof.
  intros H En Hs. unfold process_split in H.
  apply bind_Ok_inv in H as (te & w1 & Hb & H).
  apply bind_Ok_inv in H as (result & w2 & Hc & Ha).
  exists te.
  assert (transerror lc' = Some te) as Hte
    by (apply after_evaluation_Ok in Ha; now subst).
  assert (same_on st_confusion w w1) as S1.
  { eapply (preserves_result (same_on st_confusion)); [|exact Hb].
    unfold before_evaluation. fields. }
  step_same_on (@st_confusion D) Hc.
  unfold after_evaluation in Ha. rewrite En in Ha.
  apply bind_Ok_inv in Ha as ([] & wa & Ea & Ha).
  apply bind_Ok_inv in Ha as ([] & wb & Eb & Ha).
  apply bind_Ok_inv in Ha as ([] & wc & Ec & Ha).
  apply bind_Ok_inv in Ha as ([] & wd & Ed & Ha).
  apply bind_Ok_inv in Ha as ([] & we & Ee & Ha).
  apply bind_Ok_inv in Ha as ([] & wf & Ef & Ha).
  inversion Ha; subst wf lc'; clear Ha.
  step_same_on (@st_confusion D) Ea. step_same_on (@st_confusion D) Eb.
  step_same_on (@st_confusion D) Ec. step_same_on (@st_confusion D) Ed.
  step_same_on (@st_confusion D) Ef. step_engine_only Ef.
  assert (st_confusion (self_states wd) = Some acc) as Hd
    by (unfold same_on in *; congruence).
  revert Ee. simpl. unfold pull_confusion, bind, read_state.
  rewrite Hd. simpl.
  destruct (te_confusion (heap wd te)) as [v|] eqn:Ev; simpl; [|discriminate].
  intros Ee. inversion Ee; subst we; clear Ee.
  exists v. split; [exact Hte|].
  destruct G as (Hh & _). unfold same_on in *. simpl in *.
  rewrite Hh. split; [exact Ev | congruence].
Qed.

(** Lines 213-216 for [training_confusion]. *)
Lemma process_split_training_confusion self cr h lc split w lc' w' acc :
  process_split self cr h lc split w = (Ok lc', w') ->
  isEnabled self "training_confusion" = true ->
  st_training_confusion (self_states w) = Some acc ->
  exists te v, transerror lc' = Some te /\
    te_training_confusion (heap w' te) = Some v /\
    st_training_confusion (self_states w') = Some (summary_iadd acc v).
Proof.
  intros H En Hs. unfold process_split in H.
  apply bind_Ok_inv in H as (te & w1 & Hb & H).
  apply bind_Ok_inv in H as (result & w2 & Hc & Ha).
  exists te.
  assert (transerror lc' = Some te) as Hte
    by (apply after_evaluation_Ok in Ha; now subst).
  assert (same_on st_training_confusion w w1) as S1.
  { eapply (preserves_result (same_on st_training_confusion)); [|exact Hb].
    unfold before_evaluation. fields. }
  step_same_on (@st_training_confusion D) Hc.
  unfold after_evaluation in Ha. rewrite En in Ha.
  apply bind_Ok_inv in Ha as ([] & wa & Ea & Ha).
  apply bind_Ok_inv in Ha as ([] & wb & Eb & Ha).
  apply bind_Ok_inv in Ha as ([] & wc & Ec & Ha).
  apply bind_Ok_inv in Ha as ([] & wd & Ed & Ha).
  apply bind_Ok_inv in Ha as ([] & we & Ee & Ha).
  apply bind_Ok_inv in Ha as ([] & wf & Ef & Ha).
  inversion Ha; subst wf lc'; clear Ha.
  step_same_on (@st_training_confusion D) Ea.
  step_same_on (@st_training_confusion D) Eb.
  step_same_on (@st_training_confusion D) Ec.
  step_same_on (@st_training_confusion D) Ed.
  step_same_on (@st_training_confusion D) Ee.
  assert (st_training_confusion (self_states we) = Some acc) as Hd
    by (unfold same_on in *; congruence).
  revert Ef. simpl. unfold pull_training_confusion, bind, read_state.
  rewrite Hd. simpl.
  destruct (te_training_confusion (heap we te)) as [v|] eqn:Ev; simpl;
    [|discriminate].
  intros Ef. inversion Ef; subst w'; clear Ef.
  exists v. split; [exact Hte|]. simpl. split; [exact Ev | reflexivity].
Qed.

(** X10.  Each split processed to its end adds to the engine's running
    [confusion] (and likewise [training_confusion]), when enabled, the
    summary that the evaluating instance holds after its evaluation, with
    [__iadd__], the running total as its left operand. *)
Theorem X10_each_fold_adds_its_confusion self cr h lc split w lc' w' :
  process_split self cr h lc split w = (Ok lc', w') ->
  (forall acc,
      isEnabled self "confusion" = true ->
      st_confusion (self_states w) = Some acc ->
      exists te v, transerror lc' = Some te /\
        te_confusion (heap w' te) = Some v /\
        st_confusion (self_states w') = Some (summary_iadd acc v)) /\
  (forall acc,
      isEnabled self "training_confusion" = true ->
      st_training_confusion (self_states w) = Some acc ->
      exists te v, transerror lc' = Some te /\
        te_training_confusion (heap w' te) = Some v /\
        st_training_confusion (self_states w') = Some (summary_iadd acc v)).
Proof.
  intros H. split; intros acc En Hs.
  - eapply process_split_confusion; eauto.
  - eapply process_split_training_confusion; eauto.
Qed.

Lemma fold_by_fold_length self cr h f lc w l vs w' :
  fold_by_fold self cr h f lc w l vs w' -> length vs = length l.
Proof. induction 1; simpl; congruence. Qed.

Lemma for_splits_confusion self cr h l : forall lc w lc' w' acc,
  for_splits self cr h lc l w = (Ok lc', w') ->
  isEnabled self "confusion" = true ->
  st_confusion (self_states w) = Some acc ->
  exists vs, fold_by_fold self cr h te_confusion lc w l vs w' /\
    st_confusion (self_states w') = Some (foldl summary_iadd acc vs).
Proof.
  induction l as [|s l IH]; intros lc w lc' w' acc H En Hs; simpl in H.
  - inversion H; subst. exists []. split; [constructor | exact Hs].
  - apply bind_Ok_inv in H as (lc1 & w1 & Hp & H).
    destruct (process_split_confusion _ _ _ _ _ _ _ _ _ Hp En Hs)
      as (te & v & Hte & Hv & Hs1).
    destruct (IH _ _ _ _ _ H En Hs1) as (vs & Hrun & Hst).
    exists (v :: vs). split; [econstructor; eauto | exact Hst].
Qed.

Lemma for_splits_training_confusion self cr h l : forall lc w lc' w' acc,
  for_splits self cr h lc l w = (Ok lc', w') ->
  isEnabled self "training_confusion" = true ->
  st_training_confusion (self_states w) = Some acc ->
  exists vs, fold_by_fold self cr h te_training_confusion lc w l vs w' /\
    st_training_confusion (self_states w') = Some (foldl summary_iadd acc vs).
Proof.
  induction l as [|s l IH]; intros lc w lc' w' acc H En Hs; simpl in H.
  - inversion H; subst. exists []. split; [constructor | exact Hs].
  - apply bind_Ok_inv in H as (lc1 & w1 & Hp & H).
    destruct (process_split_training_confusion _ _ _ _ _ _ _ _ _ Hp En Hs)
      as (te & v & Hte & Hv & Hs1).
    destruct (IH _ _ _ _ _ H En Hs1) as (vs & Hrun & Hst).
    exists (v :: vs). split; [econstructor; eauto | exact Hst].
Qed.

(** X11.  When the loop has run to its end, the engine's [confusion] (and
    likewise [training_confusion]), when enabled, is a fresh summary of the
    classifier's summary class to which the summaries [vs] have been added
    in order, where [vs] holds, split by split in the order of the splitter,
    the summary of the instance that evaluated that split, as it is when the
    processing of that split ends: one addition per split, of that split's
    own summary; what the state held before the run is gone. *)
Theorem X11_confusion_is_one_addition_per_fold self dataset w lc w1 :
  run_splits self dataset w = (Ok lc, w1) ->
  (isEnabled self "confusion" = true ->
   exists vs,
     fold_by_fold self (self_transerror w)
       (bool_decide (is_Some (slot w (self_transerror w)))) te_confusion
       (mkLocals [] None) (loop_start self dataset w)
       (splitter self dataset) vs w1 /\
     length vs = length (splitter self dataset) /\
     st_confusion (self_states w1) =
     Some (foldl summary_iadd
             (summaryClass (clf (heap w (self_transerror w)))) vs)) /\
  (isEnabled self "training_confusion" = true ->
   exists vs,
     fold_by_fold self (self_transerror w)
       (bool_decide (is_Some (slot w (self_transerror w))))
       te_training_confusion
       (mkLocals [] None) (loop_start self dataset w)
       (splitter self dataset) vs w1 /\
     length vs = length (splitter self dataset) /\
     st_training_confusion (self_states w1) =
     Some (foldl summary_iadd
             (summaryClass (clf (heap w (self_transerror w)))) vs)).
Proof.
  intros Hrun. rewrite run_splits_eq in Hrun. split; intros En.
  - destruct (for_splits_confusion _ _ _ _ _ _ _ _
                (summaryClass (clf (heap w (self_transerror w)))) Hrun En)
      as (vs & Hf & Hst).
    { rewrite loop_start_states. simpl. unfold assign. now rewrite En. }
    exists vs. split; [exact Hf|]. split; [|exact Hst].
    eapply fold_by_fold_length; eauto.
  - destruct (for_splits_training_confusion _ _ _ _ _ _ _ _
                (summaryClass (clf (heap w (self_transerror w)))) Hrun En)
      as (vs & Hf & Hst).
    { rewrite loop_start_states. simpl. unfold assign. now rewrite En. }
    exists vs. split; [exact Hf|]. split; [|exact Hst].
    eapply fold_by_fold_length; eauto.
Qed.

(** X12.  Lines 233-240 are one [try]: they leave every state as it is
    when the dataset has no label map, and also when attaching to
    [confusion] raises, in which case [training_confusion] is not given the
    label map either; when both attachments succeed both summaries carry
    it. *)
Theorem X12_label_map_attachment self dataset w :
  (labels_map dataset = None ->
   snd (provide_labels_map self dataset w) = w) /\
  (forall acc lm e,
      isEnabled self "confusion" = true ->
      st_confusion (self_states w) = Some acc ->
      labels_map dataset = Some lm ->
      set_labels_map acc lm = Raise e ->
      snd (provide_labels_map self dataset w) = w) /\
  (forall acc tacc lm acc' tacc',
      isEnabled self "confusion" = true ->
      isEnabled self "training_confusion" = true ->
      st_confusion (self_states w) = Some acc ->
      st_training_confusion (self_states w) = Some tacc ->
      labels_map dataset = Some lm ->
      set_labels_map acc lm = Ok acc' ->
      set_labels_map tacc lm = Ok tacc' ->
      st_confusion (self_states (snd (provide_labels_map self dataset w)))
        = Some acc' /\
      st_training_confusion
        (self_states (snd (provide_labels_map self dataset w))) = Some tacc').
Proof.
  split; [|split].
  - intros Hl. unfold provide_labels_map, try_except_pass, bind, when,
      attach_confusion, attach_training_confusion, bind, read_state.
    rewrite Hl. unfold ret, raise.
    destruct (isEnabled self "confusion"),
      (isEnabled self "training_confusion"); cbn;
      destruct (st_confusion (self_states w)); cbn;
      try destruct (st_training_confusion (self_states w)); cbn;
      reflexivity.
  - intros acc lm e En Hs Hl Hset.
    unfold provide_labels_map, try_except_pass, bind, when,
      attach_confusion, bind, read_state.
    rewrite En, Hs, Hl. simpl. rewrite Hset. reflexivity.
  - intros acc tacc lm acc' tacc' En Ent Hs Hts Hl Hset Htset.
    unfold provide_labels_map, try_except_pass, bind, when,
      attach_confusion, attach_training_confusion, bind, read_state.
    rewrite En, Ent, Hs, Hl. simpl. rewrite Hset. simpl.
    rewrite Hts. simpl. rewrite Htset. simpl. auto.
Qed.

End Confusion.

(** ** Exposure on the normal path, and the harvest *)

Section ExposureAndHarvest.
Context {D : Domain} {C : Collaborators}.
Implicit Types (w : World) (self : Engine) (split : Split) (lc : Locals).

Lemma process_split_unbinds self cr lc split w lc' w' :
  expose_testdataset self = true ->
  process_split self cr true lc split w = (Ok lc', w') ->
  slot w' cr = Some None.
Proof.
  intros Hx H. unfold process_split in H.
  apply bind_Ok_inv in H as (te & w1 & _ & H).
  apply bind_Ok_inv in H as (result & w2 & _ & Ha).
  now apply after_evaluation_unbinds in Ha as [Hs _].
Qed.

Lemma for_splits_unbinds self cr l : forall lc w lc' w',
  expose_testdataset self = true ->
  for_splits self cr true lc l w = (Ok lc', w') ->
  l <> [] ->
  slot w' cr = Some None.
Proof.
  induction l as [|s l IH]; intros lc w lc' w' Hx H Hne; [congruence|].
  simpl in H. apply bind_Ok_inv in H as (lc1 & w1 & Hp & H).
  destruct l as [|s' l].
  - simpl in H. inversion H; subst. eapply process_split_unbinds; eauto.
  - eapply IH; eauto; discriminate.
Qed.

(** A split processed to its end while the attribute of the classifier
    bound to [clf] held [None]: afterwards it holds [None] again, and so
    does the attribute of the classifier of the evaluating instance, be it
    the engine's own or a copy made from it. *)
Lemma process_split_slot_none self lc split w lc' w' :
  expose_testdataset self = true ->
  slot w (self_transerror w) = Some None ->
  process_split self (self_transerror w) true lc split w = (Ok lc', w') ->
  exists te, transerror lc' = Some te /\
    slot w' te = Some None /\
    slot w' (self_transerror w) = Some None /\
    self_transerror w' = self_transerror w.
Proof.
  intros Hx Hnone H.
  pose proof H as Hp. apply process_split_Ok in Hp
    as (te0 & result0 & Hlc & _ & Hself & _).
  unfold process_split in H.
  apply bind_Ok_inv in H as (te & w1 & Hb & H).
  apply bind_Ok_inv in H as (result & w2 & Hc & Ha).
  exists te.
  assert (transerror lc' = Some te) as Hte
    by (apply after_evaluation_Ok in Ha; now subst).
  split; [exact Hte|].
  pose proof (preserves_result _ _ _ _ _
                (call_transerror_slots te (snd split) (fst split)) Hc) as Sc.
  apply (after_evaluation_unbinds _ _ _ _ _ _ _ _ _ Hx) in Ha as [Hcr Hoth].
  split; [|split; [exact Hcr | exact Hself]].
  destruct (decide (te = self_transerror w)) as [->|Hne]; [exact Hcr|].
  rewrite (Hoth _ Hne), Sc.
  apply before_evaluation_inv in Hb
    as (w0 & ws & (Hh & Hn & Hs & _) & Hsel & Hset).
  rewrite Hx in Hset. simpl in Hset.
  destruct (set_testdataset_spec (self_transerror w) (snd split) ws)
    as (w1' & E & _ & Hother & _).
  rewrite E in Hset. inversion Hset; subst w1'.
  unfold slot. rewrite (Hother _ Hne).
  apply select_transerror_spec in Hsel
    as [(-> & -> & _) | (-> & _ & _ & ->)].
  - rewrite Hs in Hne. now destruct Hne.
  - simpl. rewrite store_eq, Hh, Hs. exact Hnone.
Qed.

Lemma for_splits_slot_none self l : forall lc w lc' w',
  expose_testdataset self = true ->
  slot w (self_transerror w) = Some None ->
  for_splits self (self_transerror w) true lc l w = (Ok lc', w') ->
  l <> [] ->
  exists te, transerror lc' = Some te /\ slot w' te = Some None.
Proof.
  induction l as [|s l IH]; intros lc w lc' w' Hx Hnone H Hne; [congruence|].
  simpl in H. apply bind_Ok_inv in H as (lc1 & w1 & Hp & H).
  destruct (process_split_slot_none _ _ _ _ _ _ Hx Hnone Hp)
    as (te & Hte & Hs1 & Hm1 & Hself).
  destruct l as [|s' l].
  - simpl in H. inversion H; subst. eauto.
  - rewrite <- Hself in H, Hm1.
    exact (IH _ _ _ _ Hx Hm1 H ltac:(discriminate)).
Qed.

(** X13.  With [expose_testdataset] enabled and a classifier that has a
    [testdataset] attribute.  Whenever the evaluating instance is the
    engine's own ([transerrors] disabled, or a split whose first present
    partition is marked last), its classifier holds the split's test
    partition when the evaluation starts.  After a run that returns, the
    attribute of the classifier bound to [clf] at line 131, which is the
    classifier of the TransferError the engine had when the run started, is
    [None]; the classifier of the instance the engine retains is that very
    classifier when [transerrors] is disabled, and when the attribute held
    [None] before the run the attribute of the classifier of the retained
    instance is [None] too, even if that instance is a copy. *)
Theorem X13_exposure_on_the_normal_path self dataset w :
  expose_testdataset self = true ->
  (forall split w0 te w1,
      isEnabled self "transerrors" = false \/
        first_present_partition_is_marked split ->
      before_evaluation self (self_transerror w0) true split w0 = (Ok te, w1) ->
      te = self_transerror w0 /\ slot w1 te = Some (snd split)) /\
  (forall v w',
      is_Some (slot w (self_transerror w)) ->
      _call self dataset w = (Ok v, w') ->
      slot w' (self_transerror w) = Some None /\
      (isEnabled self "transerrors" = false ->
       self_transerror w' = self_transerror w) /\
      (slot w (self_transerror w) = Some None ->
       slot w' (self_transerror w') = Some None)).
Proof.
  intros Hx. split.
  - intros split w0 te w1 Hown Hb.
    apply before_evaluation_inv in Hb
      as (wa & ws & (Hh & Hn & Hs & _) & Hsel & Hset).
    rewrite Hx in Hset. simpl in Hset.
    destruct (set_testdataset_spec (self_transerror w0) (snd split) ws)
      as (w1' & E & Hslot & _).
    rewrite E in Hset. inversion Hset; subst w1'.
    apply select_transerror_spec in Hsel
      as [(-> & _ & _) | (_ & En & Hnot & _)].
    + rewrite Hs. split; [reflexivity | exact Hslot].
    + destruct Hown as [Hd | Hm]; [congruence|].
      destruct Hnot. now apply marked_last_spec.
  - intros v w' Hslot Hcall.
    pose proof Hcall as H. unfold _call in H.
    apply bind_Ok_inv in H as (lc & w1 & Hrun & _).
    destruct (decide (splitter self dataset = [])) as [Hnil|Hne].
    { rewrite (call_no_split _ _ _ Hnil) in Hcall. discriminate. }
    destruct (call_after_loop _ _ _ _ _ Hrun Hne)
      as (te & w'' & Hte & E & Hret & _ & Hsl & _).
    rewrite Hcall in E. inversion E as [[Hv Hw]]. subst w''.
    rewrite run_splits_eq in Hrun.
    rewrite bool_decide_eq_true_2 in Hrun by exact Hslot.
    split; [|split].
    + rewrite Hsl. eapply for_splits_unbinds; eauto.
    + intros En.
      destruct (call_Ok_journal _ _ _ _ _ Hcall)
        as (evs & _ & _ & _ & Hlast & Hall).
      destruct (last (splitter self dataset)) as [split|] eqn:El.
      2:{ apply last_None in El. contradiction. }
      apply Forall2_last in Hall. rewrite El, Hlast in Hall.
      inversion Hall as [? ? Hev|]; subst.
      destruct Hev as [[Heq _] | (_ & En' & _)]; congruence.
    + intros Hnone.
      destruct (loop_start_refs self dataset w) as (Hs0 & _ & _).
      pose proof (loop_start_slots self dataset w (self_transerror w)) as Hl0.
      rewrite <- Hs0 in Hrun.
      destruct (for_splits_slot_none _ _ _ _ _ _ Hx
                  ltac:(rewrite Hs0, Hl0; exact Hnone) Hrun Hne)
        as (te' & Hte' & Hs').
      rewrite Hsl, Hret. congruence.
Qed.

Ltac harvest_step :=
  intros ?; unfold same_harvested, bind, read_state, modify, raise, ret; simpl;
  repeat (match goal with
          | |- context [match ?x with Some _ => _ | None => _ end] =>
              destruct x
          | |- context [match ?x with Ok _ => _ | Raise _ => _ end] =>
              destruct x
          | |- context [let (_, _) := ?x in _] => destruct x
          end; simpl);
  reflexivity.

Lemma append_split_harvested split : preserves same_harvested (append_split split).
Proof. unfold append_split. harvest_step. Qed.

Lemma append_transerror_harvested r :
  preserves same_harvested (append_transerror r).
Proof. unfold append_transerror. harvest_step. Qed.

Lemma pull_confusion_harvested r : preserves same_harvested (pull_confusion r).
Proof. unfold pull_confusion. harvest_step. Qed.

Lemma pull_training_confusion_harvested r :
  preserves same_harvested (pull_training_confusion r).
Proof. unfold pull_training_confusion. harvest_step. Qed.

Lemma append_sample_error_harvested kv :
  preserves same_harvested (append_sample_error kv).
Proof. unfold append_sample_error, put_samples_error. harvest_step. Qed.

Lemma pull_samples_error_harvested r :
  preserves same_harvested (pull_samples_error r).
Proof.
  unfold pull_samples_error. apply preserves_bind; [typeclasses eauto | |].
  - apply preserves_read. typeclasses eauto.
  - intros items. apply preserves_for_each; [typeclasses eauto|].
    apply append_sample_error_harvested.
Qed.

Lemma set_testdataset_harvested r v :
  preserves same_harvested (set_testdataset r v).
Proof. intros w. reflexivity. Qed.

Lemma call_transerror_harvested r test train :
  preserves same_harvested (call_transerror r test train).
Proof. intros w. reflexivity. Qed.

Lemma select_transerror_harvested self split :
  preserves same_harvested (select_transerror self split).
Proof.
  intros w. unfold select_transerror, read_lastsplit, bind.
  destruct (isEnabled self "transerrors"); [|reflexivity].
  destruct (first_present split) as [ds|]; simpl.
  - destruct (dsattr_lastsplit ds) as [[]|]; reflexivity.
  - reflexivity.
Qed.

(** X14.  Line 198: a split processed to its end has been harvested
    exactly once, after its evaluation and the unbinding of the test
    partition and before its result joins [results]: Harvestable is given
    the split, the evaluating instance as it then is, the result, and the
    results of the earlier splits only. *)
Theorem X14_each_fold_is_harvested_once self cr h lc split w lc' w' :
  process_split self cr h lc split w = (Ok lc', w') ->
  exists te result,
    lc' = mkLocals (results lc ++ [result]) (Some te) /\
    harvested w' =
      harvest_fx (harvested w) split (heap w' te) result (results lc).
Proof.
  intros H. unfold process_split in H.
  apply bind_Ok_inv in H as (te & w1 & Hb & H).
  apply bind_Ok_inv in H as (result & w2 & Hc & Ha).
  exists te, result. split; [eapply after_evaluation_Ok; eauto|].
  pose proof append_split_harvested. pose proof select_transerror_harvested.
  pose proof set_testdataset_harvested. pose proof call_transerror_harvested.
  pose proof append_transerror_harvested.
  pose proof pull_samples_error_harvested. pose proof pull_confusion_harvested.
  pose proof pull_training_confusion_harvested.
  assert (same_harvested w w1) as S1.
  { eapply (preserves_result same_harvested); [|exact Hb].
    unfold before_evaluation. frame. }
  assert (same_harvested w1 w2) as S2.
  { eapply (preserves_result same_harvested); [|exact Hc]. auto. }
  unfold after_evaluation in Ha.
  apply bind_Ok_inv in Ha as ([] & wa & Ea & Ha).
  apply bind_Ok_inv in Ha as ([] & wb & Eb & Ha).
  assert (same_harvested w2 wa) as Sa.
  { eapply (preserves_result same_harvested); [|exact Ea]. frame. }
  match type of Ha with ?m wb = _ =>
    assert (preserves same_harvested m) as Hp by frame;
    assert (preserves engine_only m) as Hq by frame end.
  pose proof (preserves_result _ _ _ _ _ Hp Ha) as Sc.
  pose proof (preserves_result _ _ _ _ _ Hq Ha) as (Hh & _).
  unfold _harvest, modify in Eb. inversion Eb; subst wb; clear Eb.
  unfold same_harvested in *. simpl in *.
  rewrite Sc, Hh. congruence.
Qed.

End ExposureAndHarvest.

(** ** The copies keep the temporary enablement *)

Section CopiesKeepTheOverride.
Context {D : Domain} {C : Collaborators}.
Implicit Types (w : World) (self : Engine) (split : Split) (lc : Locals).

Lemma for_splits_enablement_kept self cr h l : forall lc w lc' w',
  for_splits self cr h lc l w = (Ok lc', w') ->
  forall r,
    enablement (heap w r) = enablement (heap w (self_transerror w)) ->
    enablement (heap w' r) = enablement (heap w (self_transerror w)).
Proof.
  induction l as [|s l IH]; intros lc w lc' w' H r Hr; simpl in H.
  - now inversion H; subst.
  - apply bind_Ok_inv in H as (lc1 & w1 & Hp & H).
    apply process_split_Ok in Hp
      as (te & result & -> & _ & Hs & Ete & Eother & _).
    assert (forall r', enablement (heap w r') =
                         enablement (heap w (self_transerror w)) ->
                       enablement (heap w1 r') =
                         enablement (heap w (self_transerror w))) as Hk.
    { intros r' Hr'. destruct (decide (r' = te)) as [->|Hd]; [exact Ete|].
      now rewrite Eother. }
    pose proof (Hk _ eq_refl) as Em.
    pose proof (IH _ _ _ _ H r) as IHr. rewrite Hs, Em in IHr.
    apply IHr, Hk, Hr.
Qed.

Lemma for_splits_copies_enablement self cr h l : forall lc w lc' w',
  for_splits self cr h lc l w = (Ok lc', w') ->
  forall r, (next_ref w <= r < next_ref w')%nat ->
    enablement (heap w' r) = enablement (heap w (self_transerror w)).
Proof.
  induction l as [|s l IH]; intros lc w lc' w' H r Hr; simpl in H.
  - inversion H; subst. lia.
  - apply bind_Ok_inv in H as (lc1 & w1 & Hp & H).
    apply process_split_Ok in Hp
      as (te & result & -> & _ & Hs & Ete & Eother & Hsel).
    assert (enablement (heap w1 (self_transerror w1)) =
            enablement (heap w (self_transerror w))) as Em.
    { rewrite Hs. destruct (decide (self_transerror w = te)) as [Heq|Hd];
        [rewrite Heq at 1; exact Ete | now rewrite Eother]. }
    destruct (decide (next_ref w1 <= r)%nat) as [Hge|Hlt].
    + rewrite <- Em. eapply IH; [exact H | lia].
    + assert (r = te) as ->
        by (destruct Hsel as [(_ & Hn & _) | (-> & Hn & _)]; lia).
      rewrite <- Em.
      eapply for_splits_enablement_kept; [exact H | congruence].
Qed.

Lemma finish_others self dataset lc w o w' te :
  finish self dataset lc w = (o, w') ->
  transerror lc = Some te ->
  forall r, r <> te -> heap w' r = heap w r.
Proof.
  intros H Hte r Hr. unfold finish, bind_last_used in H. rewrite Hte in H.
  set (tail := store_results self (results lc) ;;;
               provide_labels_map self dataset ;;;
               call_combiner self (results lc)) in *.
  destruct (negb (bool_decide (length (terr_enable_of self) = 0%nat))).
  - destruct (te_stored (heap w te)) as [|en rest] eqn:Est.
    + unfold bind, modify, ret, when, _resetEnabledTemporarily in H.
      simpl in H. rewrite Est in H. now inversion H; subst.
    + set (w0 := with_heap (store te
                     (mkTransferError (clf (heap w te)) en rest
                        (te_confusion (heap w te))
                        (te_training_confusion (heap w te))
                        (te_samples_error (heap w te))
                        (te_internal (heap w te)))
                     (heap w)) (with_self_transerror te w)).
      assert (tail w0 = (o, w')) as Ht.
      { rewrite <- H. unfold bind at 1 2 3, modify, ret, when,
          _resetEnabledTemporarily. simpl. rewrite Est. reflexivity. }
      destruct (finish_tail self dataset (results lc) w0) as (w2 & E & Hh & _).
      fold tail in E. rewrite E in Ht. inversion Ht; subst w2.
      rewrite Hh. subst w0. simpl. now apply store_ne.
  - assert (tail (with_self_transerror te w) = (o, w')) as Ht.
    { rewrite <- H. reflexivity. }
    destruct (finish_tail self dataset (results lc) (with_self_transerror te w))
      as (w2 & E & Hh & _).
    fold tail in E. rewrite E in Ht. inversion Ht; subst w2. now rewrite Hh.
Qed.

(** X15.  Lines 151-153, 183 and 224-228: the temporary enablement is
    undone on one object only, the retained instance.  After a run that
    returns, every TransferError object the run created by deep copy, other
    than the retained one, still has the enablement in force during the
    loop: the engine's enabled diagnostics added, and the enablement from
    before the run still saved on top of its stack. *)
Theorem X15_copies_keep_the_temporary_enablement self dataset w v w' r :
  _call self dataset w = (Ok v, w') ->
  (next_ref w <= r < next_ref w')%nat ->
  r <> self_transerror w' ->
  enablement (heap w' r) =
  if overrides self
  then (enable_states (terr_enable_of self)
          (te_enabled (heap w (self_transerror w))),
        te_enabled (heap w (self_transerror w))
          :: te_stored (heap w (self_transerror w)))
  else enablement (heap w (self_transerror w)).
Proof.
  intros Hcall Hr Hne. pose proof Hcall as H. unfold _call in H.
  apply bind_Ok_inv in H as (lc & w1 & Hrun & Hfin).
  destruct (decide (splitter self dataset = [])) as [Hnil|Hsp].
  { rewrite (call_no_split _ _ _ Hnil) in Hcall. discriminate. }
  destruct (call_after_loop _ _ _ _ _ Hrun Hsp)
    as (te & w'' & Hte & E & Hs & _ & _ & Hn & _).
  rewrite Hcall in E. inversion E as [[Hv Hw]]. subst w''.
  rewrite (finish_others _ _ _ _ _ _ _ Hfin Hte) by congruence.
  rewrite run_splits_eq in Hrun.
  destruct (loop_start_refs self dataset w) as (Hs0 & Hn0 & _).
  rewrite <- loop_start_enablement with (dataset := dataset).
  rewrite <- Hs0 at 1.
  eapply for_splits_copies_enablement; [exact Hrun|].
  rewrite Hn0. lia.
Qed.

End CopiesKeepTheOverride.

(** ** The further properties at work *)

Section MoreExamples.
Import Toy.
Local Open Scope Z_scope.

(** X2 at work: the evaluation of the only fold raises; the run stops in
    that fold. *)
Lemma X2_witness :
  (failing_fold whole = [] /\
   CollaboratorError 2 = UnboundLocalError /\
   trace (snd (_call (engine failing_fold false []) whole (world0 true)))
     = trace (world0 true)) \/
  (exists evs : list (nat * Z),
      length evs = length (failing_fold whole) /\
      trace (snd (_call (engine failing_fold false []) whole (world0 true)))
        = trace (world0 true) ++ eval_events (failing_fold whole) evs
            ++ [EvCombine evs.*2] /\
      total evs.*2 = Raise (CollaboratorError 2)) \/
  (exists pre split post (evs : list (nat * Z)) tail,
      failing_fold whole = pre ++ split :: post /\
      length evs = length pre /\
      trace (snd (_call (engine failing_fold false []) whole (world0 true)))
        = trace (world0 true) ++ eval_events pre evs ++ tail /\
      (tail = [] \/
       exists te res, tail = [EvEval te (snd split) (fst split) res])).
Proof.
  apply (X2_how_a_run_fails (engine failing_fold false []) whole (world0 true)
           (CollaboratorError 2)
           (snd (_call (engine failing_fold false []) whole (world0 true)))).
  apply outcome_eq. vm_compute. reflexivity.
Defined.

(** X3 at work: with [results] enabled the state holds the two errors the
    combiner was given. *)
Lemma X3_witness :
  Ok 7 = total [3; 4] /\
  st_results
    (self_states
       (snd (_call (engine two_folds false ["results"]) whole (world0 true))))
  = Some [3; 4].
Proof.
  destruct (X3_results_state_is_the_combiner_argument
              (engine two_folds false ["results"]) whole (world0 true)
              (Ok 7)
              (snd (_call (engine two_folds false ["results"]) whole
                      (world0 true)))
              [EvEval (D:=domain) 0%nat (Some (ds 13 [3; 4] false))
                 (Some (ds 10 [1; 2] false)) (Ok 3);
               EvEval (D:=domain) 0%nat (Some (ds 14 [1; 2] true)) None (Ok 4)]
              [3; 4]) as (H1 & _ & H3).
  - apply outcome_eq. vm_compute. reflexivity.
  - vm_compute. reflexivity.
  - split; [exact H1 | apply H3; reflexivity].
Defined.

(** X4 at work: the evaluation of the only fold raises, and that fold is
    recorded. *)
Lemma X4_witness :
  st_splits
    (self_states
       (snd (_call (engine failing_fold false ["splits"]) whole
               (world0 true))))
  = Some (failing_fold whole).
Proof.
  destruct (X4_splits_state_is_a_prefix
              (engine failing_fold false ["splits"]) whole (world0 true)
              (Raise (CollaboratorError 2))
              (snd (_call (engine failing_fold false ["splits"]) whole
                      (world0 true)))) as [_ H].
  - apply outcome_eq. vm_compute. reflexivity.
  - reflexivity.
  - destruct (H _ eq_refl)
      as [[Hst _] | (pre & split & post & evs & tail & Hl & _ & _ & _ & Hst)].
    + exact Hst.
    + rewrite Hst. cbn in Hl. destruct pre as [|p pre]; simpl in Hl.
      * inversion Hl. reflexivity.
      * destruct pre; inversion Hl.
Defined.

(** X5 at work: two folds, the first evaluated by the copy 1, the second,
    marked last, by the engine's object 0. *)
Lemma X5_witness :
  st_transerrors
    (self_states
       (snd (_call (engine two_folds false ["transerrors"]) whole
               (world0 true))))
    = Some [1%nat; 0%nat].
Proof.
  destruct (X5_transerrors_state_lists_the_evaluators
              (engine two_folds false ["transerrors"]) whole (world0 true) 53
              (snd (_call (engine two_folds false ["transerrors"]) whole
                      (world0 true))))
    as (evs & _ & _ & Hst & Hev & _).
  - simpl. lia.
  - apply outcome_eq. vm_compute. reflexivity.
  - reflexivity.
  - rewrite Hst, Hev. reflexivity.
Defined.

(** X6 at work: without [transerrors] the run allocates nothing and keeps
    the engine's object. *)
Lemma X6_witness :
  next_ref (snd (_call (engine two_folds false ["confusion"]) whole
                   (world0 true))) = 1%nat /\
  self_transerror (snd (_call (engine two_folds false ["confusion"]) whole
                          (world0 true))) = 0%nat.
Proof.
  destruct (X6_without_transerrors_no_copy_no_untraining
              (engine two_folds false ["confusion"]) whole (world0 true))
    as (H1 & H2 & _).
  - reflexivity.
  - split; [exact H1 | exact H2].
Defined.

(** X7 at work: the training partition of the only fold has no marker. *)
Lemma X7_witness :
  fst (_call (engine unmarked_fold false ["transerrors"]) whole (world0 true))
    = Raise KeyError /\
  trace (snd (_call (engine unmarked_fold false ["transerrors"]) whole
                 (world0 true))) = trace (world0 true) /\
  next_ref (snd (_call (engine unmarked_fold false ["transerrors"]) whole
                    (world0 true))) = next_ref (world0 true).
Proof.
  apply (X7_missing_marker_raises_KeyError
           (engine unmarked_fold false ["transerrors"]) whole (world0 true)
           (Some (mkDataset 10 [1; 2] (Some 7%nat) None),
            Some (ds 13 [3; 4] true))
           [] (mkDataset 10 [1; 2] (Some 7%nat) None));
    reflexivity.
Defined.

(** X8 at work: the sample 5 is not a key of the dictionary. *)
Lemma X8_witness :
  fst (pull_samples_error 0%nat (with_dict {[ 1 := [] ]} [(5, 9)]))
    = Raise KeyError.
Proof.
  apply (X8_foreign_sample_id_raises_KeyError 0%nat
           (with_dict {[ 1 := [] ]} [(5, 9)]) {[ 1 := [] ]} [(5, 9)] 5).
  - reflexivity.
  - reflexivity.
  - simpl. constructor.
  - vm_compute. reflexivity.
Defined.

(** X9 at work: one error appended for each of the samples 3 and 4. *)
Lemma X9_witness :
  exists m' : gmap Z (list Z),
    fst (pull_samples_error 0%nat
           (with_dict {[ 3 := []; 4 := [8] ]} [(3, 1); (4, 2)])) = Ok tt /\
    st_samples_error
      (self_states
         (snd (pull_samples_error 0%nat
                 (with_dict {[ 3 := []; 4 := [8] ]} [(3, 1); (4, 2)]))))
      = Some m' /\
    forall k v, (k, v) ∈ [(3, 1); (4, 2)] ->
      m' !! k = (fun l => l ++ [v]) <$> ({[ 3 := []; 4 := [8] ]} : gmap Z (list Z)) !! k.
Proof.
  apply (X9_sample_errors_are_appended 0%nat
           (with_dict {[ 3 := []; 4 := [8] ]} [(3, 1); (4, 2)])
           {[ 3 := []; 4 := [8] ]} [(3, 1); (4, 2)]).
  - reflexivity.
  - reflexivity.
  - simpl. apply (bool_decide_unpack _). vm_compute. exact I.
  - apply Forall_forall. simpl.
    constructor; [vm_compute; eauto|].
    constructor; [vm_compute; eauto|]. constructor.
Defined.

(** X10 at work: the first of the two folds adds its confusion to the
    empty summary the loop started with. *)
Lemma X10_witness :
  exists te v,
    Some 0%nat = Some te /\
    te_confusion
      (heap (snd (process_split
                    (engine two_folds false ["confusion"; "training_confusion"])
                    0%nat true (mkLocals (D:=domain) [] None)
                    (Some (ds 10 [1; 2] false), Some (ds 13 [3; 4] false))
                    (loop_start
                       (engine two_folds false
                          ["confusion"; "training_confusion"])
                       whole (world0 true)))) te) = Some v /\
    st_confusion
      (self_states
         (snd (process_split
                 (engine two_folds false ["confusion"; "training_confusion"])
                 0%nat true (mkLocals (D:=domain) [] None)
                 (Some (ds 10 [1; 2] false), Some (ds 13 [3; 4] false))
                 (loop_start
                    (engine two_folds false
                       ["confusion"; "training_confusion"])
                    whole (world0 true)))))
      = Some (summary_iadd ([], None) v).
Proof.
  destruct (X10_each_fold_adds_its_confusion
              (engine two_folds false ["confusion"; "training_confusion"])
              0%nat true (mkLocals (D:=domain) [] None)
              (Some (ds 10 [1; 2] false), Some (ds 13 [3; 4] false))
              (loop_start
                 (engine two_folds false ["confusion"; "training_confusion"])
                 whole (world0 true))
              (mkLocals (D:=domain) [3] (Some 0%nat))
              (snd (process_split
                      (engine two_folds false
                         ["confusion"; "training_confusion"])
                      0%nat true (mkLocals (D:=domain) [] None)
                      (Some (ds 10 [1; 2] false), Some (ds 13 [3; 4] false))
                      (loop_start
                         (engine two_folds false
                            ["confusion"; "training_confusion"])
                         whole (world0 true))))) as [H _].
  - apply outcome_eq. vm_compute. reflexivity.
  - apply (H ([], None)); reflexivity.
Defined.

(** X11 at work: two folds evaluated by the engine's object, with errors 3
    and 4; the state is the empty summary to which the summary of the first
    fold and then that of the second have been added. *)
Lemma X11_witness :
  exists vs : list (list Z * option nat),
    fold_by_fold (engine two_folds false ["confusion"]) 0%nat true
      te_confusion (mkLocals (D:=domain) [] None)
      (loop_start (engine two_folds false ["confusion"]) whole (world0 true))
      (two_folds whole) vs
      (snd (run_splits (engine two_folds false ["confusion"]) whole
              (world0 true))) /\
    length vs = 2%nat /\
    st_confusion
      (self_states
         (snd (run_splits (engine two_folds false ["confusion"]) whole
                 (world0 true))))
    = Some (foldl summary_iadd ([], None) vs).
Proof.
  destruct (X11_confusion_is_one_addition_per_fold
              (engine two_folds false ["confusion"]) whole (world0 true)
              (mkLocals (D:=domain) [3; 4] (Some 0%nat))
              (snd (run_splits (engine two_folds false ["confusion"]) whole
                      (world0 true)))) as [H _].
  - apply outcome_eq. vm_compute. reflexivity.
  - apply H. reflexivity.
Defined.

(** X12 at work: a dataset without a label map leaves the store alone; so
    does a summary that refuses the map; otherwise both summaries receive
    it. *)
Lemma X12_witness :
  snd (provide_labels_map (engine two_folds false ["confusion"]) unlabelled
         (with_confusions ([1], None) ([2], None)))
    = with_confusions ([1], None) ([2], None) /\
  snd (provide_labels_map (C:=strict_collaborators)
         (engine two_folds false ["confusion"; "training_confusion"]) whole
         (with_confusions ([1], Some 3%nat) ([2], None)))
    = with_confusions ([1], Some 3%nat) ([2], None) /\
  st_confusion
    (self_states
       (snd (provide_labels_map
               (engine two_folds false ["confusion"; "training_confusion"])
               whole (with_confusions ([1], None) ([2], None)))))
    = Some ([1], Some 7%nat) /\
  st_training_confusion
    (self_states
       (snd (provide_labels_map
               (engine two_folds false ["confusion"; "training_confusion"])
               whole (with_confusions ([1], None) ([2], None)))))
    = Some ([2], Some 7%nat).
Proof.
  split; [|split].
  - apply (X12_label_map_attachment
             (engine two_folds false ["confusion"]) unlabelled
             (with_confusions ([1], None) ([2], None))).
    reflexivity.
  - destruct (X12_label_map_attachment (C:=strict_collaborators)
                (engine two_folds false ["confusion"; "training_confusion"])
                whole (with_confusions ([1], Some 3%nat) ([2], None)))
      as (_ & H & _).
    apply (H ([1], Some 3%nat) 7%nat AttributeError); reflexivity.
  - destruct (X12_label_map_attachment
                (engine two_folds false ["confusion"; "training_confusion"])
                whole (with_confusions ([1], None) ([2], None)))
      as (_ & _ & H).
    apply (H ([1], None) ([2], None) 7%nat); reflexivity.
Defined.

(** X13 at work.  The second fold, marked last, is evaluated by the
    engine's own object, whose classifier then holds the fold's test
    partition.  With [transerrors] enabled and the final fold not marked
    last, the engine ends with the copy 1; the attribute of the original
    classifier and that of the copy's classifier are both [None]. *)
Lemma X13_witness :
  slot (snd (before_evaluation (engine two_folds true []) 0%nat true
               (None, Some (ds 14 [1; 2] true)) (world0 true))) 0%nat
    = Some (Some (ds 14 [1; 2] true)) /\
  slot (snd (_call (engine marked_first true ["transerrors"]) whole
               (world0 true))) 0%nat
    = Some None /\
  slot (snd (_call (engine marked_first true ["transerrors"]) whole
               (world0 true)))
    (self_transerror
       (snd (_call (engine marked_first true ["transerrors"]) whole
               (world0 true))))
    = Some None /\
  self_transerror
    (snd (_call (engine two_folds true []) whole (world0 true))) = 0%nat.
Proof.
  destruct (X13_exposure_on_the_normal_path
              (engine two_folds true []) whole (world0 true) eq_refl)
    as [H1 H2].
  destruct (X13_exposure_on_the_normal_path
              (engine marked_first true ["transerrors"]) whole (world0 true)
              eq_refl)
    as [_ H3].
  destruct (H2 7 (snd (_call (engine two_folds true []) whole (world0 true))))
    as (_ & Hkept & _).
  { eexists. reflexivity. }
  { apply outcome_eq. vm_compute. reflexivity. }
  destruct (H3 6 (snd (_call (engine marked_first true ["transerrors"]) whole
                         (world0 true))))
    as (Horig & _ & Hcopy).
  { eexists. reflexivity. }
  { apply outcome_eq. vm_compute. reflexivity. }
  split; [|split; [|split]].
  - apply (H1 (None, Some (ds 14 [1; 2] true)) (world0 true) 0%nat
             (snd (before_evaluation (engine two_folds true []) 0%nat true
                     (None, Some (ds 14 [1; 2] true)) (world0 true)))).
    + left. reflexivity.
    + apply outcome_eq. vm_compute. reflexivity.
  - exact Horig.
  - exact (Hcopy eq_refl).
  - exact (Hkept eq_refl).
Defined.

(** X14 at work: the first fold is harvested with its result 3 and no
    earlier results. *)
Lemma X14_witness :
  exists te result,
    mkLocals (D:=domain) [3] (Some 0%nat)
      = mkLocals ([] ++ [result]) (Some te) /\
    harvested
      (snd (process_split (engine two_folds false []) 0%nat true
              (mkLocals (D:=domain) [] None)
              (Some (ds 10 [1; 2] false), Some (ds 13 [3; 4] false))
              (world0 true)))
    = harvest_fx (harvested (world0 true))
        (Some (ds 10 [1; 2] false), Some (ds 13 [3; 4] false))
        (heap (snd (process_split (engine two_folds false []) 0%nat true
                      (mkLocals (D:=domain) [] None)
                      (Some (ds 10 [1; 2] false), Some (ds 13 [3; 4] false))
                      (world0 true))) te)
        result [].
Proof.
  apply (X14_each_fold_is_harvested_once (engine two_folds false []) 0%nat true
           (mkLocals (D:=domain) [] None)
           (Some (ds 10 [1; 2] false), Some (ds 13 [3; 4] false))
           (world0 true)).
  apply outcome_eq. vm_compute. reflexivity.
Defined.

(** X15 at work: the copy 1 that evaluated the first fold still has
    [confusion] enabled and the empty enablement saved, after the run has
    returned and restored the engine's object 0. *)
Lemma X15_witness :
  enablement
    (heap (snd (_call (engine two_folds false ["transerrors"; "confusion"])
                  whole (world0 true))) 1%nat)
  = (["confusion"], [[]]).
Proof.
  etransitivity.
  - apply (X15_copies_keep_the_temporary_enablement
             (engine two_folds false ["transerrors"; "confusion"]) whole
             (world0 true) 53
             (snd (_call (engine two_folds false ["transerrors"; "confusion"])
                     whole (world0 true))) 1%nat).
    + apply outcome_eq. vm_compute. reflexivity.
    + vm_compute. lia.
    + vm_compute. discriminate.
  - vm_compute. reflexivity.
Defined.

End MoreExamples.
